(** * FantasticLauncher: artifact reconciliation and acquisition engine

    A shallow embedding of the parts of the launcher that reconcile the two
    version descriptors, back them up and restore them, download and verify
    artifacts, evaluate platform rules, materialise legacy assets and report
    progress.  The modules follow the source files: [AssetVerifier] is
    asset-verifier.js, [Utils] is utils.js (with the game class it holds),
    [Launcher] is launcher.js.  [Http], [Game] and [Download] continue
    utils.js, [Verifier] continues asset-verifier.js, [Acquisition] and
    [Maven] continue launcher.js, and [UpdateChecker] is update-checker.js.
    [Js], [JsString], [Md5] and [Node] describe the language and the runtime
    underneath; the properties come after all definitions. *)

From Stdlib Require Import ZArith Lia String Ascii List Bool.
From Stdlib Require PrimFloat SpecFloat FloatOps FloatAxioms Uint63.
From stdpp Require Import gmap strings list.

Open Scope string_scope.

(** ** JavaScript string helpers *)

Module Js.

(** [String.prototype.split] with a one-character separator:
    ["a:b"] gives ["a"; "b"], the empty string gives one empty part. *)
Fixpoint split (sep : ascii) (s : string) : list string :=
  match s with
  | EmptyString => [EmptyString]
  | String c rest =>
      if Ascii.eqb c sep then EmptyString :: split sep rest
      else match split sep rest with
           | [] => [String c EmptyString]
           | part :: parts => String c part :: parts
           end
  end.

(** A string is truthy when it is not empty. *)
Definition truthy (s : string) : bool := negb (String.eqb s EmptyString).

(** [String.prototype.toLowerCase] on the ASCII range; the bytes of a
    non-ASCII character are kept as they are. *)
Definition lower_ascii (c : ascii) : ascii :=
  let n := nat_of_ascii c in
  if (65 <=? n)%nat && (n <=? 90)%nat then ascii_of_nat (n + 32) else c.

Fixpoint toLowerCase (s : string) : string :=
  match s with
  | EmptyString => EmptyString
  | String c rest => String (lower_ascii c) (toLowerCase rest)
  end.

(** [str.substring(0, n)] *)
Fixpoint prefix (n : nat) (s : string) : string :=
  match n, s with
  | S n', String c rest => String c (prefix n' rest)
  | _, _ => EmptyString
  end.

(** [path.join] on segments that need no normalisation. *)
Definition pathJoin (parts : list string) : string := String.concat "/" parts.

(** A JavaScript [Map] with string keys, in insertion order.  [set] on a
    key that is present replaces the value and keeps the position. *)
Fixpoint mapSet {V} (m : list (string * V)) (k : string) (v : V)
  : list (string * V) :=
  match m with
  | [] => [(k, v)]
  | (k', v') :: rest =>
      if String.eqb k' k then (k', v) :: rest
      else (k', v') :: mapSet rest k v
  end.

End Js.

(** ** The runtime the launcher runs on *)

Module Node.

(** The file tree, as far as the launcher reads it: a path holds a file
    with its bytes or a directory; [readonly] holds the paths a write to
    which is refused by the operating system.  The directory of a file that
    is written is taken to exist: the launcher creates it beforehand with
    [mkdirSync(dir, { recursive: true })]. *)
Inductive Entry :=
| File (bytes : string)
| Directory.

#[global] Instance Entry_eq_dec : EqDecision Entry.
Proof. solve_decision. Defined.

Record Fs := mkFs {
  entries : gmap string Entry;
  readonly : gset string
}.

Definition existsSync (fs : Fs) (p : string) : bool :=
  bool_decide (is_Some (entries fs !! p)).

(** The bytes of a file; [None] stands for the exception (no such file, or
    a directory). *)
Definition readBytes (fs : Fs) (p : string) : option string :=
  match entries fs !! p with
  | Some (File bytes) => Some bytes
  | _ => None
  end.

(** Writing a whole file; [None] stands for the exception, which leaves the
    tree as it was. *)
Definition writeBytes (fs : Fs) (p : string) (bytes : string) : option Fs :=
  if bool_decide (p ∈ readonly fs) then None
  else match entries fs !! p with
       | Some Directory => None
       | _ => Some {| entries := <[p := File bytes]> (entries fs);
                      readonly := readonly fs |}
       end.

(** [fs.copyFileSync(src, dest)]: the destination is overwritten. *)
Definition copyFileSync (fs : Fs) (src dest : string) : option Fs :=
  match readBytes fs src with
  | Some bytes => writeBytes fs dest bytes
  | None => None
  end.

(** [fs.unlinkSync], used on temporary files only; a missing file is left
    to the caller's [try]. *)
Definition unlink (fs : Fs) (p : string) : Fs :=
  {| entries := delete p (entries fs); readonly := readonly fs |}.

(** [fs.renameSync(from, to)] of a file that exists. *)
Definition rename (fs : Fs) (from to : string) : option Fs :=
  match readBytes fs from with
  | Some bytes =>
      match writeBytes (unlink fs from) to bytes with
      | Some fs' => Some fs'
      | None => None
      end
  | None => None
  end.

(** The UTF-8 codec behind [readFileSync(path, 'utf8')] and
    [writeFileSync(path, text)]. *)
Record Utf8 := mkUtf8 {
  decode : string -> string;
  encode : string -> string
}.

Definition readFileSync (u : Utf8) (fs : Fs) (p : string) : option string :=
  decode u <$> readBytes fs p.

Definition writeFileSync (u : Utf8) (fs : Fs) (p text : string) : option Fs :=
  writeBytes fs p (encode u text).

(** [fs.createReadStream]: the chunks handed to the ['data'] listener, each
    of at most [highWaterMark] bytes. *)
Fixpoint chunksFrom (size : nat) (current : string) (room : nat) (s : string)
  : list string :=
  match s with
  | EmptyString =>
      match current with
      | EmptyString => []
      | _ => [current]
      end
  | String c rest =>
      match room with
      | O => current :: chunksFrom size (String c EmptyString) (size - 1) rest
      | S room' => chunksFrom size (current ++ String c EmptyString) room' rest
      end
  end.

Definition highWaterMark : nat := 64 * 1024.

Definition createReadStream (fs : Fs) (p : string) : option (list string) :=
  chunksFrom highWaterMark EmptyString highWaterMark <$> readBytes fs p.

(** The codec on ASCII text, where a character is its byte. *)
Definition asciiText : Utf8 := {| decode := fun s => s; encode := fun s => s |}.

(** A tree from a list of files, none of them write-protected. *)
Definition treeOf (files : list (string * string)) : Fs :=
  {| entries := list_to_map (List.map (fun f => (f.1, File f.2)) files);
     readonly := ∅ |}.

(** The same tree with writes to [p] refused. *)
Definition protect (fs : Fs) (p : string) : Fs :=
  {| entries := entries fs; readonly := {[p]} ∪ readonly fs |}.

(** [crypto.createHash]: [update] appends to what was hashed so far,
    [digest('hex')] is the hexadecimal digest of all of it. *)
Definition Hash := string.
Definition createHash : Hash := EmptyString.
Definition update (h : Hash) (data : string) : Hash := h ++ data.
Definition digestHex (hex : string -> string) (h : Hash) : string := hex h.

End Node.

(** ** SHA-1 (FIPS 180-4), the digest behind [crypto.createHash('sha1')]

    The functions of the launcher take the digest as an argument; this
    implementation gives the examples a digest to run with. *)

Module Sha1.

Open Scope Z_scope.

Definition w32 (x : Z) : Z := x mod 2 ^ 32.

Definition rotl (n x : Z) : Z :=
  w32 (Z.lor (Z.shiftl x n) (Z.shiftr x (32 - n))).

Fixpoint bytesOf (s : string) : list Z :=
  match s with
  | EmptyString => []
  | String c rest => Z.of_nat (nat_of_ascii c) :: bytesOf rest
  end.

Definition bigEndian (width : nat) (x : Z) : list Z :=
  List.map (fun i => (x / 256 ^ Z.of_nat i) mod 256) (List.rev (List.seq 0 width)).

Definition pad (msg : list Z) : list Z :=
  let len := Z.of_nat (length msg) in
  let zeros := Z.to_nat ((55 - len) mod 64) in
  msg ++ [128] ++ repeat 0 zeros ++ bigEndian 8 (8 * len).

Fixpoint words (bytes : list Z) : list Z :=
  match bytes with
  | a :: b :: c :: d :: rest =>
      (((a * 256 + b) * 256 + c) * 256 + d) :: words rest
  | _ => []
  end.

Fixpoint blocks (n : nat) (ws : list Z) : list (list Z) :=
  match n with
  | O => []
  | S n' => firstn 16 ws :: blocks n' (skipn 16 ws)
  end.

Fixpoint schedule (n : nat) (w : list Z) : list Z :=
  match n with
  | O => w
  | S n' =>
      let t := length w in
      let back i := nth (t - i) w 0 in
      schedule n' (w ++ [rotl 1 (Z.lxor (Z.lxor (back 3%nat) (back 8%nat))
                                   (Z.lxor (back 14%nat) (back 16%nat)))])
  end.

Definition round (st : Z * Z * Z * Z * Z) (tw : nat * Z) :=
  let '(a, b, c, d, e) := st in
  let '(t, w) := tw in
  let '(f, k) :=
    if (t <? 20)%nat then
      (Z.lor (Z.land b c) (Z.land (Z.lxor b 4294967295) d), 1518500249)
    else if (t <? 40)%nat then (Z.lxor (Z.lxor b c) d, 1859775393)
    else if (t <? 60)%nat then
      (Z.lor (Z.lor (Z.land b c) (Z.land b d)) (Z.land c d), 2400959708)
    else (Z.lxor (Z.lxor b c) d, 3395469782) in
  (w32 (rotl 5 a + f + e + k + w), a, rotl 30 b, c, d).

Definition compress (h : Z * Z * Z * Z * Z) (block : list Z) :=
  let '(h0, h1, h2, h3, h4) := h in
  let w := schedule 64 block in
  let '(a, b, c, d, e) :=
    fold_left round (List.combine (List.seq 0 80) w) h in
  (w32 (h0 + a), w32 (h1 + b), w32 (h2 + c), w32 (h3 + d), w32 (h4 + e)).

Definition hexDigit (n : Z) : ascii :=
  if n <? 10 then ascii_of_nat (Z.to_nat (48 + n))
  else ascii_of_nat (Z.to_nat (87 + n)).

Definition hexWord (x : Z) : string :=
  fold_right
    (fun i acc => String (hexDigit ((x / 16 ^ Z.of_nat i) mod 16)) acc)
    EmptyString (List.rev (List.seq 0 8)).

Definition hex (msg : string) : string :=
  let ws := words (pad (bytesOf msg)) in
  let '(h0, h1, h2, h3, h4) :=
    fold_left compress (blocks (length ws / 16) ws)
      (1732584193, 4023233417, 2562383102, 271733878, 3285377520) in
  (hexWord h0 ++ hexWord h1 ++ hexWord h2 ++ hexWord h3 ++ hexWord h4)%string.

End Sha1.

(** ** asset-verifier.js

    *** Conflict resolver ([identifyLibraryConflicts], lines 204-245, and
        [resolveLibraryConflicts], lines 250-269) *)

Module AssetVerifier.

(** A library entry of a version descriptor.  Only [name] is read by the
    resolver; [payload] stands for every other property of the JSON object
    (downloads, rules, natives, url), carried along untouched. *)
Record Library := mkLibrary {
  name : option string;
  payload : string
}.

#[global] Instance Library_eq_dec : EqDecision Library.
Proof. solve_decision. Defined.

(** A version descriptor.  [libraries] may be missing, which the code
    reads as [libraries || []]. *)
Record Descriptor := mkDescriptor {
  libraries : option (list Library);
  assetIndex : option string;
  others : string
}.

#[global] Instance Descriptor_eq_dec : EqDecision Descriptor.
Proof. solve_decision. Defined.

Record Conflict := mkConflict {
  baseName : string;
  minecraft : option string;
  fabric : option string
}.

#[global] Instance Conflict_eq_dec : EqDecision Conflict.
Proof. solve_decision. Defined.

(** [json.libraries || []] *)
Definition librariesOf (d : Descriptor) : list Library :=
  default [] (libraries d).

(** The guard shared by the three loops:
<<
  if (lib.name) {
    const nameParts = lib.name.split(':');
    if (nameParts.length >= 2) {
      const baseName = `${nameParts[0]}:${nameParts[1]}`;
>>
    [None] when the body of the guard is not entered. *)
Definition baseNameOf (lib : Library) : option string :=
  match name lib with
  | Some n =>
      if Js.truthy n then
        match Js.split ":" n with
        | p0 :: p1 :: _ => Some (p0 ++ ":" ++ p1)
        | _ => None
        end
      else None
  | None => None
  end.

(** The body of the first loop of [identifyLibraryConflicts]. *)
Definition setLib (m : gmap string Library) (lib : Library)
  : gmap string Library :=
  match baseNameOf lib with
  | Some k => <[k := lib]> m
  | None => m
  end.

(** The first loop of [identifyLibraryConflicts]: [minecraftLibMap.set]
    overwrites, so a later library with the same key replaces an earlier
    one. *)
Definition buildLibMap (libs : list Library) : gmap string Library :=
  foldl setLib ∅ libs.

(** The body of the second loop for one overlay library. *)
Definition conflictFor (m : gmap string Library) (fabricLib : Library)
  : option Conflict :=
  match baseNameOf fabricLib with
  | Some k =>
      match m !! k with
      | Some minecraftLib =>
          if decide (name minecraftLib = name fabricLib) then None
          else Some {| baseName := k;
                       minecraft := name minecraftLib;
                       fabric := name fabricLib |}
      | None => None
      end
  | None => None
  end.

Definition identifyLibraryConflicts (minecraftJson fabricJson : Descriptor)
  : list Conflict :=
  let minecraftLibMap := buildLibMap (librariesOf minecraftJson) in
  omap (conflictFor minecraftLibMap) (librariesOf fabricJson).

(** The predicate given to [filter] in [resolveLibraryConflicts]. *)
Definition keepLibrary (c : Conflict) (lib : Library) : bool :=
  match baseNameOf lib with
  | Some k => negb (String.eqb k (baseName c))
  | None => true
  end.

(** One iteration of the loop over the conflicts: the descriptor's
    [libraries] property is assigned the filtered array. *)
Definition dropConflict (minecraftJson : Descriptor) (c : Conflict)
  : Descriptor :=
  {| libraries := Some (List.filter (keepLibrary c) (librariesOf minecraftJson));
     assetIndex := assetIndex minecraftJson;
     others := others minecraftJson |}.

(** [resolveLibraryConflicts] mutates [minecraftJson] in place and never
    writes to [fabricJson]; the pair is the state of both objects after the
    call. *)
Definition resolveLibraryConflicts (minecraftJson fabricJson : Descriptor)
    (conflicts : list Conflict) : Descriptor * Descriptor :=
  (foldl dropConflict minecraftJson conflicts, fabricJson).

(** The pairs the specification speaks of: a base library and an overlay
    library with the same key and different names, in the order of the
    overlay list, then of the base list. *)
Definition conflictingPair (b o : Library) : option Conflict :=
  match baseNameOf b, baseNameOf o with
  | Some kb, Some ko =>
      if String.eqb kb ko && negb (bool_decide (name b = name o))
      then Some {| baseName := ko; minecraft := name b; fabric := name o |}
      else None
  | _, _ => None
  end.

Definition conflictPairs (base overlay : list Library) : list Conflict :=
  flat_map (fun o => omap (fun b => conflictingPair b o) base) overlay.

(** A base library is in conflict when some overlay library forms a
    conflicting pair with it. *)
Definition inConflict (overlay : list Library) (b : Library) : bool :=
  existsb (fun o => bool_decide (is_Some (conflictingPair b o))) overlay.

(** The keys of a library list, in order. *)
Definition keysOf (libs : list Library) : list string := omap baseNameOf libs.

(** The last library of a list that carries key [k]: the entry a chain of
    [Map.set] calls leaves behind. *)
Fixpoint lastWithKey (k : string) (libs : list Library) : option Library :=
  match libs with
  | [] => None
  | lib :: rest =>
      match lastWithKey k rest with
      | Some later => Some later
      | None => if decide (baseNameOf lib = Some k) then Some lib else None
      end
  end.

(** A library passes every filter of [resolveLibraryConflicts]. *)
Definition keepAll (cs : list Conflict) (lib : Library) : bool :=
  forallb (fun c => keepLibrary c lib) cs.

(** Sample descriptors. *)
Definition lib (n : string) : Library := {| name := Some n; payload := EmptyString |}.
Definition descriptor (libs : list Library) : Descriptor :=
  {| libraries := Some libs; assetIndex := None; others := EmptyString |}.

(** *** Backup and restore of the descriptor files ([backupJsonFile],
        lines 162-172, [restoreJsonFiles], lines 177-199,
        [processVersionFiles], lines 101-157) *)

Import Node.

(** [JSON.parse] and [JSON.stringify] on descriptors; [parse] gives [None]
    where [JSON.parse] throws. *)
Record Json := mkJson {
  parse : string -> option Descriptor;
  stringify : Descriptor -> string
}.

(** [this.modifiedJsonFiles]: path to original text. *)
Definition Backups := list (string * string).

(** The body is wrapped in [try]/[catch]: a failing read is logged and the
    map is left as it was. *)
Definition backupJsonFile (u : Utf8) (fs : Fs) (modified : Backups)
    (jsonPath : string) : Backups :=
  if existsSync fs jsonPath then
    match readFileSync u fs jsonPath with
    | Some content => Js.mapSet modified jsonPath content
    | None => modified
    end
  else modified.

(** The loop of [restoreJsonFiles]: a write that throws is logged and the
    loop goes on with the next entry. *)
Fixpoint restoreEach (u : Utf8) (fs : Fs) (entries : Backups)
    (restored : list string) : Fs * list string :=
  match entries with
  | [] => (fs, restored)
  | (filePath, content) :: rest =>
      match writeFileSync u fs filePath content with
      | Some fs' => restoreEach u fs' rest (restored ++ [filePath])
      | None => restoreEach u fs rest restored
      end
  end.

Record RestoreResult := mkRestoreResult {
  success : bool;
  restored : list string
}.

(** The result is the file tree, the map after [clear()] and the returned
    object. *)
Definition restoreJsonFiles (u : Utf8) (fs : Fs) (modified : Backups)
  : Fs * Backups * RestoreResult :=
  let '(fs', written) := restoreEach u fs modified [] in
  (fs', [], {| success := true; restored := written |}).

Inductive ProcessError :=
| MinecraftJsonNotFound (path : string)
| FabricJsonNotFound (path : string)
| LoadFailed (path : string)
| WriteFailed (path : string).

Inductive ProcessResult :=
| Processed (conflicts : nat)
| ProcessFailed (error : ProcessError).

Definition withAssetIndex (d : Descriptor) (a : option string) : Descriptor :=
  {| libraries := libraries d; assetIndex := a; others := others d |}.

(** "Make sure asset index is present in both". *)
Definition fixAssetIndex (minecraftJson fabricJson : Descriptor)
  : Descriptor * Descriptor :=
  match assetIndex minecraftJson, assetIndex fabricJson with
  | None, Some a => (withAssetIndex minecraftJson (Some a), fabricJson)
  | Some a, None => (minecraftJson, withAssetIndex fabricJson (Some a))
  | _, _ => (minecraftJson, fabricJson)
  end.

Definition minecraftJsonPathOf (VERSIONS_DIR minecraftVersion : string) :=
  Js.pathJoin [VERSIONS_DIR; minecraftVersion; minecraftVersion ++ ".json"].

Definition fabricJsonPathOf (VERSIONS_DIR minecraftVersion fabricVersion : string) :=
  let fabricVersionId :=
    "fabric-loader-" ++ fabricVersion ++ "-" ++ minecraftVersion in
  Js.pathJoin [VERSIONS_DIR; fabricVersionId; fabricVersionId ++ ".json"].

Definition loadJson (u : Utf8) (J : Json) (fs : Fs) (p : string)
  : option Descriptor :=
  match readFileSync u fs p with
  | Some text => parse J text
  | None => None
  end.

(** A stand-in for [JSON] in examples: a descriptor document is the
    comma-separated list of its library names. *)
Definition sampleJson : Json :=
  {| parse := fun text => Some (descriptor (List.map lib (Js.split "," text)));
     stringify := fun d =>
       String.concat "," (List.map (fun l => default EmptyString (name l)) (librariesOf d)) |}.

Definition processVersionFiles (u : Utf8) (J : Json) (VERSIONS_DIR : string)
    (fs : Fs) (modified : Backups) (minecraftVersion fabricVersion : string)
  : Fs * Backups * ProcessResult :=
  let minecraftJsonPath := minecraftJsonPathOf VERSIONS_DIR minecraftVersion in
  let fabricJsonPath :=
    fabricJsonPathOf VERSIONS_DIR minecraftVersion fabricVersion in
  if negb (existsSync fs minecraftJsonPath) then
    (fs, modified, ProcessFailed (MinecraftJsonNotFound minecraftJsonPath))
  else if negb (existsSync fs fabricJsonPath) then
    (fs, modified, ProcessFailed (FabricJsonNotFound fabricJsonPath))
  else
    let modified1 := backupJsonFile u fs modified minecraftJsonPath in
    let modified2 := backupJsonFile u fs modified1 fabricJsonPath in
    match loadJson u J fs minecraftJsonPath with
    | None => (fs, modified2, ProcessFailed (LoadFailed minecraftJsonPath))
    | Some minecraftJson0 =>
        match loadJson u J fs fabricJsonPath with
        | None => (fs, modified2, ProcessFailed (LoadFailed fabricJsonPath))
        | Some fabricJson0 =>
            let '(minecraftJson, fabricJson) :=
              fixAssetIndex minecraftJson0 fabricJson0 in
            let conflicts := identifyLibraryConflicts minecraftJson fabricJson in
            if (0 <? length conflicts)%nat then
              let '(minecraftJson', fabricJson') :=
                resolveLibraryConflicts minecraftJson fabricJson conflicts in
              match writeFileSync u fs minecraftJsonPath
                      (stringify J minecraftJson') with
              | None =>
                  (fs, modified2, ProcessFailed (WriteFailed minecraftJsonPath))
              | Some fs1 =>
                  match writeFileSync u fs1 fabricJsonPath
                          (stringify J fabricJson') with
                  | None =>
                      (fs1, modified2,
                       ProcessFailed (WriteFailed fabricJsonPath))
                  | Some fs2 => (fs2, modified2, Processed (length conflicts))
                  end
              end
            else (fs, modified2, Processed 0)
        end
    end.

(** *** Hash verification ([computeFileHash], lines 76-96, and
        [verifyAsset], lines 274-290) *)

(** [sha1] is the hexadecimal SHA-1 digest of a byte string, the work of
    [crypto.createHash('sha1')].  [None] is the rejected promise. *)
Definition computeFileHash (sha1 : string -> string) (fs : Fs)
    (filePath : string) : option string :=
  match createReadStream fs filePath with
  | Some chunks => Some (digestHex sha1 (foldl update createHash chunks))
  | None => None
  end.

Inductive VerifyResult :=
| Valid
| FileNotFound
| HashMismatch (expected actual : string)
| VerifyError.

Definition verifyAsset (sha1 : string -> string) (fs : Fs)
    (assetPath expectedHash : string) : VerifyResult :=
  if negb (existsSync fs assetPath) then FileNotFound
  else match computeFileHash sha1 fs assetPath with
       | Some actualHash =>
           if negb (String.eqb (Js.toLowerCase actualHash)
                               (Js.toLowerCase expectedHash))
           then HashMismatch expectedHash actualHash
           else Valid
       | None => VerifyError
       end.

(** Two byte strings of the same length that differ in exactly one byte. *)
Definition oneByteApart (a b : string) : Prop :=
  exists before c c' after,
    c <> c' /\
    a = before ++ String c after /\
    b = before ++ String c' after.

(** *** Legacy asset tree ([createVirtualAssets], lines 437-477) *)

Record AssetInfo := mkAssetInfo {
  hash : string;
  size : nat
}.

(** An asset index document: [virtual] is [assetIndex.virtual === true],
    [objects] the entries of the object in their order. *)
Record AssetIndex := mkAssetIndex {
  virtual : bool;
  objects : list (string * AssetInfo)
}.

(** One iteration of the loop.  The directories of the destination are
    taken to exist; an exception of [copyFileSync] is caught and logged. *)
Definition copyVirtualAsset (ASSETS_DIR virtualDir : string)
    (st : Fs * nat) (entry : string * AssetInfo) : Fs * nat :=
  let '(fs, processed) := st in
  let '(assetPath, assetInfo) := entry in
  let hashPrefix := Js.prefix 2 (hash assetInfo) in
  let srcPath :=
    Js.pathJoin [ASSETS_DIR; "objects"; hashPrefix; hash assetInfo] in
  let destPath := Js.pathJoin [virtualDir; assetPath] in
  if existsSync fs srcPath then
    match copyFileSync fs srcPath destPath with
    | Some fs' => (fs', S processed)
    | None => (fs, processed)
    end
  else (fs, processed).

(** The file tree after the call and the returned count. *)
Definition createVirtualAssets (ASSETS_DIR : string) (fs : Fs)
    (assetIndex : AssetIndex) : Fs * nat :=
  let virtualDir := Js.pathJoin [ASSETS_DIR; "virtual"; "legacy"] in
  foldl (copyVirtualAsset ASSETS_DIR virtualDir) (fs, 0) (objects assetIndex).

End AssetVerifier.

(** ** utils.js: hash check ([verifyHash], lines 281-293), single download
       ([downloadFile], lines 118-278), batch download
       ([downloadFilesParallel], lines 69-115), argument rules
       ([checkArgConditions], lines 757-783) and the copy loop of
       [ensureVirtualAssetsSetup] (lines 923-947) *)

Module Utils.

Import Node.

(** [verifyHash(filePath, expectedHash)]; [None] is the rejected promise
    (the stream's ['error'] event). *)
Definition verifyHash (sha1 : string -> string) (fs : Fs)
    (filePath expectedHash : string) : option bool :=
  match createReadStream fs filePath with
  | Some chunks =>
      let fileHash := digestHex sha1 (foldl update createHash chunks) in
      Some (String.eqb (Js.toLowerCase fileHash) (Js.toLowerCase expectedHash))
  | None => None
  end.

(** What the remote host does with one request: a 3xx answer with a
    [location] header, a 2xx answer with its body, any other status, an
    ['error'] event of the request, or no answer within the timeout. *)
Inductive Response :=
| Redirect (location : string)
| Success (body : string)
| Status (code : nat)
| RequestError
| NoAnswer.

(** The environment of a download: the digest, the answer to the n-th
    request overall, and the suffix [Date.now()-random] of the n-th
    temporary file name. *)
Record Env := mkEnv {
  sha1 : string -> string;
  respond : nat -> string -> Response;
  stamp : nat -> string
}.

Record World := mkWorld {
  fs : Fs;
  requests : nat;
  calls : nat
}.

Definition withFs (w : World) (fs' : Fs) : World :=
  {| fs := fs'; requests := requests w; calls := calls w |}.

Inductive DownloadError :=
| HttpStatus (code : nat)
| RequestFailed
| DownloadTimeout
| FileError (path : string)
| HashUnreadable (path : string)
| HashVerificationFailed (destination : string).

(** The values [downloadFile] resolves to; [Undefined] is the fall through
    of a loop that ran no attempt. *)
Inductive DownloadValue :=
| Skipped (destination : string)
| Downloaded (destination : string)
| Undefined.

Definition Outcome : Type := DownloadError + DownloadValue.

(** The promise of one attempt: the request, the write stream on the
    temporary file and the handlers of both.  [redirect] is the recursive
    call made for a 3xx answer. *)
Definition attempt (env : Env) (redirect : string -> World -> World * Outcome)
    (url destination tempFile : string) (w : World)
  : World * (DownloadError + unit) :=
  let response := respond env (requests w) url in
  let w := {| fs := fs w; requests := S (requests w); calls := calls w |} in
  match writeBytes (fs w) tempFile EmptyString with
  | None => (withFs w (unlink (fs w) tempFile), inl (FileError tempFile))
  | Some created =>
      match response with
      | Redirect location =>
          let '(w', r) := redirect location (withFs w (unlink created tempFile)) in
          (w', match r with
               | inl e => inl e
               | inr _ => inr tt
               end)
      | Success body =>
          match writeBytes created tempFile body with
          | None => (withFs w (unlink created tempFile), inl (FileError tempFile))
          | Some written =>
              match rename written tempFile destination with
              | Some moved => (withFs w moved, inr tt)
              | None =>
                  match copyFileSync written tempFile destination with
                  | Some copied => (withFs w (unlink copied tempFile), inr tt)
                  | None =>
                      (withFs w (unlink written tempFile),
                       inl (FileError destination))
                  end
              end
          end
      | Status code =>
          (withFs w (unlink created tempFile), inl (HttpStatus code))
      | RequestError =>
          (withFs w (unlink created tempFile), inl RequestFailed)
      | NoAnswer =>
          (withFs w (unlink created tempFile), inl DownloadTimeout)
      end
  end.

(** "Verify hash if provided", inside the [try] of the loop. *)
Definition verifyDownloaded (env : Env) (destination : string)
    (expectedHash : option string) (w : World) : DownloadError + unit :=
  match expectedHash with
  | Some h =>
      if Js.truthy h then
        match verifyHash (sha1 env) (fs w) destination h with
        | Some true => inr tt
        | Some false => inl (HashVerificationFailed destination)
        | None => inl (HashUnreadable destination)
        end
      else inr tt
  | None => inr tt
  end.

(** "If file exists and hash matches, skip download": [Some (inr true)]
    skips, [Some (inl e)] is the rejection of [verifyHash], outside any
    [try]. *)
Definition alreadyValid (env : Env) (destination : string)
    (expectedHash : option string) (w : World) : DownloadError + bool :=
  match expectedHash with
  | Some h =>
      if Js.truthy h && existsSync (fs w) destination then
        match verifyHash (sha1 env) (fs w) destination h with
        | Some valid => inr valid
        | None => inl (HashUnreadable destination)
        end
      else inr false
  | None => inr false
  end.

(** The [for] loop over the attempts; [left] counts the attempts that
    remain after the current one.  An attempt that fails, or whose file
    does not pass the hash check, is followed by the next one; the last
    failure is thrown. *)
Fixpoint attempts (env : Env) (redirect : string -> World -> World * Outcome)
    (url destination tempFile : string) (expectedHash : option string)
    (left : nat) (w : World) {struct left} : World * Outcome :=
  let '(w1, r) := attempt env redirect url destination tempFile w in
  let checked :=
    match r with
    | inl e => inl e
    | inr _ => verifyDownloaded env destination expectedHash w1
    end in
  match checked with
  | inr _ => (w1, inr (Downloaded destination))
  | inl e =>
      match left with
      | O => (w1, inl e)
      | S left' =>
          attempts env redirect url destination tempFile expectedHash left' w1
      end
  end.

(** [downloadFile(url, destination, retries, expectedHash)].  A redirect
    calls the function with [retries - 1], which is what the recursion
    descends on. *)
Fixpoint downloadFile (env : Env) (retries : nat) (url destination : string)
    (expectedHash : option string) (w : World) {struct retries}
  : World * Outcome :=
  let tempFile := destination ++ ".tmp-" ++ stamp env (calls w) in
  let w := {| fs := fs w; requests := requests w; calls := S (calls w) |} in
  match alreadyValid env destination expectedHash w with
  | inl e => (w, inl e)
  | inr true => (w, inr (Skipped destination))
  | inr false =>
      match retries with
      | O => (w, inr Undefined)
      | S fewer =>
          attempts env
            (fun location => downloadFile env fewer location destination
                               expectedHash)
            url destination tempFile expectedHash fewer w
      end
  end.

(** The destination holds a file whose digest is not the expected one. *)
Definition leftCorrupt (env : Env) (destination : string)
    (expectedHash : option string) (w : World) : Prop :=
  exists bytes h,
    expectedHash = Some h /\
    readBytes (fs w) destination = Some bytes /\
    Js.toLowerCase (sha1 env bytes) <> Js.toLowerCase h.

(** The destination can be written and the temporary name is free. *)
Definition ready (destination tempFile : string) (w : World) : Prop :=
  (destination ∉ readonly (fs w)) /\
  (entries (fs w) !! destination) <> Some Directory /\
  (tempFile ∉ readonly (fs w)) /\
  entries (fs w) !! tempFile = None.

(** The world after [n] more requests that stored [body] at the
    destination. *)
Definition stored (destination body : string) (w : World) (n : nat) : World :=
  {| fs := {| entries := <[destination := File body]> (entries (fs w));
              readonly := readonly (fs w) |};
     requests := requests w + n;
     calls := calls w |}.

(** A sample host that answers every request with the same body, and an
    empty tree to download into. *)
Definition steadyHost (body : string) : Env :=
  {| sha1 := Sha1.hex;
     respond := fun _ _ => Success body;
     stamp := fun _ => "1700000000000-42" |}.

Definition emptyWorld : World :=
  {| fs := treeOf []; requests := 0; calls := 0 |}.

(** *** [downloadFilesParallel] *)

Record Task := mkTask {
  url : string;
  destination : string;
  expectedHash : option string;
  retries : option nat;
  taskName : string
}.

(** The state of one call: the local [queue], the downloads that were
    started and have not settled ([inProgress]), and the two result
    arrays. *)
Record Pool := mkPool {
  queue : list Task;
  inProgress : list Task;
  results : list (Task * DownloadValue);
  errors : list (Task * DownloadError)
}.

(** [processNext] up to its [await]: take the head of the queue and start
    its download. *)
Definition processNext (p : Pool) : Pool :=
  match queue p with
  | [] => p
  | file :: rest =>
      {| queue := rest; inProgress := inProgress p ++ [file];
         results := results p; errors := errors p |}
  end.

(** The state after the loop that starts the initial batch. *)
Definition start (files : list Task) (concurrency : nat) : Pool :=
  let initialBatch := Nat.min concurrency (length files) in
  Nat.iter initialBatch processNext
    {| queue := files; inProgress := []; results := []; errors := [] |}.

(** The continuation of [processNext] when the awaited download of [file]
    settles: record the outcome, leave [inProgress], and start the next
    download when the queue is not empty. *)
Definition settle (p : Pool) (before after : list Task) (file : Task)
    (outcome : Outcome) : Pool :=
  let recorded :=
    match outcome with
    | inr result =>
        {| queue := queue p; inProgress := before ++ after;
           results := results p ++ [(file, result)]; errors := errors p |}
    | inl error =>
        {| queue := queue p; inProgress := before ++ after;
           results := results p; errors := errors p ++ [(file, error)] |}
    end in
  processNext recorded.

(** One turn of the event loop: some started download settles. *)
Inductive step : Pool -> Pool -> Prop :=
| step_settle p before file after outcome :
    inProgress p = (before ++ file :: after)%list ->
    step p (settle p before after file outcome).

Inductive reachable (files : list Task) (concurrency : nat) : Pool -> Prop :=
| reach_start : reachable files concurrency (start files concurrency)
| reach_step p p' :
    reachable files concurrency p -> step p p' ->
    reachable files concurrency p'.

(** Both [Promise.all] have resolved when no download is pending. *)
Definition completed (p : Pool) : Prop := inProgress p = [].

Record Summary := mkSummary {
  total : nat;
  successful : nat;
  failed : nat
}.

(** The counts of the returned object. *)
Definition summary (files : list Task) (p : Pool) : Summary :=
  {| total := length files;
     successful := length (results p);
     failed := length (errors p) |}.

(** A run of the whole call under an oracle that names, turn by turn, which
    pending download settles next (its position among the pending ones,
    taken modulo their number) and how. *)
Definition settleAt (p : Pool) (choice : nat) (outcome : Outcome) : Pool :=
  let i := choice mod length (inProgress p) in
  match inProgress p !! i with
  | Some file =>
      settle p (take i (inProgress p)) (drop (S i) (inProgress p)) file outcome
  | None => p
  end.

Definition drive (oracle : list (nat * Outcome)) (p : Pool) : Pool :=
  foldl (fun p turn => settleAt p turn.1 turn.2) p oracle.

(** [downloadFilesParallel(files, concurrency)]: the counts of the returned
    object, or [None] when the oracle ends before every started download has
    settled. *)
Definition downloadFilesParallel (oracle : list (nat * Outcome))
    (files : list Task) (concurrency : nat) : option Summary :=
  let p := drive oracle (start files concurrency) in
  match inProgress p with
  | [] => Some (summary files p)
  | _ => None
  end.

(** The tasks whose download has settled, successes first. *)
Definition settled (p : Pool) : list Task :=
  (fst <$> results p) ++ (fst <$> errors p).

(** The tasks still to settle. *)
Definition pending (p : Pool) : nat :=
  length (inProgress p) + length (queue p).

(** What every state of a run satisfies: each submitted task is in exactly
    one of the four places; at most [k] downloads are pending; and as long
    as the queue is not empty, exactly [k] are. *)
Definition invariant (files : list Task) (k : nat) (p : Pool) : Prop :=
  settled p ++ inProgress p ++ queue p ≡ₚ files /\
  length (inProgress p) <= k /\
  (queue p <> [] -> length (inProgress p) = k).

Definition sampleTask (n : string) : Task :=
  {| url := "https://resources.example/" ++ n;
     destination := "assets/objects/" ++ n;
     expectedHash := Some n;
     retries := None;
     taskName := n |}.

(** *** Argument rules ([checkArgConditions]) *)

Record OsRule := mkOsRule {
  osName : option string;
  osVersion : option string
}.

Record Rule := mkRule {
  action : option string;
  os : option OsRule;
  features : bool
}.

(** [process.platform] and the regular expression engine. *)
Record Platform := mkPlatform {
  platform : string;
  regexTest : string -> string -> bool
}.

Definition getNativeOS (P : Platform) : string :=
  if String.eqb (platform P) "win32" then "windows"
  else if String.eqb (platform P) "darwin" then "osx"
  else if String.eqb (platform P) "linux" then "linux"
  else "unknown".

(** [rule.os.name && rule.os.name !== currentOS] *)
Definition osNameDiffers (P : Platform) (o : OsRule) : bool :=
  match osName o with
  | Some n => Js.truthy n && negb (String.eqb n (getNativeOS P))
  | None => false
  end.

(** [rule.os.version && !new RegExp(rule.os.version).test(process.platform.version)];
    [process.platform] is a string, its [version] property is [undefined],
    which [test] reads as the text ["undefined"]. *)
Definition osVersionDiffers (P : Platform) (o : OsRule) : bool :=
  match osVersion o with
  | Some v => Js.truthy v && negb (regexTest P v "undefined")
  | None => false
  end.

(** The value of [applies] at the end of the loop body for one rule. *)
Definition ruleApplies (P : Platform) (rule : Rule) : bool :=
  let applies := bool_decide (action rule = Some "allow") in
  let applies :=
    match os rule with
    | Some o =>
        let applies := if osNameDiffers P o then negb applies else applies in
        if osVersionDiffers P o then negb applies else applies
    | None => applies
    end in
  if features rule then false else applies.

Fixpoint checkRules (P : Platform) (rules : list Rule) : bool :=
  match rules with
  | [] => true
  | rule :: rest => if negb (ruleApplies P rule) then false else checkRules P rest
  end.

(** [rules] is the [rules] property of the argument, [None] when missing. *)
Definition checkArgConditions (P : Platform) (rules : option (list Rule))
  : bool :=
  match rules with
  | None => true
  | Some rs => checkRules P rs
  end.

(** *** The copy loop of [ensureVirtualAssetsSetup] *)

Definition copyMissingAsset (ASSETS_DIR virtualDir : string)
    (st : Fs * nat) (entry : string * AssetVerifier.AssetInfo) : Fs * nat :=
  let '(fs, processed) := st in
  let '(assetPath, assetInfo) := entry in
  let hash := AssetVerifier.hash assetInfo in
  let hashPrefix := Js.prefix 2 hash in
  let srcPath := Js.pathJoin [ASSETS_DIR; "objects"; hashPrefix; hash] in
  let destPath := Js.pathJoin [virtualDir; assetPath] in
  if existsSync fs srcPath && negb (existsSync fs destPath) then
    match copyFileSync fs srcPath destPath with
    | Some fs' => (fs', S processed)
    | None => (fs, processed)
    end
  else (fs, processed).

Definition copyMissingAssets (ASSETS_DIR : string) (fs : Fs)
    (assetIndex : AssetVerifier.AssetIndex) : Fs * nat :=
  let virtualDir := Js.pathJoin [ASSETS_DIR; "virtual"; "legacy"] in
  foldl (copyMissingAsset ASSETS_DIR virtualDir) (fs, 0)
        (AssetVerifier.objects assetIndex).

End Utils.

(** ** launcher.js: progress ([getProgress], lines 1583-1591), library
       rules ([shouldUseLibrary], lines 1536-1566), the concurrency of
       [downloadAssets] (lines 1374-1377), [createVirtualAssets] (lines
       1432-1470), single download ([downloadFile], lines 185-291) and the
       acquisition run ([downloadGameFiles], lines 417-532) *)

Module Launcher.

Import Node.
Import PrimFloat.

(** JavaScript numbers are binary64 floating-point values. *)
Definition number := PrimFloat.float.

Definition ofZ (z : Z) : number := PrimFloat.of_uint63 (Uint63.of_Z z).

(** [Math.floor] *)
Definition Math_floor (x : number) : number :=
  match FloatOps.Prim2SF x with
  | SpecFloat.S754_finite negative m e =>
      if (0 <=? e)%Z then x
      else
        let d := (2 ^ (- e))%Z in
        if negative then PrimFloat.opp (ofZ ((Z.pos m + d - 1) / d))
        else ofZ (Z.pos m / d)
  | _ => x
  end.

(** [this.downloadProgress] *)
Record Progress := mkProgress {
  total : number;
  completed : number;
  current : string
}.

Record ProgressReport := mkProgressReport {
  reportTotal : number;
  reportCompleted : number;
  reportCurrent : string;
  percentage : number
}.

Definition getProgress (downloadProgress : Progress) : ProgressReport :=
  {| reportTotal := total downloadProgress;
     reportCompleted := completed downloadProgress;
     reportCurrent := current downloadProgress;
     percentage :=
       if PrimFloat.eqb (total downloadProgress) 0%float then 0%float
       else Math_floor
              (PrimFloat.mul
                 (PrimFloat.div (completed downloadProgress)
                                (total downloadProgress))
                 100%float) |}.

(** [shouldUseLibrary]: the loop over [library.rules], with [continue] for
    a rule whose OS conditions do not hold. *)
Fixpoint rulesLoop (P : Utils.Platform) (rules : list Utils.Rule)
    (allowed : bool) : bool :=
  match rules with
  | [] => allowed
  | rule :: rest =>
      let action := negb (bool_decide (Utils.action rule = Some "disallow")) in
      match Utils.os rule with
      | Some o =>
          if Utils.osNameDiffers P o then rulesLoop P rest allowed
          else if Utils.osVersionDiffers P o then rulesLoop P rest allowed
          else rulesLoop P rest action
      | None => rulesLoop P rest action
      end
  end.

Definition shouldUseLibrary (P : Utils.Platform)
    (rules : option (list Utils.Rule)) : bool :=
  match rules with
  | Some rs => rulesLoop P rs false
  | None => true
  end.

(** The OS conditions of a rule hold (the loop does not [continue]). *)
Definition ruleMatches (P : Utils.Platform) (rule : Utils.Rule) : bool :=
  match Utils.os rule with
  | Some o => negb (Utils.osNameDiffers P o) && negb (Utils.osVersionDiffers P o)
  | None => true
  end.

(** The action of a rule, [allow] unless it says [disallow]. *)
Definition ruleAllows (rule : Utils.Rule) : bool :=
  negb (bool_decide (Utils.action rule = Some "disallow")).

(** A Linux host; the sample rules carry no version pattern, so that the
    regular expression engine is never consulted. *)
Definition linuxHost : Utils.Platform :=
  {| Utils.platform := "linux"; Utils.regexTest := fun _ _ => false |}.

Definition plainRule (action : string) : Utils.Rule :=
  {| Utils.action := Some action; Utils.os := None; Utils.features := false |}.

Definition osRule (action os : string) : Utils.Rule :=
  {| Utils.action := Some action;
     Utils.os := Some {| Utils.osName := Some os; Utils.osVersion := None |};
     Utils.features := false |}.

(** A virtual asset index with one object, present in the object store,
    whose place in the legacy tree is taken by an older file. *)
Definition sampleIndex : AssetVerifier.AssetIndex :=
  {| AssetVerifier.virtual := true;
     AssetVerifier.objects :=
       [("icons/icon.png",
         {| AssetVerifier.hash := Sha1.hex "new"; AssetVerifier.size := 3 |})] |}.

Definition sampleAssets : Fs :=
  treeOf
    [(Js.pathJoin ["assets"; "objects"; Js.prefix 2 (Sha1.hex "new");
                   Sha1.hex "new"], "new");
     ("assets/virtual/legacy/icons/icon.png", "old")].

(** The concurrency [downloadAssets] asks for, from the length of its
    download queue. *)
Definition assetConcurrency (queueLength : nat) : nat :=
  Nat.min (Nat.max 10 (queueLength / 100)) 50.

(** [createVirtualAssets] of the launcher: as in the asset verifier, with
    the object store under [ASSETS_OBJECTS_DIR]. *)
Definition copyVirtualAsset (ASSETS_OBJECTS_DIR virtualDir : string)
    (st : Fs * nat) (entry : string * AssetVerifier.AssetInfo) : Fs * nat :=
  let '(fs, processed) := st in
  let '(assetPath, assetInfo) := entry in
  let hash := AssetVerifier.hash assetInfo in
  let hashPrefix := Js.prefix 2 hash in
  let srcPath := Js.pathJoin [ASSETS_OBJECTS_DIR; hashPrefix; hash] in
  let destPath := Js.pathJoin [virtualDir; assetPath] in
  if existsSync fs srcPath then
    match copyFileSync fs srcPath destPath with
    | Some fs' => (fs', S processed)
    | None => (fs, processed)
    end
  else (fs, processed).

Definition createVirtualAssets (ASSETS_DIR ASSETS_OBJECTS_DIR : string)
    (fs : Fs) (assetIndexJson : AssetVerifier.AssetIndex) : Fs :=
  let virtualDir := Js.pathJoin [ASSETS_DIR; "virtual"; "legacy"] in
  (foldl (copyVirtualAsset ASSETS_OBJECTS_DIR virtualDir) (fs, 0)
         (AssetVerifier.objects assetIndexJson)).1.

(** [downloadFile(url, destination, expectedHash)] of the launcher: one
    attempt, a fixed temporary name, and a recursive call for every
    redirect.  [depth] bounds the redirects that are followed; [None] means
    that the promise does not settle: the bound was reached, or a request
    got no answer (this function sets no timeout).  The progress counters
    it increments are not part of the state here. *)
Definition requestOnce (env : Utils.Env)
    (redirect : string -> Utils.World -> option (Utils.World * Utils.Outcome))
    (url destination tempFile : string) (w : Utils.World)
  : option (Utils.World * (Utils.DownloadError + unit)) :=
  let response := Utils.respond env (Utils.requests w) url in
  let w := {| Utils.fs := Utils.fs w;
              Utils.requests := S (Utils.requests w);
              Utils.calls := Utils.calls w |} in
  match writeBytes (Utils.fs w) tempFile EmptyString with
  | None =>
      Some (Utils.withFs w (unlink (Utils.fs w) tempFile),
            inl (Utils.FileError tempFile))
  | Some created =>
      match response with
      | Utils.Redirect location =>
          match redirect location (Utils.withFs w (unlink created tempFile)) with
          | Some (w', inl e) => Some (w', inl e)
          | Some (w', inr _) => Some (w', inr tt)
          | None => None
          end
      | Utils.Success body =>
          match writeBytes created tempFile body with
          | None =>
              Some (Utils.withFs w (unlink created tempFile),
                    inl (Utils.FileError tempFile))
          | Some written =>
              match rename written tempFile destination with
              | Some moved => Some (Utils.withFs w moved, inr tt)
              | None => Some (Utils.withFs w written,
                              inl (Utils.FileError destination))
              end
          end
      | Utils.Status code =>
          Some (Utils.withFs w (unlink created tempFile),
                inl (Utils.HttpStatus code))
      | Utils.RequestError =>
          Some (Utils.withFs w (unlink created tempFile),
                inl Utils.RequestFailed)
      | Utils.NoAnswer => None
      end
  end.

Fixpoint downloadFile (env : Utils.Env) (depth : nat)
    (url destination : string) (expectedHash : option string)
    (w : Utils.World) {struct depth}
  : option (Utils.World * Utils.Outcome) :=
  let tempFile := destination ++ ".tmp" in
  match Utils.alreadyValid env destination expectedHash w with
  | inl e => Some (w, inl e)
  | inr true => Some (w, inr (Utils.Skipped destination))
  | inr false =>
      match depth with
      | O => None
      | S depth' =>
          match requestOnce env
                  (fun location => downloadFile env depth' location
                                     destination expectedHash)
                  url destination tempFile w with
          | None => None
          | Some (w1, inl e) => Some (w1, inl e)
          | Some (w1, inr _) =>
              match Utils.verifyDownloaded env destination expectedHash w1 with
              | inl e => Some (w1, inl e)
              | inr _ => Some (w1, inr (Utils.Downloaded destination))
              end
          end
      end
  end.

(** The run of [downloadGameFiles] around the descriptor files.  The calls
    that load the descriptors, acquire the artifacts
    ([downloadDependencies], [transferFabricLoaderJar]) and check the result
    ([fixAssetLoading], [verifyFabricMainClass]) act on the file tree and
    either return or throw. *)
Inductive Completion := Returned | Threw.

Record Phases := mkPhases {
  loadDescriptors : Fs -> Fs * Completion;
  acquire : Fs -> Fs * Completion;
  finish : Fs -> Fs * Completion
}.

(** A phase that does not touch path [p] nor its write protection. *)
Definition leavesAlone (phase : Fs -> Fs * Completion) (p : string) : Prop :=
  forall t, entries (phase t).1 !! p = entries t !! p /\
            (p ∈ readonly (phase t).1 <-> p ∈ readonly t).

(** The file at [p], when there is one, is well-formed UTF-8: encoding its
    decoded text gives its bytes back. *)
Definition validUtf8 (u : Utf8) (fs : Fs) (p : string) : Prop :=
  forall bytes, readBytes fs p = Some bytes -> encode u (decode u bytes) = bytes.

(** A sample run: the descriptors are cached, and the acquisition stores
    one library and then throws. *)
Definition sampleTree : Fs :=
  treeOf
    [("versions/1.20.4/1.20.4.json",
      "com.example:foo:1.0,org.lwjgl:lwjgl:3.3.1");
     ("versions/fabric-loader-0.15.0-1.20.4/fabric-loader-0.15.0-1.20.4.json",
      "com.example:foo:2.0")].

Definition samplePhases : Phases :=
  {| loadDescriptors := fun t => (t, Returned);
     acquire := fun t =>
       (default t (writeBytes t "libraries/com/example/foo/2.0/foo-2.0.jar" "jar"),
        Threw);
     finish := fun t => (t, Returned) |}.

Record RunResult := mkRunResult {
  tree : Fs;
  backups : AssetVerifier.Backups;
  succeeded : bool
}.

(** The [catch] block: restore, then report the failure. *)
Definition failRun (u : Utf8) (fs : Fs) (modified : AssetVerifier.Backups)
  : RunResult :=
  let '(fs', modified', _) := AssetVerifier.restoreJsonFiles u fs modified in
  {| tree := fs'; backups := modified'; succeeded := false |}.

Definition downloadGameFiles (u : Utf8) (J : AssetVerifier.Json)
    (VERSIONS_DIR : string) (phases : Phases) (fs : Fs)
    (modified : AssetVerifier.Backups) (minecraftVersion fabricVersion : string)
  : RunResult :=
  (* assetVerifier.initialize() clears the map *)
  let modified := @nil (string * string) in
  let '(fs1, c1) := loadDescriptors phases fs in
  match c1 with
  | Threw => failRun u fs1 modified
  | Returned =>
      let '(fs2, modified2, _) :=
        AssetVerifier.processVersionFiles u J VERSIONS_DIR fs1 modified
          minecraftVersion fabricVersion in
      let '(fs3, c3) := acquire phases fs2 in
      match c3 with
      | Threw => failRun u fs3 modified2
      | Returned =>
          let '(fs4, modified4, _) :=
            AssetVerifier.restoreJsonFiles u fs3 modified2 in
          let '(fs5, c5) := finish phases fs4 in
          match c5 with
          | Threw => failRun u fs5 modified4
          | Returned =>
              {| tree := fs5; backups := modified4; succeeded := true |}
          end
      end
  end.

End Launcher.

(** ** More JavaScript string methods *)
Module JsString.

Fixpoint drop (n : nat) (s : string) : string :=
  match n, s with
  | S n', String _ rest => drop n' rest
  | _, _ => s
  end.

(** [str.substring(start, end)] for [start <= end]; both are clamped to
    the length of the string. *)
Definition substring (start end_ : nat) (s : string) : string :=
  Js.prefix (end_ - start) (drop start s).

(** [str.substring(start)] *)
Definition substringFrom (start : nat) (s : string) : string := drop start s.

(** [str.startsWith(p)] *)
Fixpoint startsWith (p s : string) : bool :=
  match p, s with
  | EmptyString, _ => true
  | String a p', String b s' => Ascii.eqb a b && startsWith p' s'
  | _, _ => false
  end.

(** The text before and after the first occurrence of [pattern]. *)
Fixpoint cut (pattern s : string) : option (string * string) :=
  if startsWith pattern s then Some (EmptyString, drop (String.length pattern) s)
  else match s with
       | EmptyString => None
       | String c rest =>
           match cut pattern rest with
           | Some (before, after) => Some (String c before, after)
           | None => None
           end
       end.

(** The replacement text of [str.replace(pattern, replacement)] with a
    string pattern: [$$] is a dollar sign, [$&] the matched text, [$`] the
    text before it and [$'] the text after it; without capture groups any
    other [$] stands for itself. *)
Fixpoint expand (matched before after replacement : string) : string :=
  match replacement with
  | EmptyString => EmptyString
  | String "$" (String "$" rest) =>
      String "$" (expand matched before after rest)
  | String "$" (String "&" rest) =>
      matched ++ expand matched before after rest
  | String "$" (String "`" rest) =>
      before ++ expand matched before after rest
  | String "$" (String "'" rest) =>
      after ++ expand matched before after rest
  | String c rest => String c (expand matched before after rest)
  end.

(** [str.replace(pattern, replacement)]: the first occurrence only. *)
Definition replace (pattern replacement s : string) : string :=
  match cut pattern s with
  | Some (before, after) =>
      before ++ expand pattern before after replacement ++ after
  | None => s
  end.

(** [str.endsWith(suffix)] *)
Definition endsWith (suffix s : string) : bool :=
  (String.length suffix <=? String.length s)%nat &&
  String.eqb (drop (String.length s - String.length suffix) s) suffix.

(** The characters of a string, as [for (const c of str)] yields them. *)
Fixpoint characters (s : string) : list string :=
  match s with
  | EmptyString => []
  | String c rest => String c EmptyString :: characters rest
  end.

(** The character does not occur in the string. *)
Fixpoint without (c : ascii) (s : string) : bool :=
  match s with
  | EmptyString => true
  | String a rest => negb (Ascii.eqb a c) && without c rest
  end.

End JsString.

(** ** MD5 (RFC 1321), the digest behind [crypto.createHash('md5')] *)
Module Md5.

Open Scope Z_scope.

Definition rotl (n x : Z) : Z :=
  Sha1.w32 (Z.lor (Z.shiftl x n) (Z.shiftr x (32 - n))).

(** [floor(2^32 * abs(sin(i + 1)))] for [i] from 0 to 63. *)
Definition K : list Z :=
  [3614090360; 3905402710; 606105819; 3250441966; 4118548399; 1200080426;
   2821735955; 4249261313; 1770035416; 2336552879; 4294925233; 2304563134;
   1804603682; 4254626195; 2792965006; 1236535329; 4129170786; 3225465664;
   643717713; 3921069994; 3593408605; 38016083; 3634488961; 3889429448;
   568446438; 3275163606; 4107603335; 1163531501; 2850285829; 4243563512;
   1735328473; 2368359562; 4294588738; 2272392833; 1839030562; 4259657740;
   2763975236; 1272893353; 4139469664; 3200236656; 681279174; 3936430074;
   3572445317; 76029189; 3654602809; 3873151461; 530742520; 3299628645;
   4096336452; 1126891415; 2878612391; 4237533241; 1700485571; 2399980690;
   4293915773; 2240044497; 1873313359; 4264355552; 2734768916; 1309151649;
   4149444226; 3174756917; 718787259; 3951481745].

Definition shifts : list Z :=
  [7; 12; 17; 22; 7; 12; 17; 22; 7; 12; 17; 22; 7; 12; 17; 22;
   5; 9; 14; 20; 5; 9; 14; 20; 5; 9; 14; 20; 5; 9; 14; 20;
   4; 11; 16; 23; 4; 11; 16; 23; 4; 11; 16; 23; 4; 11; 16; 23;
   6; 10; 15; 21; 6; 10; 15; 21; 6; 10; 15; 21; 6; 10; 15; 21].

Definition littleEndian (width : nat) (x : Z) : list Z :=
  List.map (fun i => (x / 256 ^ Z.of_nat i) mod 256) (List.seq 0 width).

Definition pad (msg : list Z) : list Z :=
  let len := Z.of_nat (length msg) in
  let zeros := Z.to_nat ((55 - len) mod 64) in
  (msg ++ [128] ++ repeat 0 zeros ++ littleEndian 8 (8 * len))%list.

Fixpoint words (bytes : list Z) : list Z :=
  match bytes with
  | a :: b :: c :: d :: rest =>
      (((d * 256 + c) * 256 + b) * 256 + a) :: words rest
  | _ => []
  end.

Definition not32 (x : Z) : Z := Z.lxor x 4294967295.

Definition round (M : list Z) (st : Z * Z * Z * Z) (i : nat) :=
  let '(A, B, C, D) := st in
  let '(F, g) :=
    if (i <? 16)%nat then (Z.lor (Z.land B C) (Z.land (not32 B) D), i)
    else if (i <? 32)%nat then
      (Z.lor (Z.land D B) (Z.land (not32 D) C), ((5 * i + 1) mod 16)%nat)
    else if (i <? 48)%nat then
      (Z.lxor (Z.lxor B C) D, ((3 * i + 5) mod 16)%nat)
    else (Z.lxor C (Z.lor B (not32 D)), ((7 * i) mod 16)%nat) in
  let F := Sha1.w32 (F + A + nth i K 0 + nth g M 0) in
  (D, Sha1.w32 (B + rotl (nth i shifts 0) F), B, C).

Definition compress (h : Z * Z * Z * Z) (block : list Z) :=
  let '(a0, b0, c0, d0) := h in
  let '(A, B, C, D) := fold_left (round block) (List.seq 0 64) h in
  (Sha1.w32 (a0 + A), Sha1.w32 (b0 + B), Sha1.w32 (c0 + C), Sha1.w32 (d0 + D)).

Definition hexByte (b : Z) : string :=
  String (Sha1.hexDigit (b / 16)) (String (Sha1.hexDigit (b mod 16)) EmptyString).

(** A 32-bit word as eight hexadecimal digits, low byte first. *)
Definition hexWord (x : Z) : string :=
  (hexByte (x mod 256) ++ hexByte ((x / 256) mod 256) ++
   hexByte ((x / 65536) mod 256) ++ hexByte ((x / 16777216) mod 256))%string.

Definition hex (msg : string) : string :=
  let ws := words (pad (Sha1.bytesOf msg)) in
  let '(a, b, c, d) :=
    fold_left compress (Sha1.blocks (length ws / 16) ws)
      (1732584193, 4023233417, 2562383102, 271733878) in
  (hexWord a ++ hexWord b ++ hexWord c ++ hexWord d)%string.

End Md5.

(** ** Maven coordinates (launcher.js) *)
Module Maven.
Import JsString.

(** [group.replace(/\./g, '/')] *)
Fixpoint replaceDots (s : string) : string :=
  match s with
  | EmptyString => EmptyString
  | String c rest =>
      String (if Ascii.eqb c "." then "/"%char else c) (replaceDots rest)
  end.

(** [const [group, artifact, version] = name.split(':')] followed by
    [if (!group || !artifact || !version)]: a missing part is [undefined],
    an empty one is the empty string, and both are falsy. *)
Definition coordinates (name : string) : option (string * string * string) :=
  match Js.split ":" name with
  | group :: artifact :: version :: _ =>
      if Js.truthy group && Js.truthy artifact && Js.truthy version
      then Some (group, artifact, version)
      else None
  | _ => None
  end.

(** [`${groupPath}/${artifact}/${version}/${jarName}`] *)
Definition relativePath (c : string * string * string) : string :=
  let '(group, artifact, version) := c in
  let groupPath := replaceDots group in
  let jarName := artifact ++ "-" ++ version ++ ".jar" in
  groupPath ++ "/" ++ artifact ++ "/" ++ version ++ "/" ++ jarName.

(** The path of a library given by name, [None] for "Invalid Maven
    coordinates". *)
Definition libraryPath (name : string) : option string :=
  relativePath <$> coordinates name.

(** No part of the coordinates holds a slash. *)
Definition slashFree (c : string * string * string) : Prop :=
  let '(group, artifact, version) := c in
  without "/" group = true /\ without "/" artifact = true /\
  without "/" version = true.

End Maven.

(** ** utils.js: [httpGet] (lines 10-66) *)
Module Http.
Import Utils.

(** What a rejected request carries: the status of an answer that is
    neither a redirect nor a 2xx, the ['error'] event, or the 15 s
    timeout. *)
Inductive GetError :=
| StatusCode (code : nat)
| RequestErr
| RequestTimeout.

(** The promise of [httpGet]: rejected with an error, or resolved with the
    text of the answer; [None] is [undefined], the value of a call whose
    loop ran no attempt. *)
Definition GetResult : Type := GetError + option string.

(** The [for] loop.  The state is the number of requests made so far, which
    is what the host's answer depends on.  [redirect] is the call made for a
    3xx answer, [fallback] the call made for the fallback URL after the last
    attempt has failed; [left] counts the attempts after the current one. *)
Fixpoint getAttempts (env : Env) (redirect : string -> nat -> nat * GetResult)
    (fallback : option (nat -> nat * GetResult)) (url : string)
    (left : nat) (n : nat) {struct left} : nat * GetResult :=
  let '(n1, r) :=
    match respond env n url with
    | Redirect location => redirect location (S n)
    | Success data => (S n, inr (Some data))
    | Status code => (S n, inl (StatusCode code))
    | RequestError => (S n, inl RequestErr)
    | NoAnswer => (S n, inl RequestTimeout)
    end in
  match r with
  | inr data => (n1, inr data)
  | inl err =>
      match left with
      | O =>
          match fallback with
          | Some call =>
              let '(n2, r2) := call n1 in
              match r2 with
              | inr data => (n2, inr data)
              | inl _ => (n2, inl err)
              end
          | None => (n1, inl err)
          end
      | S left' => getAttempts env redirect fallback url left' n1
      end
  end.

(** [httpGet] with the call for the fallback URL abstracted: [fallback r]
    is [httpGet(fallbackUrl, null, r, delay)]. *)
Fixpoint httpGetWith (env : Env)
    (fallback : option (nat -> nat -> nat * GetResult))
    (retries : nat) (url : string) (n : nat) {struct retries}
  : nat * GetResult :=
  match retries with
  | O => (n, inr None)
  | S fewer =>
      getAttempts env (fun location => httpGetWith env fallback fewer location)
        (option_map (fun call => call retries) fallback) url fewer n
  end.

(** [httpGet(url, fallbackUrl, retries, delay)]; the delay between two
    attempts is not part of the state. *)
Definition httpGet (env : Env) (url : string) (fallbackUrl : option string)
    (retries : nat) (n : nat) : nat * GetResult :=
  let fallback :=
    match fallbackUrl with
    | Some fallbackUrl =>
        if Js.truthy fallbackUrl
        then Some (fun r => httpGetWith env None r fallbackUrl)
        else None
    | None => None
    end in
  httpGetWith env fallback retries url n.

(** The error a request is rejected with, when the answer is neither a
    redirect nor a body. *)
Definition rejection (r : Response) : option GetError :=
  match r with
  | Status code => Some (StatusCode code)
  | RequestError => Some RequestErr
  | NoAnswer => Some RequestTimeout
  | _ => None
  end.

(** A host that is out of order for its first two requests, and a host
    whose primary address is always out of order. *)
Definition flakyHost : Env :=
  {| sha1 := Sha1.hex;
     respond := fun n _ => if (n <? 2)%nat then Status 503 else Success "{}";
     stamp := fun _ => "1700000000000-42" |}.

Definition mirroredHost (primary : string) : Env :=
  {| sha1 := Sha1.hex;
     respond := fun _ url =>
       if String.eqb url primary then Status 503 else Success "mirror";
     stamp := fun _ => "1700000000000-42" |}.

End Http.

(** ** game.js (in utils.js) *)
Module Game.
Import JsString.

(** [generateUUID(username)], lines 296-303 and 786-793; [md5] is the
    hexadecimal MD5 digest of the user name. *)
Definition generateUUID (md5 : string -> string) (username : string) : string :=
  let hash := md5 username in
  substring 0 8 hash ++ "-" ++
  substring 8 12 hash ++ "-" ++
  substring 12 16 hash ++ "-" ++
  substring 16 20 hash ++ "-" ++
  substringFrom 20 hash.

(** The values [replaceGameArgPlaceholders] inserts (lines 736-754). *)
Record GameValues := mkGameValues {
  username : string;
  uuid : string;
  userProperties : string;
  assetIndex : string;
  versionId : option string;
  MINECRAFT_DIR : string;
  assetsDir : string;
  gameAssetsDir : option string
}.

(** [a || b] on a string that may be missing. *)
Definition orElse (a : option string) (b : string) : string :=
  match a with
  | Some s => if Js.truthy s then s else b
  | None => b
  end.

(** The chain of [replace] calls, in its order. *)
Definition substitutions (v : GameValues) : list (string * string) :=
  [("${auth_player_name}", username v);
   ("${auth_uuid}", uuid v);
   ("${auth_access_token}", "null");
   ("${auth_session}", "null");
   ("${user_type}", "mojang");
   ("${user_properties}", userProperties v);
   ("${version_name}", orElse (versionId v) "unknown");
   ("${assets_index_name}", assetIndex v);
   ("${game_directory}", MINECRAFT_DIR v);
   ("${assets_root}", assetsDir v);
   ("${game_assets}", orElse (gameAssetsDir v) (assetsDir v));
   ("${version_type}", "release")].

Definition replaceGameArgPlaceholders (v : GameValues) (arg : string) : string :=
  foldl (fun s pr => replace pr.1 pr.2 s) arg (substitutions v).

(** *** [buildJvmArgs] (lines 545-608) *)

(** An element of [arg.value]: a string, or anything else. *)
Inductive ArgValue :=
| Str (s : string)
| NotStr.

(** [arg.value]: an array, a string (whose characters [for ... of] then
    yields one by one), or a value that cannot be iterated. *)
Inductive ArgValues :=
| Values (vs : list ArgValue)
| Text (s : string)
| NotIterable.

(** An element of [versionJson.arguments.jvm]: a string, an object with
    its [rules] and [value], [null], or a value of another type. *)
Inductive JvmArg :=
| ArgString (s : string)
| ArgObject (rules : option (list Utils.Rule)) (value : ArgValues)
| ArgNull
| ArgOther.

Definition replaceJvm (nativesDir classpath s : string) : string :=
  replace "${classpath}" classpath
    (replace "${launcher_version}" "1.0.0"
       (replace "${launcher_name}" "FabricLauncher"
          (replace "${natives_directory}" nativesDir s))).

(** [args.includes(x)] *)
Definition includes (args : list string) (x : string) : bool :=
  existsb (String.eqb x) args.

(** [if (!args.includes(x)) args.push(x)] *)
Definition pushNew (args : list string) (x : string) : list string :=
  if includes args x then args else args ++ [x].

(** The loop over [arg.value]. *)
Definition pushValues (nativesDir classpath : string) (args : list string)
    (value : ArgValues) : option (list string) :=
  match value with
  | Values vs =>
      Some (foldl (fun args v =>
                     match v with
                     | Str s => pushNew args (replaceJvm nativesDir classpath s)
                     | NotStr => args
                     end) args vs)
  | Text s =>
      Some (foldl (fun args c => pushNew args (replaceJvm nativesDir classpath c))
                  args (characters s))
  | NotIterable => None
  end.

(** The loop over [versionJson.arguments.jvm]; [None] is the exception
    that rejects the promise. *)
Fixpoint jvmLoop (P : Utils.Platform) (nativesDir classpath : string)
    (jvm : list JvmArg) (args : list string) : option (list string) :=
  match jvm with
  | [] => Some args
  | ArgString s :: rest =>
      jvmLoop P nativesDir classpath rest
        (pushNew args (replaceJvm nativesDir classpath s))
  | ArgObject rules value :: rest =>
      if Utils.checkArgConditions P rules then
        match pushValues nativesDir classpath args value with
        | Some args' => jvmLoop P nativesDir classpath rest args'
        | None => None
        end
      else jvmLoop P nativesDir classpath rest args
  | ArgNull :: _ => None
  | ArgOther :: rest => jvmLoop P nativesDir classpath rest args
  end.

(** The arguments pushed before the descriptor is read. *)
Definition fixedJvmArgs (MINECRAFT_DIR nativesDir classpath ramMin ramMax : string)
  : list string :=
  ["-Xms" ++ ramMin; "-Xmx" ++ ramMax;
   "-XX:+UnlockExperimentalVMOptions"; "-XX:+UseG1GC";
   "-XX:G1NewSizePercent=20"; "-XX:G1ReservePercent=20";
   "-XX:MaxGCPauseMillis=50"; "-XX:G1HeapRegionSize=32M";
   "-Dfml.ignoreInvalidMinecraftCertificates=true";
   "-Dfml.ignorePatchDiscrepancies=true";
   "-Djava.library.path=" ++ nativesDir;
   "-Dminecraft.applet.TargetDirectory=" ++ MINECRAFT_DIR;
   "-cp"; classpath].

(** [buildJvmArgs(versionJson, ramMin, ramMax)]; [nativesDir] is
    [path.join(VERSIONS_DIR, versionJson.id, 'natives')], [classpath] the
    result of [buildClasspath], [jvm] is [versionJson.arguments.jvm]. *)
Definition buildJvmArgs (P : Utils.Platform)
    (MINECRAFT_DIR nativesDir classpath ramMin ramMax : string)
    (jvm : option (list JvmArg)) : option (list string) :=
  let args := fixedJvmArgs MINECRAFT_DIR nativesDir classpath ramMin ramMax in
  match jvm with
  | Some jvm => jvmLoop P nativesDir classpath jvm args
  | None => Some args
  end.

(** The tail of [args] was added without repeating an argument. *)
Definition addedOnce (fixed args : list string) : Prop :=
  exists added,
    args = (fixed ++ added)%list /\ NoDup added /\
    forall x, x ∈ added -> x ∉ fixed.

(** The JVM arguments of a current descriptor that matter here: a stack
    size for 32-bit hosts, given as a string, and the class path. *)
Definition sampleJvm : list JvmArg :=
  [ArgObject
     (Some [{| Utils.action := Some "allow";
               Utils.os := Some {| Utils.osName := None; Utils.osVersion := None |};
               Utils.features := false |}])
     (Text "-Xss1M");
   ArgString "-Djava.library.path=${natives_directory}";
   ArgString "-cp";
   ArgString "${classpath}"].

End Game.

(** ** Notions used to state what a download leaves behind *)
Module Download.
Import Node Utils.
(** The tree [t] differs from [t0] at most at [destination]. *)
Definition frame (destination : string) (t0 t : Fs) : Prop :=
  readonly t = readonly t0 /\
  forall q, q <> destination -> entries t !! q = entries t0 !! q.

(** No temporary name of a download to [destination] is taken. *)
Definition tempFree (env : Env) (destination : string) (t : Fs) : Prop :=
  forall k,
    let tempFile := destination ++ ".tmp-" ++ stamp env k in
    (tempFile ∉ readonly t) /\ entries t !! tempFile = None.
Definition verified (env : Env) (destination h : string) (w : World) : Prop :=
  exists bytes, readBytes (fs w) destination = Some bytes /\
                Js.toLowerCase (sha1 env bytes) = Js.toLowerCase h.

(** A host that answers every request with a redirect to one more path
    segment. *)
Definition redirectingHost : Env :=
  {| sha1 := Sha1.hex;
     respond := fun _ url => Redirect (url ++ "/next");
     stamp := fun _ => "1700000000000-42" |}.

End Download.

(** ** asset-verifier.js: verification of an asset index
       ([verifyAllAssets], lines 295-362, [repairMissingAssets], lines
       367-397, [downloadFile], lines 402-432) and the sound copies
       ([createVirtualAssetsForSounds], lines 820-876,
       [linkSoundsFromAssets], lines 881-928) *)

Module Verifier.
Import Node JsString AssetVerifier.

(** What the host does with the request of [downloadFile]: an answer with
    its status code and body, an ['error'] event, or nothing at all (no
    timeout is set). *)
Inductive Reply :=
| Answered (statusCode : nat) (body : string)
| Failed
| Silent.

Inductive FetchError :=
| BadStatus (code : nat)
| RequestFailed
| StreamFailed.

(** [downloadFile(url, destination, retries)]: the write stream is opened
    on the destination itself, one request is made, and [retries] is not
    read.  [None]: the promise never settles.  A destination that cannot
    be opened for writing cannot be removed either and is left as it is. *)
Definition downloadFile (answer : nat -> string -> Reply)
    (url destination : string) (retries : nat) (fs : Fs) (n : nat)
  : option (Fs * nat * (FetchError + unit)) :=
  match writeBytes fs destination EmptyString with
  | None => Some (fs, S n, inl StreamFailed)
  | Some created =>
      match answer n url with
      | Answered statusCode body =>
          if negb (statusCode =? 200)%nat then
            Some (unlink created destination, S n, inl (BadStatus statusCode))
          else
            match writeBytes created destination body with
            | Some written => Some (written, S n, inr tt)
            | None => Some (unlink created destination, S n, inl StreamFailed)
            end
      | Failed => Some (unlink created destination, S n, inl RequestFailed)
      | Silent => None
      end
  end.

(** An element of [missingAssets]. *)
Record MissingAsset := mkMissingAsset {
  missingName : string;
  missingHash : string;
  missingPrefix : string
}.

(** [repairMissingAssets(missingAssets)]: the tree, the number of requests
    and the count [repaired]; a download that is rejected is logged. *)
Fixpoint repairMissingAssets (sha1 : string -> string)
    (answer : nat -> string -> Reply) (ASSETS_DIR : string)
    (missingAssets : list MissingAsset) (fs : Fs) (n repaired : nat)
  : option (Fs * nat * nat) :=
  match missingAssets with
  | [] => Some (fs, n, repaired)
  | asset :: rest =>
      let assetUrl :=
        "https://resources.download.minecraft.net/" ++ missingPrefix asset
          ++ "/" ++ missingHash asset in
      let assetPath :=
        Js.pathJoin [ASSETS_DIR; "objects"; missingPrefix asset;
                     missingHash asset] in
      match downloadFile answer assetUrl assetPath 3 fs n with
      | None => None
      | Some (fs1, n1, inl _) =>
          repairMissingAssets sha1 answer ASSETS_DIR rest fs1 n1 repaired
      | Some (fs1, n1, inr _) =>
          match verifyAsset sha1 fs1 assetPath (missingHash asset) with
          | Valid =>
              repairMissingAssets sha1 answer ASSETS_DIR rest fs1 n1 (S repaired)
          | _ => repairMissingAssets sha1 answer ASSETS_DIR rest fs1 n1 repaired
          end
      end
  end.

(** The counters of the loop of [verifyAllAssets]. *)
Record Counts := mkCounts {
  valid : nat;
  invalid : nat;
  missing : nat;
  missingAssets : list MissingAsset
}.

(** The result of [verifyAsset] for one object of the index. *)
Definition check (sha1 : string -> string) (ASSETS_DIR : string) (fs : Fs)
    (entry : string * AssetInfo) : VerifyResult :=
  let hash := AssetVerifier.hash entry.2 in
  let hashPrefix := Js.prefix 2 hash in
  verifyAsset sha1 fs (Js.pathJoin [ASSETS_DIR; "objects"; hashPrefix; hash]) hash.

(** One iteration of the loop. *)
Definition verifyOne (sha1 : string -> string) (ASSETS_DIR : string) (fs : Fs)
    (c : Counts) (entry : string * AssetInfo) : Counts :=
  let hash := AssetVerifier.hash entry.2 in
  match check sha1 ASSETS_DIR fs entry with
  | Valid =>
      {| valid := S (valid c); invalid := invalid c; missing := missing c;
         missingAssets := missingAssets c |}
  | FileNotFound =>
      {| valid := valid c; invalid := invalid c; missing := S (missing c);
         missingAssets :=
           missingAssets c ++
           [{| missingName := entry.1; missingHash := hash;
               missingPrefix := Js.prefix 2 hash |}] |}
  | _ =>
      {| valid := valid c; invalid := S (invalid c); missing := missing c;
         missingAssets := missingAssets c |}
  end.

(** The object [verifyAllAssets] returns on success. *)
Record Verification := mkVerification {
  totalAssets : nat;
  validAssets : nat;
  invalidAssets : nat;
  missingLeft : nat
}.

Inductive VerifyAllResult :=
| Verified (v : Verification)
| VerifyFailed.

(** [verifyAllAssets(assetIndexId)].  [parseIndex] is [JSON.parse] on an
    asset index, [None] where it throws or the document is not an index
    whose objects carry a hash. *)
Definition verifyAllAssets (sha1 : string -> string)
    (answer : nat -> string -> Reply) (u : Utf8)
    (parseIndex : string -> option AssetIndex)
    (ASSETS_DIR assetIndexId : string) (fs : Fs) (n : nat)
  : option (Fs * nat * VerifyAllResult) :=
  let assetIndexPath :=
    Js.pathJoin [ASSETS_DIR; "indexes"; assetIndexId ++ ".json"] in
  if negb (existsSync fs assetIndexPath) then Some (fs, n, VerifyFailed)
  else
    match readFileSync u fs assetIndexPath with
    | None => Some (fs, n, VerifyFailed)
    | Some text =>
        match parseIndex text with
        | None => Some (fs, n, VerifyFailed)
        | Some assetIndex =>
            let c :=
              foldl (verifyOne sha1 ASSETS_DIR fs)
                {| valid := 0; invalid := 0; missing := 0; missingAssets := [] |}
                (objects assetIndex) in
            let repair :=
              if (0 <? missing c)%nat
              then repairMissingAssets sha1 answer ASSETS_DIR (missingAssets c)
                     fs n 0
              else Some (fs, n, 0) in
            match repair with
            | None => None
            | Some (fs1, n1, repaired) =>
                let fs2 :=
                  if virtual assetIndex
                  then (createVirtualAssets ASSETS_DIR fs1 assetIndex).1
                  else fs1 in
                Some (fs2, n1,
                      Verified
                        {| totalAssets := length (objects assetIndex);
                           validAssets := valid c;
                           invalidAssets := invalid c;
                           missingLeft := missing c - repaired |})
            end
        end
    end.

(** How many objects of the index [verifyAsset] puts in a class. *)
Definition countOf (sha1 : string -> string) (ASSETS_DIR : string) (fs : Fs)
    (class : VerifyResult -> bool) (objects : list (string * AssetInfo)) : nat :=
  length (List.filter (fun entry => class (check sha1 ASSETS_DIR fs entry)) objects).

Definition isValid (r : VerifyResult) : bool :=
  match r with Valid => true | _ => false end.
Definition isMissing (r : VerifyResult) : bool :=
  match r with FileNotFound => true | _ => false end.
Definition isInvalid (r : VerifyResult) : bool :=
  negb (isValid r) && negb (isMissing r).

(** An index of three objects, a tree that holds the index and the first
    object, and a host that serves the second object and not the third. *)
Definition repairIndex : AssetIndex :=
  {| virtual := false;
     objects :=
       [("icons/icon.png", {| hash := Sha1.hex "new"; size := 3 |});
        ("lang/en_us.json", {| hash := Sha1.hex "abc"; size := 3 |});
        ("sounds/click.ogg", {| hash := Sha1.hex "ogg"; size := 3 |})] |}.

Definition repairTree : Fs :=
  treeOf
    [("assets/indexes/17.json", "{}");
     (Js.pathJoin ["assets"; "objects"; Js.prefix 2 (Sha1.hex "new");
                   Sha1.hex "new"], "new")].

Definition repairHost (n : nat) (url : string) : Reply :=
  if (n =? 0)%nat then Answered 200 "abc" else Answered 404 "Not Found".

(** The guarded copy the sound loops share:
<<
  if (fs.existsSync(src) && !fs.existsSync(dest)) {
    fs.copyFileSync(src, dest);
    count++;
  }
>>
    with the exception of a failing copy caught by the [try] around it. *)
Definition copyIfMissing (st : Fs * nat) (src dest : string) : Fs * nat :=
  let '(fs, count) := st in
  if existsSync fs src && negb (existsSync fs dest) then
    match copyFileSync fs src dest with
    | Some fs' => (fs', S count)
    | None => (fs, count)
    end
  else (fs, count).

(** What a guarded copy does to the tree: nothing that exists is touched,
    and the count grows by the number of paths that were added. *)
Definition onlyAdds (st st' : Fs * nat) : Prop :=
  readonly st'.1 = readonly st.1 /\
  (forall p, is_Some (entries st.1 !! p) ->
             entries st'.1 !! p = entries st.1 !! p) /\
  base.size (entries st'.1) + st.2 = base.size (entries st.1) + st'.2.

Definition isSound (assetPath : string) : bool :=
  startsWith "minecraft/sounds/" assetPath && endsWith ".ogg" assetPath.

(** One iteration of [linkSoundsFromAssets].  [ASSETS_OBJECTS_DIR] is set
    by [initialize()] only when no launcher instance is passed; with
    [undefined], [path.join] throws and the [catch] logs. *)
Definition linkSound (MINECRAFT_DIR : string) (ASSETS_OBJECTS_DIR : option string)
    (st : Fs * nat) (entry : string * AssetInfo) : Fs * nat :=
  let '(assetName, assetInfo) := entry in
  let resourcesDir := Js.pathJoin [MINECRAFT_DIR; "resources"] in
  if isSound assetName then
    match ASSETS_OBJECTS_DIR with
    | None => st
    | Some objectsDir =>
        let hash := AssetVerifier.hash assetInfo in
        let hashPrefix := Js.prefix 2 hash in
        let srcPath := Js.pathJoin [objectsDir; hashPrefix; hash] in
        let soundRelativePath := substringFrom 10 assetName in
        let destPath := Js.pathJoin [resourcesDir; soundRelativePath] in
        copyIfMissing st srcPath destPath
    end
  else st.

(** [linkSoundsFromAssets(assetIndex, indexId)]: the tree and the returned
    count. *)
Definition linkSoundsFromAssets (MINECRAFT_DIR : string)
    (ASSETS_OBJECTS_DIR : option string) (fs : Fs) (assetIndex : AssetIndex)
  : Fs * nat :=
  foldl (linkSound MINECRAFT_DIR ASSETS_OBJECTS_DIR) (fs, 0) (objects assetIndex).

(** A [const] of a block, before and after its declaration is evaluated;
    reading it before throws a [ReferenceError]. *)
Inductive Binding (A : Type) :=
| Uninitialized
| Initialized (a : A).
Arguments Uninitialized {A}.
Arguments Initialized {A} a.

Definition read {A} (b : Binding A) : option A :=
  match b with
  | Initialized a => Some a
  | Uninitialized => None
  end.

(** One iteration of [createVirtualAssetsForSounds].  The block declares
<<
  const virtualPath = path.join(virtualDir, assetPath);
  const virtualDir = path.dirname(virtualPath);
>>
    so [virtualDir] on the first line is the constant of the second, not
    the one of the function, and is read before its declaration.  An
    exception ends the iteration in the [catch] of the loop. *)
Definition createVirtualSound (MINECRAFT_DIR : string)
    (ASSETS_OBJECTS_DIR : option string)
    (st : Fs * nat) (entry : string * AssetInfo) : Fs * nat :=
  let '(fs, processedSounds) := st in
  let '(assetPath, assetInfo) := entry in
  let resourcesDir := Js.pathJoin [MINECRAFT_DIR; "resources"] in
  if isSound assetPath then
    match ASSETS_OBJECTS_DIR with
    | None => st
    | Some objectsDir =>
        let hash := AssetVerifier.hash assetInfo in
        let hashPrefix := Js.prefix 2 hash in
        let srcPath := Js.pathJoin [objectsDir; hashPrefix; hash] in
        let virtualDir : Binding string := Uninitialized in
        match read virtualDir with
        | None => st
        | Some dir =>
            let virtualPath := Js.pathJoin [dir; assetPath] in
            let copied :=
              if existsSync fs srcPath && negb (existsSync fs virtualPath)
              then copyFileSync fs srcPath virtualPath
              else Some fs in
            match copied with
            | None => st
            | Some fs1 =>
                let resourcePath :=
                  Js.pathJoin [resourcesDir; substringFrom 10 assetPath] in
                copyIfMissing (fs1, processedSounds) srcPath resourcePath
            end
        end
    end
  else st.

(** [createVirtualAssetsForSounds(assetIndex, indexId)]: the tree and the
    returned count. *)
Definition createVirtualAssetsForSounds (MINECRAFT_DIR : string)
    (ASSETS_OBJECTS_DIR : option string) (fs : Fs) (assetIndex : AssetIndex)
  : Fs * nat :=
  foldl (createVirtualSound MINECRAFT_DIR ASSETS_OBJECTS_DIR) (fs, 0)
        (objects assetIndex).

End Verifier.

(** ** launcher.js: the Fabric descriptor ([loadFabricJson], lines 336-361),
       the client jar ([downloadClient], lines 701-724) and a library
       artifact ([downloadMinecraftLibraryArtifact], lines 891-973) *)

Module Acquisition.
Import Node AssetVerifier.

Definition FABRIC_META_URL : string := "https://meta.fabricmc.net/v2/versions".
Definition FABRIC_META_URL_FALLBACK : string :=
  "https://fabricmc.net/meta/v2/versions".

Inductive LoadError :=
| GetFailed (e : Http.GetError)
| NothingToWrite
| WriteFailed (path : string)
| ReadFailed (path : string)
| ParseFailed.

(** [loadFabricJson(minecraftVersion, fabricVersion)]: the tree, the number
    of requests made so far, and the descriptor or the exception.  The text
    of the answer is written to the cache before it is parsed;
    [writeFileSync] throws on [undefined]. *)
Definition loadFabricJson (env : Utils.Env) (u : Utf8) (J : Json)
    (VERSIONS_DIR minecraftVersion fabricVersion : string) (fs : Fs) (n : nat)
  : Fs * nat * (LoadError + Descriptor) :=
  let jsonPath := fabricJsonPathOf VERSIONS_DIR minecraftVersion fabricVersion in
  if existsSync fs jsonPath then
    match readFileSync u fs jsonPath with
    | None => (fs, n, inl (ReadFailed jsonPath))
    | Some text =>
        match parse J text with
        | Some d => (fs, n, inr d)
        | None => (fs, n, inl ParseFailed)
        end
    end
  else
    let fabricMetaUrl :=
      FABRIC_META_URL ++ "/loader/" ++ minecraftVersion ++ "/"
        ++ fabricVersion ++ "/profile/json" in
    let fabricMetaUrlFallback :=
      FABRIC_META_URL_FALLBACK ++ "/loader/" ++ minecraftVersion ++ "/"
        ++ fabricVersion ++ "/profile/json" in
    match Http.httpGet env fabricMetaUrl (Some fabricMetaUrlFallback) 3 n with
    | (n1, inl e) => (fs, n1, inl (GetFailed e))
    | (n1, inr None) => (fs, n1, inl NothingToWrite)
    | (n1, inr (Some fabricJson)) =>
        match writeFileSync u fs jsonPath fabricJson with
        | None => (fs, n1, inl (WriteFailed jsonPath))
        | Some fs1 =>
            match parse J fabricJson with
            | Some d => (fs1, n1, inr d)
            | None => (fs1, n1, inl ParseFailed)
            end
        end
    end.

(** A host whose Fabric endpoint answers with a page that is no JSON. *)
Definition brokenHost : Utils.Env :=
  {| Utils.sha1 := Sha1.hex;
     Utils.respond := fun _ _ => Utils.Success "<html>Bad gateway</html>";
     Utils.stamp := fun _ => "1700000000000-42" |}.

(** A stand-in for [JSON.parse] on such a page. *)
Definition strictJson : Json :=
  {| parse := fun text =>
       if JsString.startsWith "<" text then None else parse sampleJson text;
     stringify := stringify sampleJson |}.

(** [downloadClient(versionJson)]: [true] is [{ success: true }], [false]
    the result of the [catch]; [None] when the download never settles.
    [url] and [sha1] are [downloads.client.url] and [downloads.client.sha1],
    [id] is [versionJson.id]. *)
Definition downloadClient (env : Utils.Env) (depth : nat)
    (VERSIONS_DIR id url sha1 : string) (w : Utils.World)
  : option (Utils.World * bool) :=
  let clientJarPath := Js.pathJoin [VERSIONS_DIR; id; id ++ ".jar"] in
  let cached :=
    if existsSync (Utils.fs w) clientJarPath
    then Utils.verifyHash (Utils.sha1 env) (Utils.fs w) clientJarPath sha1
    else Some false in
  match cached with
  | None => Some (w, false)
  | Some true => Some (w, true)
  | Some false =>
      match Launcher.downloadFile env depth url clientJarPath (Some sha1) w with
      | None => None
      | Some (w', inl _) => Some (w', false)
      | Some (w', inr _) => Some (w', true)
      end
  end.

(** *** The progress counter *)

(** [downloadFile] of the launcher together with the number of times it
    executes [this.downloadProgress.completed++]: once when the file is
    already valid, once when the downloaded file has been renamed into
    place. *)
Definition requestOnceCounting (env : Utils.Env)
    (redirect : string -> Utils.World
                -> option (Utils.World * Utils.Outcome * nat))
    (url destination tempFile : string) (w : Utils.World)
  : option (Utils.World * (Utils.DownloadError + unit) * nat) :=
  let response := Utils.respond env (Utils.requests w) url in
  let w := {| Utils.fs := Utils.fs w;
              Utils.requests := S (Utils.requests w);
              Utils.calls := Utils.calls w |} in
  match writeBytes (Utils.fs w) tempFile EmptyString with
  | None =>
      Some (Utils.withFs w (unlink (Utils.fs w) tempFile),
            inl (Utils.FileError tempFile), 0)
  | Some created =>
      match response with
      | Utils.Redirect location =>
          match redirect location (Utils.withFs w (unlink created tempFile)) with
          | Some (w', inl e, k) => Some (w', inl e, k)
          | Some (w', inr _, k) => Some (w', inr tt, k)
          | None => None
          end
      | Utils.Success body =>
          match writeBytes created tempFile body with
          | None =>
              Some (Utils.withFs w (unlink created tempFile),
                    inl (Utils.FileError tempFile), 0)
          | Some written =>
              match rename written tempFile destination with
              | Some moved => Some (Utils.withFs w moved, inr tt, 1)
              | None => Some (Utils.withFs w written,
                              inl (Utils.FileError destination), 0)
              end
          end
      | Utils.Status code =>
          Some (Utils.withFs w (unlink created tempFile),
                inl (Utils.HttpStatus code), 0)
      | Utils.RequestError =>
          Some (Utils.withFs w (unlink created tempFile),
                inl Utils.RequestFailed, 0)
      | Utils.NoAnswer => None
      end
  end.

Fixpoint downloadFileCounting (env : Utils.Env) (depth : nat)
    (url destination : string) (expectedHash : option string)
    (w : Utils.World) {struct depth}
  : option (Utils.World * Utils.Outcome * nat) :=
  let tempFile := destination ++ ".tmp" in
  match Utils.alreadyValid env destination expectedHash w with
  | inl e => Some (w, inl e, 0)
  | inr true => Some (w, inr (Utils.Skipped destination), 1)
  | inr false =>
      match depth with
      | O => None
      | S depth' =>
          match requestOnceCounting env
                  (fun location => downloadFileCounting env depth' location
                                     destination expectedHash)
                  url destination tempFile w with
          | None => None
          | Some (w1, inl e, k) => Some (w1, inl e, k)
          | Some (w1, inr _, k) =>
              match Utils.verifyDownloaded env destination expectedHash w1 with
              | inl e => Some (w1, inl e, k)
              | inr _ => Some (w1, inr (Utils.Downloaded destination), k)
              end
          end
      end
  end.

(** [library.downloads.artifact] *)
Record Artifact := mkArtifact {
  artifactPath : option string;
  artifactUrl : option string;
  artifactSha1 : option string
}.

(** A library of the Minecraft descriptor, as far as
    [downloadMinecraftLibraryArtifact] reads it. *)
Record LibraryEntry := mkLibraryEntry {
  libraryName : option string;
  artifact : option Artifact
}.

(** What the launcher keeps between libraries: the file tree and the
    request counters, [this.downloadedLibraries], the counter
    [this.downloadProgress.completed] and the two result arrays. *)
Record Session := mkSession {
  world : Utils.World;
  downloadedLibraries : gset string;
  completed : nat;
  downloadedLibs : list string;
  failedLibs : list string
}.

(** How a call for one library ends. *)
Inductive LibraryOutcome :=
| NotAttempted
| AlreadyDownloaded
| Cached
| Fetched
| Failed.

Definition truthyOption (s : option string) : option string :=
  match s with
  | Some x => if Js.truthy x then Some x else None
  | None => None
  end.

(** "Determine the library path - either from the artifact path or
    generate from name"; [None] for the two branches that give up. *)
Definition libPathOf (library : LibraryEntry) (a : Artifact) : option string :=
  match truthyOption (artifactPath a) with
  | Some p => Some p
  | None =>
      match truthyOption (libraryName library) with
      | Some name => Maven.libraryPath name
      | None => None
      end
  end.

Definition counted (s : Session) (k : nat) (o : LibraryOutcome)
  : Session * LibraryOutcome :=
  ({| world := world s; downloadedLibraries := downloadedLibraries s;
      completed := completed s + k; downloadedLibs := downloadedLibs s;
      failedLibs := failedLibs s |}, o).

Definition recorded (s : Session) (w : Utils.World) (libraryId libPath : string)
    (k : nat) (o : LibraryOutcome) : Session * LibraryOutcome :=
  ({| world := w; downloadedLibraries := {[libraryId]} ∪ downloadedLibraries s;
      completed := completed s + k;
      downloadedLibs := downloadedLibs s ++ [libPath];
      failedLibs := failedLibs s |}, o).

Definition failed (s : Session) (w : Utils.World) (library : LibraryEntry)
    (k : nat) : Session * LibraryOutcome :=
  ({| world := w; downloadedLibraries := downloadedLibraries s;
      completed := completed s + k; downloadedLibs := downloadedLibs s;
      failedLibs :=
        failedLibs s ++ [default "unknown" (truthyOption (libraryName library))] |},
   Failed).

(** [downloadMinecraftLibraryArtifact(library, downloadedLibs, failedLibs)];
    [None] when the download never settles. *)
Definition downloadMinecraftLibraryArtifact (env : Utils.Env) (depth : nat)
    (LIBRARIES_DIR : string) (library : LibraryEntry) (s : Session)
  : option (Session * LibraryOutcome) :=
  match artifact library with
  | None => Some (counted s 1 NotAttempted)
  | Some a =>
      match truthyOption (artifactUrl a) with
      | None => Some (counted s 1 NotAttempted)
      | Some url =>
          match libPathOf library a with
          | None => Some (counted s 1 NotAttempted)
          | Some libPath =>
              let libraryId :=
                default libPath (truthyOption (libraryName library)) in
              if bool_decide (libraryId ∈ downloadedLibraries s)
              then Some (counted s 1 AlreadyDownloaded)
              else
                let libraryPath := Js.pathJoin [LIBRARIES_DIR; libPath] in
                let w := world s in
                let cached :=
                  match truthyOption (artifactSha1 a) with
                  | Some sha1 =>
                      if existsSync (Utils.fs w) libraryPath
                      then Utils.verifyHash (Utils.sha1 env) (Utils.fs w)
                             libraryPath sha1
                      else Some false
                  | None => Some false
                  end in
                match cached with
                | None => Some (failed s w library 1)
                | Some true => Some (recorded s w libraryId libPath 1 Cached)
                | Some false =>
                    match downloadFileCounting env depth url libraryPath
                            (artifactSha1 a) w with
                    | None => None
                    | Some (w', inl _, k) => Some (failed s w' library (k + 1))
                    | Some (w', inr _, k) =>
                        Some (recorded s w' libraryId libPath (k + 1) Fetched)
                    end
                end
          end
      end
  end.

(** A library of a descriptor and a session in which nothing was
    downloaded yet. *)
Definition sampleLibrary : LibraryEntry :=
  {| libraryName := Some "com.example:foo:1.0";
     artifact :=
       Some {| artifactPath := Some "com/example/foo/1.0/foo-1.0.jar";
               artifactUrl := Some "https://libraries.example/foo-1.0.jar";
               artifactSha1 := Some (Sha1.hex "jar") |} |}.

Definition freshSession : Session :=
  {| world := Utils.emptyWorld; downloadedLibraries := ∅; completed := 0;
     downloadedLibs := []; failedLibs := [] |}.

End Acquisition.

(** ** update-checker.js: [isNewerVersion] (lines 123-140) *)

Module UpdateChecker.
Import PrimFloat.

(** [x || 0] on a number: [NaN], [0] and [-0] are falsy. *)
Definition orZero (x : float) : float :=
  if PrimFloat.eqb x 0%float || PrimFloat.is_nan x then 0%float else x.

(** [parts[i] || 0]; past the end of the array [parts[i]] is
    [undefined]. *)
Definition part (parts : list float) (i : nat) : float :=
  match parts !! i with
  | Some x => orZero x
  | None => 0%float
  end.

(** The [for] loop from index [i], with [steps] iterations to go.
    [a > b] on numbers is [b < a]. *)
Fixpoint compareFrom (newParts currentParts : list float) (i steps : nat)
  : bool :=
  match steps with
  | O => false
  | S steps' =>
      let newPart := part newParts i in
      let currentPart := part currentParts i in
      if PrimFloat.ltb currentPart newPart then true
      else if PrimFloat.ltb newPart currentPart then false
      else compareFrom newParts currentParts (S i) steps'
  end.

(** [isNewerVersion(newVersion, currentVersion)]; [Number] is the
    conversion of a string to a number. *)
Definition isNewerVersion (Number : string -> float)
    (newVersion currentVersion : string) : bool :=
  let newParts := List.map Number (Js.split "." newVersion) in
  let currentParts := List.map Number (Js.split "." currentVersion) in
  compareFrom newParts currentParts 0
    (Nat.max (length newParts) (length currentParts)).

(** [Number] on a string of decimal digits and on the empty string; [NaN]
    stands for every other string, where [Number] also reads signs, a
    decimal point, exponents and other bases. *)
Fixpoint digits (acc : Z) (s : string) : option Z :=
  match s with
  | EmptyString => Some acc
  | String c rest =>
      let d := (Z.of_nat (nat_of_ascii c) - 48)%Z in
      if ((0 <=? d) && (d <=? 9))%Z then digits (10 * acc + d)%Z rest else None
  end.

Definition decimalNumber (s : string) : float :=
  match digits 0 s with
  | Some z => Launcher.ofZ z
  | None => PrimFloat.nan
  end.

End UpdateChecker.

(** ** Properties of the conflict resolver *)

Module AssetVerifierFacts.
Import AssetVerifier.

Lemma setLib_lookup m lib k :
  setLib m lib !! k =
  if decide (baseNameOf lib = Some k) then Some lib else m !! k.
Proof.
  unfold setLib. destruct (baseNameOf lib) as [k'|] eqn:E.
  - destruct (decide (Some k' = Some k)) as [e|n].
    + inversion e; subst. apply lookup_insert_eq.
    + apply lookup_insert_ne. congruence.
  - destruct (decide (None = Some k)); [discriminate|done].
Qed.

Lemma foldl_setLib_lookup libs : forall m k,
  foldl setLib m libs !! k =
  match lastWithKey k libs with
  | Some lib => Some lib
  | None => m !! k
  end.
Proof.
  induction libs as [|lib rest IH]; intros m k; simpl; [done|].
  rewrite IH. destruct (lastWithKey k rest); [done|].
  rewrite setLib_lookup. by destruct (decide (baseNameOf lib = Some k)).
Qed.

Lemma buildLibMap_lookup libs k :
  buildLibMap libs !! k = lastWithKey k libs.
Proof.
  unfold buildLibMap. rewrite foldl_setLib_lookup.
  destruct (lastWithKey k libs); [done|apply lookup_empty].
Qed.

Lemma lastWithKey_Some k libs lib :
  lastWithKey k libs = Some lib -> lib ∈ libs /\ baseNameOf lib = Some k.
Proof.
  induction libs as [|x rest IH]; simpl; [discriminate|].
  destruct (lastWithKey k rest) as [later|].
  - intros [= <-]. destruct IH as [? ?]; [done|]. split; [by right|done].
  - destruct (decide (baseNameOf x = Some k)); [|discriminate].
    intros [= <-]. split; [by left|done].
Qed.

(** Filtering by a predicate that keeps every library of key [k] does not
    change which library is the last one of that key. *)
Lemma lastWithKey_filter_keep k (P : Library -> bool) libs :
  (forall lib, baseNameOf lib = Some k -> P lib = true) ->
  lastWithKey k (List.filter P libs) = lastWithKey k libs.
Proof.
  intros HP. induction libs as [|x rest IH]; simpl; [done|].
  destruct (P x) eqn:Px; simpl; rewrite IH; [done|].
  destruct (lastWithKey k rest); [done|].
  destruct (decide (baseNameOf x = Some k)) as [e|]; [|done].
  rewrite (HP _ e) in Px. discriminate.
Qed.

(** In a list whose keys are pairwise distinct, the key identifies the
    library. *)
Lemma lastWithKey_unique k libs lib :
  NoDup (keysOf libs) -> lib ∈ libs -> baseNameOf lib = Some k ->
  lastWithKey k libs = Some lib.
Proof.
  unfold keysOf. induction libs as [|x rest IH]; simpl; intros ND Hin Hk.
  - by apply elem_of_nil in Hin.
  - destruct (baseNameOf x) as [kx|] eqn:Ex.
    + apply NoDup_cons in ND as [Hnotin ND].
      apply elem_of_cons in Hin as [->|Hin].
      * assert (kx = k) as -> by congruence.
        destruct (lastWithKey k rest) as [later|] eqn:El.
        { apply lastWithKey_Some in El as [Hl1 Hl2].
          exfalso. apply Hnotin. apply list_elem_of_omap. eauto. }
        rewrite decide_True; done.
      * by rewrite (IH ND Hin Hk).
    + apply elem_of_cons in Hin as [->|Hin]; [congruence|].
      by rewrite (IH ND Hin Hk).
Qed.

Lemma filter_filter_and {A} (P Q : A -> bool) l :
  List.filter Q (List.filter P l) = List.filter (fun x => P x && Q x) l.
Proof.
  induction l as [|x l IH]; simpl; [done|].
  destruct (P x); simpl; [destruct (Q x)|]; by rewrite ?IH.
Qed.

Lemma filter_true {A} (l : list A) : List.filter (fun _ => true) l = l.
Proof. induction l; simpl; congruence. Qed.

Lemma foldl_dropConflict_libraries cs : forall d,
  librariesOf (foldl dropConflict d cs) =
  List.filter (keepAll cs) (librariesOf d).
Proof.
  induction cs as [|c cs IH]; intros d; simpl.
  - symmetry. apply filter_true.
  - rewrite IH. unfold dropConflict at 1, librariesOf at 1. simpl.
    rewrite filter_filter_and. done.
Qed.

Lemma foldl_dropConflict_shape c cs d :
  foldl dropConflict d (c :: cs) =
  {| libraries := Some (List.filter (keepAll (c :: cs)) (librariesOf d));
     assetIndex := assetIndex d;
     others := others d |}.
Proof.
  revert c d. induction cs as [|c' cs IH]; intros c d.
  - simpl. unfold dropConflict. f_equal. f_equal.
    apply filter_ext. intros x. unfold keepAll. simpl.
    by rewrite andb_true_r.
  - change (foldl dropConflict d (c :: c' :: cs))
      with (foldl dropConflict (dropConflict d c) (c' :: cs)).
    rewrite IH. unfold dropConflict, librariesOf. simpl.
    rewrite filter_filter_and. done.
Qed.

Lemma keepAll_key cs lib k :
  baseNameOf lib = Some k ->
  keepAll cs lib = true <-> k ∉ baseName <$> cs.
Proof.
  intros Hk. unfold keepAll. rewrite forallb_forall. split.
  - intros H (c & -> & Hc)%list_elem_of_fmap.
    apply list_elem_of_In, H in Hc. unfold keepLibrary in Hc.
    rewrite Hk, String.eqb_refl in Hc. discriminate.
  - intros H c Hc%list_elem_of_In. unfold keepLibrary. rewrite Hk.
    destruct (String.eqb_spec k (baseName c)) as [->|Hne]; [|done].
    exfalso. apply H. by apply list_elem_of_fmap_2.
Qed.

Lemma keepAll_nokey cs lib :
  baseNameOf lib = None -> keepAll cs lib = true.
Proof.
  intros Hk. induction cs as [|c cs IH]; simpl; [done|].
  rewrite IH. unfold keepLibrary. by rewrite Hk.
Qed.

Lemma baseNameOf_name lib lib' :
  name lib = name lib' -> baseNameOf lib = baseNameOf lib'.
Proof. unfold baseNameOf. by intros ->. Qed.

(** Membership in the result of detection, for any two descriptors: an
    overlay library is compared with the last base library of its key. *)
Lemma identify_elem mc fab c :
  c ∈ identifyLibraryConflicts mc fab <->
  exists o b, o ∈ librariesOf fab /\ baseNameOf o = Some (baseName c) /\
              lastWithKey (baseName c) (librariesOf mc) = Some b /\
              name b <> name o /\
              minecraft c = name b /\ fabric c = name o.
Proof.
  unfold identifyLibraryConflicts. rewrite list_elem_of_omap. split.
  - intros (o & Ho & Hc). unfold conflictFor in Hc.
    destruct (baseNameOf o) as [k|] eqn:Ek; [|discriminate].
    rewrite buildLibMap_lookup in Hc.
    destruct (lastWithKey k (librariesOf mc)) as [b|] eqn:El; [|discriminate].
    destruct (decide (name b = name o)); [discriminate|].
    injection Hc as <-. simpl. by exists o, b.
  - intros (o & b & Ho & Hk & Hl & Hne & Hm & Hf). exists o. split; [done|].
    unfold conflictFor. rewrite Hk, buildLibMap_lookup, Hl.
    rewrite decide_False by done. destruct c; simpl in *. by subst.
Qed.

Lemma conflictingPair_Some b o c :
  conflictingPair b o = Some c <->
  baseNameOf b = Some (baseName c) /\ baseNameOf o = Some (baseName c) /\
  name b <> name o /\ minecraft c = name b /\ fabric c = name o.
Proof.
  unfold conflictingPair.
  destruct (baseNameOf b) as [kb|], (baseNameOf o) as [ko|];
    try (split; [discriminate|intros (? & ? & _); congruence]).
  destruct (String.eqb_spec kb ko) as [->|Hne]; simpl.
  - destruct (bool_decide_reflect (name b = name o)) as [e|n]; simpl.
    + split; [discriminate|]. by intros (_ & _ & ? & _).
    + split.
      * intros [= <-]. by simpl.
      * intros (Hk & _ & _ & Hm & Hf). destruct c; simpl in *. congruence.
  - split; [discriminate|]. intros (? & ? & _). congruence.
Qed.

Lemma omap_pair_none k o (libs : list Library) :
  (forall b, b ∈ libs -> baseNameOf b <> Some k) ->
  baseNameOf o = Some k ->
  omap (fun b => conflictingPair b o) libs = [].
Proof.
  intros Hno Ho. apply elem_of_nil_inv. intros c.
  rewrite list_elem_of_omap. intros (b & Hb & Hc).
  apply conflictingPair_Some in Hc as (Hkb & Hko & _).
  apply (Hno b Hb). congruence.
Qed.

(** With pairwise distinct keys in the base list, the one comparison made
    for an overlay library finds every conflicting pair it is part of. *)
Lemma pairs_of_unique_keys base o :
  NoDup (keysOf base) ->
  omap (fun b => conflictingPair b o) base =
  option_list (conflictFor (buildLibMap base) o).
Proof.
  intros ND. unfold conflictFor.
  destruct (baseNameOf o) as [k|] eqn:Ek.
  2:{ apply elem_of_nil_inv. intros c. rewrite list_elem_of_omap.
      intros (b & _ & Hc).
      apply conflictingPair_Some in Hc as (_ & Hko & _). congruence. }
  rewrite buildLibMap_lookup.
  induction base as [|x rest IH]; [done|].
  unfold keysOf in ND. cbn [omap list_omap] in ND.
  change (omap (fun b => conflictingPair b o) (x :: rest))
    with (match conflictingPair x o with
          | Some c => c :: omap (fun b => conflictingPair b o) rest
          | None => omap (fun b => conflictingPair b o) rest
          end).
  cbn [lastWithKey].
  destruct (baseNameOf x) as [kx|] eqn:Ex.
  - apply NoDup_cons in ND as [Hnotin ND].
    destruct (decide (Some kx = Some k)) as [e|n].
    + injection e as ->.
      assert (Hrest : forall b, b ∈ rest -> baseNameOf b <> Some k).
      { intros b Hb Hkb. apply Hnotin. apply list_elem_of_omap. eauto. }
      rewrite (omap_pair_none k o rest Hrest Ek).
      destruct (lastWithKey k rest) as [later|] eqn:El.
      { apply lastWithKey_Some in El as [? ?]. naive_solver. }
      unfold conflictingPair. rewrite Ex, Ek, String.eqb_refl. simpl.
      destruct (decide (name x = name o)) as [e|n].
      * by rewrite bool_decide_eq_true_2.
      * by rewrite bool_decide_eq_false_2.
    + assert (conflictingPair x o = None) as ->.
      { unfold conflictingPair. rewrite Ex, Ek.
        destruct (String.eqb_spec kx k); [congruence|done]. }
      rewrite (IH ND). by destruct (lastWithKey k rest).
  - assert (conflictingPair x o = None) as ->.
    { unfold conflictingPair. by rewrite Ex. }
    rewrite (IH ND). destruct (lastWithKey k rest); [done|].
    by rewrite decide_False.
Qed.

Lemma identify_unique_keys mc fab :
  NoDup (keysOf (librariesOf mc)) ->
  identifyLibraryConflicts mc fab =
  conflictPairs (librariesOf mc) (librariesOf fab).
Proof.
  intros ND. unfold identifyLibraryConflicts, conflictPairs.
  induction (librariesOf fab) as [|o os IH]; [done|].
  cbn [flat_map]. rewrite (pairs_of_unique_keys _ o ND), <- IH.
  cbn [omap list_omap]. by destruct (conflictFor _ o).
Qed.

Lemma inConflict_true overlay b :
  inConflict overlay b = true <->
  exists o, o ∈ overlay /\ baseNameOf b = baseNameOf o /\
            is_Some (baseNameOf b) /\ name b <> name o.
Proof.
  unfold inConflict. rewrite existsb_exists. split.
  - intros (o & Ho%list_elem_of_In & [c Hc]%bool_decide_eq_true).
    apply conflictingPair_Some in Hc as (Hb & Hk & Hne & _).
    exists o. rewrite Hb, Hk. eauto.
  - intros (o & Ho & Hk & [k Hb] & Hne). exists o.
    split; [by apply list_elem_of_In|]. apply bool_decide_eq_true.
    exists {| baseName := k; minecraft := name b; fabric := name o |}.
    apply conflictingPair_Some. simpl. rewrite <- Hk. done.
Qed.

Lemma keepAll_unique_keys mc fab b :
  NoDup (keysOf (librariesOf mc)) -> b ∈ librariesOf mc ->
  keepAll (identifyLibraryConflicts mc fab) b =
  negb (inConflict (librariesOf fab) b).
Proof.
  intros ND Hb. destruct (baseNameOf b) as [k|] eqn:Ek.
  - destruct (inConflict (librariesOf fab) b) eqn:Ec; simpl.
    + apply inConflict_true in Ec as (o & Ho & Hk & _ & Hne).
      apply not_true_is_false. rewrite (keepAll_key _ _ _ Ek).
      intros Hnot. apply Hnot. apply list_elem_of_fmap.
      exists {| baseName := k; minecraft := name b; fabric := name o |}.
      split; [done|]. apply identify_elem. exists o, b. simpl.
      rewrite (lastWithKey_unique k _ b ND Hb Ek). split_and!; congruence.
    + apply (keepAll_key _ _ _ Ek).
      intros (c & -> & Hc)%list_elem_of_fmap.
      apply identify_elem in Hc as (o & b' & Ho & Hk & Hl & Hne & _).
      rewrite (lastWithKey_unique _ _ b ND Hb Ek) in Hl. injection Hl as <-.
      apply not_true_iff_false in Ec. apply Ec. apply inConflict_true.
      exists o. split_and!; [done|congruence|by eexists|done].
  - rewrite (keepAll_nokey _ _ Ek). symmetry. apply negb_true_iff.
    apply not_true_is_false. rewrite inConflict_true.
    intros (o & _ & _ & [k Hk] & _). congruence.
Qed.

(** A second detection pass over the resolved base finds nothing. *)
Lemma identify_after_resolve mc fab :
  identifyLibraryConflicts
    (foldl dropConflict mc (identifyLibraryConflicts mc fab)) fab = [].
Proof.
  apply elem_of_nil_inv. intros c Hc.
  apply identify_elem in Hc as (o & b & Ho & Hk & Hl & Hne & _).
  rewrite foldl_dropConflict_libraries in Hl.
  pose proof (lastWithKey_Some _ _ _ Hl) as [Hin Hkb].
  apply list_elem_of_In, filter_In in Hin as [_ Hkeep].
  pose proof (proj1 (keepAll_key _ _ _ Hkb) Hkeep) as Hnot.
  rewrite lastWithKey_filter_keep in Hl.
  2:{ intros lib Hlib. by apply (keepAll_key _ _ _ Hlib). }
  apply Hnot. apply list_elem_of_fmap.
  exists {| baseName := baseName c; minecraft := name b; fabric := name o |}.
  split; [done|]. apply identify_elem. by exists o, b.
Qed.

Lemma resolve_twice mc cs :
  foldl dropConflict (foldl dropConflict mc cs) cs = foldl dropConflict mc cs.
Proof.
  destruct cs as [|c cs]; [done|].
  rewrite !foldl_dropConflict_shape. unfold librariesOf. simpl.
  rewrite filter_filter_and. do 2 f_equal.
  apply filter_ext. intros x. by destruct (keepAll (c :: cs) x).
Qed.




(** C5, as stated, fails for a name of exactly two segments: the guard is
    [nameParts.length >= 2], so ["bad:coord"] has a key, is reported against
    the overlay's ["bad:coord:1.0"] and is removed from the base list. *)
Lemma two_segment_name_counterexample :
  let base := descriptor [lib "bad:coord"] in
  let overlay := descriptor [lib "bad:coord:1.0"] in
  length (Js.split ":" "bad:coord") < 3 /\
  identifyLibraryConflicts base overlay =
    [ {| baseName := "bad:coord";
         minecraft := Some "bad:coord";
         fabric := Some "bad:coord:1.0" |} ] /\
  librariesOf (resolveLibraryConflicts base overlay
                 (identifyLibraryConflicts base overlay)).1 = [].
Proof.
  cbv zeta. split; [simpl; lia|]. split; vm_compute; reflexivity.
Qed.

(** C5 (amended): a base library without a name, or whose name has fewer
    than two colon-separated segments, is never the base side of a reported
    conflict, and resolution keeps it in the base list whatever conflicts it
    is given. *)
Theorem short_name_never_conflicts (mc fab : Descriptor) (l : Library)
    (Hin : l ∈ librariesOf mc)
    (Hshort : match name l with
              | Some n => length (Js.split ":" n) < 2
              | None => True
              end) :
  (forall c, c ∈ identifyLibraryConflicts mc fab -> minecraft c <> name l) /\
  (forall cs, l ∈ librariesOf (resolveLibraryConflicts mc fab cs).1) /\
  (forall cs, List.filter (fun x => bool_decide (x = l))
                (librariesOf (resolveLibraryConflicts mc fab cs).1) =
              List.filter (fun x => bool_decide (x = l)) (librariesOf mc)).
Proof.
  assert (Hk : baseNameOf l = None).
  { unfold baseNameOf. destruct (name l) as [n|]; [|done].
    destruct (Js.truthy n); [|done].
    destruct (Js.split ":" n) as [|p0 [|p1 ps]]; simpl in Hshort; [done|done|lia]. }
  split_and!.
  - intros c (o & b & _ & _ & Hl & _ & Hm & _)%identify_elem Heq.
    apply lastWithKey_Some in Hl as [_ Hb].
    rewrite (baseNameOf_name b l) in Hb by congruence. congruence.
  - intros cs. unfold resolveLibraryConflicts. cbn [fst].
    rewrite foldl_dropConflict_libraries.
    apply list_elem_of_In, filter_In. split; [by apply list_elem_of_In|].
    by apply keepAll_nokey.
  - intros cs. unfold resolveLibraryConflicts. cbn [fst].
    rewrite foldl_dropConflict_libraries, filter_filter_and.
    apply filter_ext. intros x.
    destruct (bool_decide_reflect (x = l)) as [->|]; [|by rewrite andb_false_r].
    by rewrite keepAll_nokey.
Qed.

Lemma short_name_never_conflicts_witness :
  let mc := descriptor [lib "standalone"; lib "com.example:foo:1.0"] in
  let fab := descriptor [lib "standalone:extra:1"; lib "com.example:foo:2.0"] in
  (forall c, c ∈ identifyLibraryConflicts mc fab ->
             minecraft c <> Some "standalone") /\
  lib "standalone" ∈
    librariesOf (resolveLibraryConflicts mc fab
                   (identifyLibraryConflicts mc fab)).1.
Proof.
  cbv zeta.
  pose proof (short_name_never_conflicts
    (descriptor [lib "standalone"; lib "com.example:foo:1.0"])
    (descriptor [lib "standalone:extra:1"; lib "com.example:foo:2.0"])
    (lib "standalone")) as H.
  destruct H as (H1 & H2 & _).
  - simpl. by left.
  - simpl. lia.
  - split; [exact H1|apply H2].
Defined.

End AssetVerifierFacts.

(** ** Properties of the file tree *)

Module NodeFacts.
Import Node.

Lemma append_cons (c : ascii) (s t : string) :
  String c s ++ t = String c (s ++ t).
Proof. reflexivity. Qed.

Lemma append_nil_r (s : string) : s ++ EmptyString = s.
Proof.
  induction s as [|c s IH]; [reflexivity|]. by rewrite append_cons, IH.
Qed.

Lemma append_assoc (a b c : string) : (a ++ b) ++ c = a ++ b ++ c.
Proof.
  induction a as [|x a IH]; [reflexivity|]. by rewrite !append_cons, IH.
Qed.

Lemma writeBytes_Some fs p bytes fs' :
  writeBytes fs p bytes = Some fs' ->
  fs' = {| entries := <[p := File bytes]> (entries fs);
           readonly := readonly fs |} /\
  (p ∉ readonly fs) /\ (entries fs !! p) <> Some Directory.
Proof.
  unfold writeBytes. destruct (bool_decide_reflect (p ∈ readonly fs)); [done|].
  destruct (entries fs !! p) as [[b|]|] eqn:E; intros [= <-]; done.
Qed.

Lemma writeBytes_writable fs p bytes :
  p ∉ readonly fs -> entries fs !! p <> Some Directory ->
  writeBytes fs p bytes =
  Some {| entries := <[p := File bytes]> (entries fs);
          readonly := readonly fs |}.
Proof.
  intros Hro Hdir. unfold writeBytes. rewrite bool_decide_eq_false_2 by done.
  by destruct (entries fs !! p) as [[b|]|].
Qed.

Lemma readBytes_Some fs p bytes :
  readBytes fs p = Some bytes <-> entries fs !! p = Some (File bytes).
Proof.
  unfold readBytes. destruct (entries fs !! p) as [[b|]|]; naive_solver.
Qed.

Lemma existsSync_true fs p :
  existsSync fs p = true <-> is_Some (entries fs !! p).
Proof. unfold existsSync. apply bool_decide_eq_true. Qed.

Lemma readBytes_exists fs p bytes :
  readBytes fs p = Some bytes -> existsSync fs p = true.
Proof. intros H%readBytes_Some. apply existsSync_true. by rewrite H. Qed.

(** The chunks of a stream, hashed one after the other, hash the bytes of
    the file. *)
Lemma foldl_update_chunks size s : forall current room h,
  foldl update h (chunksFrom size current room s) = h ++ current ++ s.
Proof.
  unfold update.
  induction s as [|c s IH]; intros current room h; cbn [chunksFrom].
  - destruct current; cbn [foldl]; by rewrite ?append_nil_r.
  - destruct room; cbn [foldl]; rewrite IH.
    + by rewrite append_assoc.
    + by rewrite !append_assoc.
Qed.

Lemma stream_digest sha1 fs p chunks :
  createReadStream fs p = Some chunks ->
  exists bytes, readBytes fs p = Some bytes /\
                digestHex sha1 (foldl update createHash chunks) = sha1 bytes.
Proof.
  unfold createReadStream. destruct (readBytes fs p) as [bytes|]; [|done].
  intros [= <-]. exists bytes. split; [done|].
  unfold digestHex, createHash. by rewrite foldl_update_chunks.
Qed.

End NodeFacts.

(** ** Backup and restore of the descriptor files *)

Module RestoreFacts.
Import Node AssetVerifier NodeFacts.

Lemma restoreEach_readonly u m : forall fs acc,
  readonly (restoreEach u fs m acc).1 = readonly fs.
Proof.
  induction m as [|[p c] m IH]; intros fs acc; simpl; [done|].
  unfold writeFileSync.
  destruct (writeBytes fs p (encode u c)) as [fs'|] eqn:E; rewrite IH; [|done].
  apply writeBytes_Some in E as (-> & _). done.
Qed.

(** The paths reported as restored are paths of the map that were
    writable. *)
Lemma restoreEach_restored u m : forall fs acc p,
  p ∈ (restoreEach u fs m acc).2 ->
  p ∈ acc \/ ((p ∉ readonly fs) /\ exists c, (p, c) ∈ m).
Proof.
  induction m as [|[q c] m IH]; intros fs acc p; simpl; [by left|].
  unfold writeFileSync.
  destruct (writeBytes fs q (encode u c)) as [fs'|] eqn:E; intros Hp.
  - apply IH in Hp as [Hp|(Hro & c' & Hc')].
    + apply elem_of_app in Hp as [Hp|Hp]; [by left|].
      apply list_elem_of_singleton in Hp as ->. right.
      apply writeBytes_Some in E as (_ & Hro & _).
      split; [done|]. exists c. by left.
    + right. apply writeBytes_Some in E as (-> & _). simpl in Hro.
      split; [done|]. exists c'. by right.
  - apply IH in Hp as [Hp|(Hro & c' & Hc')]; [by left|].
    right. split; [done|]. exists c'. by right.
Qed.

(** A path whose backups all hold what the tree [fs0] has, and that has
    this content already, still has it after the loop. *)
Lemma restoreEach_keeps u fs0 p m : forall fs acc,
  (forall c, (p, c) ∈ m -> entries fs0 !! p = Some (File (encode u c))) ->
  entries fs !! p = entries fs0 !! p ->
  entries (restoreEach u fs m acc).1 !! p = entries fs0 !! p.
Proof.
  induction m as [|[q c] m IH]; intros fs acc Hacc Hsame; simpl; [done|].
  assert (Hm : forall c', (p, c') ∈ m -> entries fs0 !! p = Some (File (encode u c')))
    by (intros c' ?; apply Hacc; by right).
  unfold writeFileSync.
  destruct (writeBytes fs q (encode u c)) as [fs'|] eqn:E; [|by apply IH].
  apply IH; [done|]. apply writeBytes_Some in E as (-> & _). simpl.
  destruct (decide (q = p)) as [->|Hne].
  - rewrite lookup_insert_eq. symmetry. apply Hacc. by left.
  - by rewrite lookup_insert_ne.
Qed.

(** A writable path that has a backup gets the content of [fs0] back. *)
Lemma restoreEach_writes u fs0 p m : forall fs acc,
  (forall c, (p, c) ∈ m -> entries fs0 !! p = Some (File (encode u c))) ->
  p ∉ readonly fs -> entries fs !! p <> Some Directory ->
  (exists c, (p, c) ∈ m) ->
  entries (restoreEach u fs m acc).1 !! p = entries fs0 !! p.
Proof.
  induction m as [|[q c] m IH]; intros fs acc Hacc Hro Hdir [c0 Hc0]; simpl.
  { by apply elem_of_nil in Hc0. }
  assert (Hm : forall c', (p, c') ∈ m -> entries fs0 !! p = Some (File (encode u c')))
    by (intros c' ?; apply Hacc; by right).
  unfold writeFileSync. destruct (decide (q = p)) as [->|Hne].
  - rewrite (writeBytes_writable _ _ _ Hro Hdir).
    apply restoreEach_keeps; [done|]. simpl. rewrite lookup_insert_eq.
    symmetry. apply Hacc. by left.
  - assert (Hin : (p, c0) ∈ m).
    { apply elem_of_cons in Hc0 as [[= ? ?]|?]; [congruence|done]. }
    destruct (writeBytes fs q (encode u c)) as [fs'|] eqn:E.
    + apply writeBytes_Some in E as (-> & _).
      apply IH; simpl; [done|done|by rewrite lookup_insert_ne|by exists c0].
    + apply IH; [done|done|done|by exists c0].
Qed.

Lemma mapSet_elem {V} (m : list (string * V)) k v p c :
  (p, c) ∈ Js.mapSet m k v -> (p = k /\ c = v) \/ (p, c) ∈ m.
Proof.
  induction m as [|[k' v'] m IH]; simpl.
  - intros [= -> ->]%list_elem_of_singleton. by left.
  - destruct (String.eqb_spec k' k) as [->|Hne].
    + intros [[= -> ->]|Hin]%elem_of_cons; [by left|]. right. by right.
    + intros [[= -> ->]|Hin]%elem_of_cons.
      * right. by left.
      * apply IH in Hin as [?|?]; [by left|]. right. by right.
Qed.

Lemma mapSet_has {V} (m : list (string * V)) k v : (k, v) ∈ Js.mapSet m k v.
Proof.
  induction m as [|[k' v'] m IH]; simpl; [by left|].
  destruct (String.eqb_spec k' k) as [->|Hne]; [by left|by right].
Qed.

Lemma mapSet_keeps {V} (m : list (string * V)) k v p c :
  p <> k -> (p, c) ∈ m -> (p, c) ∈ Js.mapSet m k v.
Proof.
  intros Hne. induction m as [|[k' v'] m IH]; simpl.
  { by intros ?%elem_of_nil. }
  destruct (String.eqb_spec k' k) as [->|Hk].
  - intros [[= ? ?]|Hin]%elem_of_cons; [congruence|by right].
  - intros [[= -> ->]|Hin]%elem_of_cons; [by left|]. right. by apply IH.
Qed.

(** A write-protected path keeps its entry. *)
Lemma restoreEach_protected u m p : forall fs acc,
  p ∈ readonly fs ->
  entries (restoreEach u fs m acc).1 !! p = entries fs !! p.
Proof.
  induction m as [|[q c] m IH]; intros fs acc Hro; simpl; [done|].
  unfold writeFileSync.
  destruct (writeBytes fs q (encode u c)) as [fs'|] eqn:E; [|by apply IH].
  apply writeBytes_Some in E as (-> & Hq & _). rewrite IH by done. simpl.
  apply lookup_insert_ne. by intros ->.
Qed.

Lemma restoreJsonFiles_tree u fs m :
  (restoreJsonFiles u fs m).1.1 = (restoreEach u fs m []).1.
Proof. unfold restoreJsonFiles. by destruct (restoreEach u fs m []). Qed.

Lemma restoreJsonFiles_backups u fs m : (restoreJsonFiles u fs m).1.2 = [].
Proof. unfold restoreJsonFiles. by destruct (restoreEach u fs m []). Qed.

Lemma restoreJsonFiles_restored u fs m :
  restored (restoreJsonFiles u fs m).2 = (restoreEach u fs m []).2.
Proof. unfold restoreJsonFiles. by destruct (restoreEach u fs m []). Qed.

(** C9: whatever the writes did, the map is empty after one call of
    [restoreJsonFiles].  The paths reported as restored were writable and
    had a backup; a write-protected path with a backup is not reported, is
    left as it was, and its backup is gone all the same.  A second call, on
    any tree, writes nothing and reports no restored path. *)
Theorem restore_clears_all_backups (u : Utf8) (fs : Fs) (m : Backups) :
  let r := restoreJsonFiles u fs m in
  r.1.2 = [] /\
  success r.2 = true /\
  (forall p, p ∈ restored r.2 -> (p ∉ readonly fs) /\ exists c, (p, c) ∈ m) /\
  (forall p c, (p, c) ∈ m -> p ∈ readonly fs ->
     (p ∉ restored r.2) /\ entries r.1.1 !! p = entries fs !! p) /\
  (forall fs', restoreJsonFiles u fs' r.1.2 =
               (fs', [], {| success := true; restored := [] |})).
Proof.
  cbv zeta. rewrite restoreJsonFiles_backups, restoreJsonFiles_restored,
    restoreJsonFiles_tree.
  split_and!.
  - done.
  - unfold restoreJsonFiles. by destruct (restoreEach u fs m []).
  - intros p Hp. apply restoreEach_restored in Hp as [Hp|Hp]; [|done].
    by apply elem_of_nil in Hp.
  - intros p c Hin Hro. split; [|by apply restoreEach_protected].
    intros Hp. apply restoreEach_restored in Hp as [Hp|[Hp _]]; [|done].
    by apply elem_of_nil in Hp.
  - done.
Qed.

Lemma restore_clears_all_backups_witness :
  let fs := protect (treeOf [("a.json", "resolved a"); ("b.json", "resolved b")])
                    "a.json" in
  let m := [("a.json", "original a"); ("b.json", "original b")] in
  let r := restoreJsonFiles asciiText fs m in
  ("a.json" ∉ restored r.2) /\
  entries r.1.1 !! "a.json" = entries fs !! "a.json" /\
  restored r.2 = ["b.json"] /\
  r.1.2 = [].
Proof.
  cbv zeta.
  destruct (restore_clears_all_backups asciiText
              (protect (treeOf [("a.json", "resolved a"); ("b.json", "resolved b")])
                       "a.json")
              [("a.json", "original a"); ("b.json", "original b")])
    as (Hclear & _ & _ & Hlost & _).
  destruct (Hlost "a.json" "original a") as [Hnot Hsame].
  - by left.
  - vm_compute. set_solver.
  - split_and!; [exact Hnot|exact Hsame|vm_compute; reflexivity|exact Hclear].
Defined.

(** *** The round trip through [processVersionFiles] *)

Lemma backup_elem u fs m q p c :
  (p, c) ∈ backupJsonFile u fs m q ->
  (p, c) ∈ m \/ (p = q /\ exists b, readBytes fs q = Some b /\ c = decode u b).
Proof.
  unfold backupJsonFile, readFileSync.
  destruct (existsSync fs q); [|by left].
  destruct (readBytes fs q) as [b|]; simpl; [|by left].
  intros [[-> ->]|?]%mapSet_elem; [|by left]. right. eauto.
Qed.

Lemma backup_has u fs m q b :
  readBytes fs q = Some b -> (q, decode u b) ∈ backupJsonFile u fs m q.
Proof.
  intros Hb. unfold backupJsonFile, readFileSync.
  rewrite (readBytes_exists _ _ _ Hb), Hb. simpl. apply mapSet_has.
Qed.

Lemma backup_some u fs m q p c :
  (p, c) ∈ m -> exists c', (p, c') ∈ backupJsonFile u fs m q.
Proof.
  intros Hin. unfold backupJsonFile, readFileSync.
  destruct (existsSync fs q); [|by exists c].
  destruct (readBytes fs q) as [b|]; simpl; [|by exists c].
  destruct (decide (p = q)) as [->|Hne].
  - eexists. apply mapSet_has.
  - exists c. by apply mapSet_keeps.
Qed.

Section Process.

Variables (u : Utf8) (J : Json) (VERSIONS_DIR : string) (fs : Fs)
          (minecraftVersion fabricVersion : string).

Let pm := minecraftJsonPathOf VERSIONS_DIR minecraftVersion.
Let pf := fabricJsonPathOf VERSIONS_DIR minecraftVersion fabricVersion.
Let run := processVersionFiles u J VERSIONS_DIR fs [] minecraftVersion
             fabricVersion.
Let backups2 := backupJsonFile u fs (backupJsonFile u fs [] pm) pf.

(** The trees and maps [processVersionFiles] can end with. *)
Lemma process_shape :
  (run.1.1 = fs /\ (run.1.2 = [] \/ run.1.2 = backups2)) \/
  (is_Some (readBytes fs pm) /\ is_Some (readBytes fs pf) /\
   run.1.2 = backups2 /\
   exists x, writeBytes fs pm x = Some run.1.1) \/
  (is_Some (readBytes fs pm) /\ is_Some (readBytes fs pf) /\
   run.1.2 = backups2 /\
   exists x y mid, writeBytes fs pm x = Some mid /\
                   writeBytes mid pf y = Some run.1.1).
Proof.
  unfold run, processVersionFiles. fold pm pf.
  destruct (existsSync fs pm); simpl; [|left; by split; [|left]].
  destruct (existsSync fs pf); simpl; [|left; by split; [|left]].
  fold backups2. unfold loadJson, readFileSync.
  destruct (readBytes fs pm) as [bm|] eqn:Em; simpl; [|left; by split; [|right]].
  destruct (parse J (decode u bm)) as [mj|]; [|left; by split; [|right]].
  destruct (readBytes fs pf) as [bf|] eqn:Ef; simpl; [|left; by split; [|right]].
  destruct (parse J (decode u bf)) as [fj|]; [|left; by split; [|right]].
  destruct (fixAssetIndex mj fj) as [mj' fj'].
  destruct (0 <? length (identifyLibraryConflicts mj' fj'))%nat;
    [|left; by split; [|right]].
  unfold resolveLibraryConflicts, writeFileSync.
  destruct (writeBytes fs pm _) as [mid|] eqn:Ew1; [|left; by split; [|right]].
  destruct (writeBytes mid pf _) as [fin|] eqn:Ew2.
  - right. right. split_and!; [by eexists|by eexists|done|]. simpl. eauto.
  - right. left. split_and!; [by eexists|by eexists|done|]. simpl. eauto.
Qed.

Lemma process_readonly : readonly run.1.1 = readonly fs.
Proof.
  destruct process_shape as [[-> _]|[(_ & _ & _ & x & Hw)|(_ & _ & _ & x & y & mid & Hw1 & Hw2)]].
  - done.
  - apply writeBytes_Some in Hw as (-> & _). done.
  - apply writeBytes_Some in Hw1 as (-> & _).
    apply writeBytes_Some in Hw2 as (-> & _). done.
Qed.

(** Every backup is for one of the two descriptor files and holds the text
    of the file as it was. *)
Lemma process_backups p c :
  (p, c) ∈ run.1.2 ->
  (p = pm \/ p = pf) /\
  exists b, readBytes fs p = Some b /\ c = decode u b.
Proof.
  assert (H2 : (p, c) ∈ backups2 ->
               (p = pm \/ p = pf) /\
               exists b, readBytes fs p = Some b /\ c = decode u b).
  { intros [Hin|(-> & b & Hb & ->)]%backup_elem; [|by eauto].
    apply backup_elem in Hin as [Hin|(-> & b & Hb & ->)]; [|by eauto].
    by apply elem_of_nil in Hin. }
  destruct process_shape as [[_ [->| ->]]|[(_ & _ & -> & _)|(_ & _ & -> & _)]];
    try done.
  by intros ?%elem_of_nil.
Qed.

(** A path whose entry changed is writable, holds a file and has a backup. *)
Lemma process_changed p :
  entries run.1.1 !! p = entries fs !! p \/
  ((p ∉ readonly run.1.1) /\ (exists b, entries run.1.1 !! p = Some (File b)) /\
   exists c, (p, c) ∈ run.1.2).
Proof.
  assert (Hm : is_Some (readBytes fs pm) -> exists c, (pm, c) ∈ backups2).
  { intros [b Hb]. eapply backup_some, backup_has, Hb. }
  assert (Hf : is_Some (readBytes fs pf) -> exists c, (pf, c) ∈ backups2).
  { intros [b Hb]. eexists. eapply backup_has, Hb. }
  destruct process_shape
    as [[-> _]|[(Hrm & Hrf & -> & x & Hw)|(Hrm & Hrf & -> & x & y & mid & Hw1 & Hw2)]].
  - by left.
  - apply writeBytes_Some in Hw as (-> & Hro & _). simpl.
    destruct (decide (p = pm)) as [->|Hne].
    + right. rewrite lookup_insert_eq. split_and!; [done|by eexists|by apply Hm].
    + left. by apply lookup_insert_ne.
  - apply writeBytes_Some in Hw1 as (-> & Hro1 & _).
    apply writeBytes_Some in Hw2 as (-> & Hro2 & _). simpl in *.
    destruct (decide (p = pf)) as [->|Hnf].
    + right. rewrite lookup_insert_eq. split_and!; [done|by eexists|by apply Hf].
    + rewrite lookup_insert_ne by done.
      destruct (decide (p = pm)) as [->|Hnm].
      * right. rewrite lookup_insert_eq.
        split_and!; [done|by eexists|by apply Hm].
      * left. by apply lookup_insert_ne.
Qed.

Hypothesis valid_pm : Launcher.validUtf8 u fs pm.
Hypothesis valid_pf : Launcher.validUtf8 u fs pf.

Lemma process_accurate p c :
  (p, c) ∈ run.1.2 -> entries fs !! p = Some (File (encode u c)).
Proof.
  intros ([-> | ->] & b & Hb & ->)%process_backups.
  - rewrite (valid_pm b Hb). by apply readBytes_Some.
  - rewrite (valid_pf b Hb). by apply readBytes_Some.
Qed.

(** Restoring, on a tree [t] that has the entry and the write protection
    of [p] as [processVersionFiles] left them, gives [p] the entry it had
    before [processVersionFiles]. *)
Lemma restore_after_process t p :
  entries t !! p = entries run.1.1 !! p ->
  (p ∈ readonly t <-> p ∈ readonly run.1.1) ->
  entries (restoreJsonFiles u t run.1.2).1.1 !! p = entries fs !! p.
Proof.
  intros Hent Hro. rewrite restoreJsonFiles_tree.
  destruct (process_changed p) as [Hsame|(Hw & [b Hb] & Hc)].
  - apply restoreEach_keeps; [apply process_accurate|congruence].
  - apply restoreEach_writes.
    + apply process_accurate.
    + by rewrite Hro.
    + rewrite Hent, Hb. discriminate.
    + done.
Qed.

End Process.

Lemma fs_eq (a b : Fs) :
  entries a = entries b -> readonly a = readonly b -> a = b.
Proof. destruct a, b; simpl; congruence. Qed.

(** The round-trip law on the tree as a whole. *)
Lemma process_restore_roundtrip u J VERSIONS_DIR fs mv fv :
  Launcher.validUtf8 u fs (minecraftJsonPathOf VERSIONS_DIR mv) ->
  Launcher.validUtf8 u fs (fabricJsonPathOf VERSIONS_DIR mv fv) ->
  let pr := processVersionFiles u J VERSIONS_DIR fs [] mv fv in
  (restoreJsonFiles u pr.1.1 pr.1.2).1.1 = fs.
Proof.
  intros Hm Hf pr. apply fs_eq.
  - apply map_eq. intros p.
    by apply (restore_after_process u J VERSIONS_DIR fs mv fv Hm Hf).
  - rewrite restoreJsonFiles_tree, restoreEach_readonly.
    apply process_readonly.
Qed.

Lemma restore_nothing u t : (restoreJsonFiles u t []).1.1 = t.
Proof. done. Qed.

Lemma failRun_tree u t m :
  Launcher.tree (Launcher.failRun u t m) = (restoreJsonFiles u t m).1.1.
Proof.
  unfold Launcher.failRun. by destruct (restoreJsonFiles u t m) as [[? ?] ?].
Qed.

Lemma failRun_backups u t m : Launcher.backups (Launcher.failRun u t m) = [].
Proof.
  unfold Launcher.failRun. pose proof (restoreJsonFiles_backups u t m) as H.
  by destruct (restoreJsonFiles u t m) as [[? ?] ?].
Qed.

Lemma run_leaves_no_backup u J VERSIONS_DIR phases fs m0 mv fv :
  Launcher.backups
    (Launcher.downloadGameFiles u J VERSIONS_DIR phases fs m0 mv fv) = [].
Proof.
  unfold Launcher.downloadGameFiles.
  destruct (Launcher.loadDescriptors phases fs) as [fs1 [|]];
    [|apply failRun_backups].
  destruct (processVersionFiles u J VERSIONS_DIR fs1 [] mv fv) as [[fs2 m2] res].
  destruct (Launcher.acquire phases fs2) as [fs3 [|]]; [|apply failRun_backups].
  pose proof (restoreJsonFiles_backups u fs3 m2) as Hb.
  destruct (restoreJsonFiles u fs3 m2) as [[fs4 m4] res4]. simpl in Hb.
  destruct (Launcher.finish phases fs4) as [fs5 [|]]; [done|apply failRun_backups].
Qed.

Lemma run_restores_path u J VERSIONS_DIR phases fs m0 mv fv p :
  let loaded := (Launcher.loadDescriptors phases fs).1 in
  Launcher.validUtf8 u loaded (minecraftJsonPathOf VERSIONS_DIR mv) ->
  Launcher.validUtf8 u loaded (fabricJsonPathOf VERSIONS_DIR mv fv) ->
  Launcher.leavesAlone (Launcher.acquire phases) p ->
  Launcher.leavesAlone (Launcher.finish phases) p ->
  entries (Launcher.tree
             (Launcher.downloadGameFiles u J VERSIONS_DIR phases fs m0 mv fv))
    !! p = entries loaded !! p.
Proof.
  intros loaded Hvm Hvf Hacq Hfin. subst loaded.
  unfold Launcher.downloadGameFiles.
  destruct (Launcher.loadDescriptors phases fs) as [fs1 [|]]; simpl in *;
    [|done].
  pose proof (restore_after_process u J VERSIONS_DIR fs1 mv fv Hvm Hvf)
    as Hrestore.
  destruct (processVersionFiles u J VERSIONS_DIR fs1 [] mv fv)
    as [[fs2 m2] res]. simpl in Hrestore.
  specialize (Hacq fs2).
  destruct (Launcher.acquire phases fs2) as [fs3 c3]. simpl in Hacq.
  destruct Hacq as [Hent Hro].
  specialize (Hrestore fs3 p Hent Hro).
  destruct c3; [|by rewrite failRun_tree].
  pose proof (restoreJsonFiles_backups u fs3 m2) as Hb.
  destruct (restoreJsonFiles u fs3 m2) as [[fs4 m4] res4].
  simpl in Hb, Hrestore. subst m4.
  specialize (Hfin fs4).
  destruct (Launcher.finish phases fs4) as [fs5 c5]. simpl in Hfin.
  destruct Hfin as [Hent5 _].
  destruct c5; [|rewrite failRun_tree, restore_nothing]; simpl; congruence.
Qed.


(** In the sample run the base descriptor is rewritten on disk, without the
    conflicting library, before the acquisition starts. *)
Example sample_descriptor_is_rewritten :
  readBytes
    (processVersionFiles asciiText sampleJson "versions" Launcher.sampleTree []
       "1.20.4" "0.15.0").1.1
    "versions/1.20.4/1.20.4.json" = Some "org.lwjgl:lwjgl:3.3.1".
Proof. vm_compute. reflexivity. Qed.


End RestoreFacts.

(** ** Hash verification *)

Module VerifyFacts.
Import Node AssetVerifier NodeFacts.

(** The implementation of SHA-1 above agrees with the test vectors of the
    standard. *)
Example sha1_empty : Sha1.hex EmptyString = "da39a3ee5e6b4b0d3255bfef95601890afd80709".
Proof. vm_compute. reflexivity. Qed.

Example sha1_abc : Sha1.hex "abc" = "a9993e364706816aba3e25717850c26c9cd0d89d".
Proof. vm_compute. reflexivity. Qed.

Example sha1_two_blocks :
  Sha1.hex "abcdbcdecdefdefgefghfghighijhijkijkljklmklmnlmnomnopnopq"
  = "84983e441c3bd26ebaae4aa1f95129e5e54670f1".
Proof. vm_compute. reflexivity. Qed.

Lemma computeFileHash_bytes sha1 fs p :
  computeFileHash sha1 fs p = sha1 <$> readBytes fs p.
Proof.
  unfold computeFileHash.
  destruct (createReadStream fs p) as [chunks|] eqn:E.
  - apply (stream_digest sha1) in E as (bytes & -> & ->). done.
  - unfold createReadStream in E. by destruct (readBytes fs p).
Qed.

(** [verifyAsset] answers [valid: true] exactly for a file whose SHA-1
    digest equals the expected hash up to the case of the letters. *)
Lemma verifyAsset_valid_iff sha1 fs p expected :
  verifyAsset sha1 fs p expected = Valid <->
  exists bytes, readBytes fs p = Some bytes /\
                Js.toLowerCase (sha1 bytes) = Js.toLowerCase expected.
Proof.
  unfold verifyAsset. rewrite computeFileHash_bytes.
  destruct (readBytes fs p) as [bytes|] eqn:Eb; simpl.
  - rewrite (readBytes_exists _ _ _ Eb). simpl.
    destruct (String.eqb_spec (Js.toLowerCase (sha1 bytes))
                              (Js.toLowerCase expected)) as [e|n]; simpl.
    + split; [|done]. intros _. by exists bytes.
    + split; [done|]. intros (b & [= <-] & Hb). done.
  - destruct (existsSync fs p); simpl; split; try done;
      by intros (b & ? & _).
Qed.

Lemma verifyHash_true_iff sha1 fs p expected :
  Utils.verifyHash sha1 fs p expected = Some true <->
  exists bytes, readBytes fs p = Some bytes /\
                Js.toLowerCase (sha1 bytes) = Js.toLowerCase expected.
Proof.
  unfold Utils.verifyHash.
  destruct (createReadStream fs p) as [chunks|] eqn:E.
  - apply (stream_digest sha1) in E as (bytes & Hb & ->). rewrite Hb.
    destruct (String.eqb_spec (Js.toLowerCase (sha1 bytes))
                              (Js.toLowerCase expected)) as [e|n].
    + split; [|done]. intros _. by exists bytes.
    + split; [done|]. intros (b & [= <-] & ?). done.
  - unfold createReadStream in E.
    destruct (readBytes fs p); [done|]. split; [done|]. by intros (b & ? & _).
Qed.

Lemma verifyHash_false sha1 fs p expected :
  Utils.verifyHash sha1 fs p expected = Some false ->
  exists bytes, readBytes fs p = Some bytes /\
                Js.toLowerCase (sha1 bytes) <> Js.toLowerCase expected.
Proof.
  unfold Utils.verifyHash.
  destruct (createReadStream fs p) as [chunks|] eqn:E; [|done].
  apply (stream_digest sha1) in E as (bytes & Hb & ->).
  intros [= H]. exists bytes. split; [done|]. by apply String.eqb_neq.
Qed.

(** When the bytes of a valid file are replaced by bytes with another
    digest, [verifyAsset] answers ["hash_mismatch"]. *)
Lemma verifyAsset_detects_other_digest sha1 fs fs' p expected bytes' :
  verifyAsset sha1 fs p expected = Valid ->
  readBytes fs' p = Some bytes' ->
  Js.toLowerCase (sha1 bytes') <> Js.toLowerCase expected ->
  verifyAsset sha1 fs' p expected = HashMismatch expected (sha1 bytes').
Proof.
  intros _ Hb Hne. unfold verifyAsset. rewrite computeFileHash_bytes, Hb.
  rewrite (readBytes_exists _ _ _ Hb). simpl.
  by rewrite (proj2 (String.eqb_neq _ _) Hne).
Qed.

Lemma readBytes_treeOf_single p bytes :
  readBytes (treeOf [(p, bytes)]) p = Some bytes.
Proof. apply readBytes_Some. simpl. apply lookup_insert_eq. Qed.

(** "Changing any one byte of a valid file gives [hash_mismatch]" says as
    much as: the digest has no collision between byte strings one byte
    apart. *)
Lemma one_byte_change_detected_iff (sha1 : string -> string) :
  (forall fs fs' p expected a b,
     readBytes fs p = Some a -> readBytes fs' p = Some b ->
     oneByteApart a b ->
     verifyAsset sha1 fs p expected = Valid ->
     verifyAsset sha1 fs' p expected = HashMismatch expected (sha1 b))
  <->
  (forall a b, oneByteApart a b ->
               Js.toLowerCase (sha1 a) <> Js.toLowerCase (sha1 b)).
Proof.
  split.
  - intros Hflip a b Hab Heq.
    assert (Hvalid : forall x, Js.toLowerCase (sha1 x) = Js.toLowerCase (sha1 a) ->
              verifyAsset sha1 (treeOf [("f", x)]) "f" (sha1 a) = Valid).
    { intros x Hx. apply verifyAsset_valid_iff. exists x.
      split; [apply readBytes_treeOf_single|done]. }
    pose proof (Hflip (treeOf [("f", a)]) (treeOf [("f", b)]) "f" (sha1 a) a b
                  (readBytes_treeOf_single _ _) (readBytes_treeOf_single _ _)
                  Hab (Hvalid a eq_refl)) as Hmismatch.
    rewrite (Hvalid b (eq_sym Heq)) in Hmismatch. discriminate.
  - intros Hfree fs fs' p expected a b Ha Hb Hab Hvalid.
    apply (verifyAsset_detects_other_digest sha1 fs fs' p expected b Hvalid Hb).
    apply verifyAsset_valid_iff in Hvalid as (a' & Ha' & <-).
    rewrite Ha in Ha'. injection Ha' as <-.
    intros Heq. by apply (Hfree a b Hab).
Qed.

(** One file, its digest in capitals, and the file with its last byte
    changed. *)
Example verifyAsset_sample :
  let store := treeOf [("assets/objects/a9/a9993e36", "abc")] in
  let mutated := treeOf [("assets/objects/a9/a9993e36", "abd")] in
  let expected := "A9993E364706816ABA3E25717850C26C9CD0D89D" in
  verifyAsset Sha1.hex store "assets/objects/a9/a9993e36" expected = Valid /\
  verifyAsset Sha1.hex mutated "assets/objects/a9/a9993e36" expected =
    HashMismatch expected "cb4cc28df0fdbe0ecf9d9662e294b118092a5735" /\
  verifyAsset Sha1.hex store "assets/objects/00/missing" expected = FileNotFound.
Proof. cbv zeta. split_and!; vm_compute; reflexivity. Qed.



End VerifyFacts.

(** ** Legacy asset tree *)

Module VirtualAssetFacts.
Import Node NodeFacts.

(** One iteration of [createVirtualAssets] writes the object over whatever
    file the destination holds. *)
Lemma copyVirtualAsset_overwrites ASSETS_DIR virtualDir fs n assetPath info bytes :
  let src := Js.pathJoin [ASSETS_DIR; "objects";
                          Js.prefix 2 (AssetVerifier.hash info);
                          AssetVerifier.hash info] in
  let dest := Js.pathJoin [virtualDir; assetPath] in
  readBytes fs src = Some bytes ->
  dest ∉ readonly fs -> entries fs !! dest <> Some Directory ->
  readBytes (AssetVerifier.copyVirtualAsset ASSETS_DIR virtualDir (fs, n)
               (assetPath, info)).1 dest = Some bytes.
Proof.
  intros src dest Hsrc Hro Hdir. unfold AssetVerifier.copyVirtualAsset.
  fold src dest. rewrite (readBytes_exists _ _ _ Hsrc).
  unfold copyFileSync. rewrite Hsrc, (writeBytes_writable _ _ _ Hro Hdir).
  simpl. apply readBytes_Some. simpl. apply lookup_insert_eq.
Qed.

(** One iteration of the loop of [ensureVirtualAssetsSetup] leaves the tree
    as it is when the destination exists. *)
Lemma copyMissingAsset_skips ASSETS_DIR virtualDir fs n assetPath info :
  existsSync fs (Js.pathJoin [virtualDir; assetPath]) = true ->
  Utils.copyMissingAsset ASSETS_DIR virtualDir (fs, n) (assetPath, info)
  = (fs, n).
Proof.
  intros He. unfold Utils.copyMissingAsset. rewrite He.
  by rewrite andb_false_r.
Qed.

(** C8, at the failing input: the asset index is virtual, its one object is
    in the object store with content ["new"], and the legacy tree already has
    a file under the asset's name, with content ["old"].  Both
    [createVirtualAssets] replace the existing file; the loop of
    [ensureVirtualAssetsSetup], which tests the destination, keeps it. *)
Theorem createVirtualAssets_overwrites_existing :
  let dest := "assets/virtual/legacy/icons/icon.png" in
  AssetVerifier.virtual Launcher.sampleIndex = true /\
  readBytes Launcher.sampleAssets dest = Some "old" /\
  readBytes (AssetVerifier.createVirtualAssets "assets" Launcher.sampleAssets
               Launcher.sampleIndex).1 dest = Some "new" /\
  readBytes (Launcher.createVirtualAssets "assets" "assets/objects"
               Launcher.sampleAssets Launcher.sampleIndex) dest = Some "new" /\
  readBytes (Utils.copyMissingAssets "assets" Launcher.sampleAssets
               Launcher.sampleIndex).1 dest = Some "old".
Proof. cbv zeta. split_and!; vm_compute; reflexivity. Qed.

End VirtualAssetFacts.

(** ** Rule evaluators *)

Module RuleFacts.

Lemma checkRules_forallb P rs :
  Utils.checkRules P rs = forallb (Utils.ruleApplies P) rs.
Proof.
  induction rs as [|r rs IH]; simpl; [done|].
  rewrite IH. by destruct (Utils.ruleApplies P r).
Qed.

Lemma rulesLoop_last P rs : forall allowed,
  Launcher.rulesLoop P rs allowed =
  match last (List.filter (Launcher.ruleMatches P) rs) with
  | Some r => Launcher.ruleAllows r
  | None => allowed
  end.
Proof.
  induction rs as [|r rs IH]; intros allowed; simpl; [done|].
  unfold Launcher.ruleMatches at 1.
  destruct (Utils.os r) as [o|] eqn:Eo.
  - destruct (Utils.osNameDiffers P o); simpl; [apply IH|].
    destruct (Utils.osVersionDiffers P o); simpl; [apply IH|].
    rewrite IH, last_cons.
    by destruct (last (List.filter (Launcher.ruleMatches P) rs)).
  - rewrite IH, last_cons.
    by destruct (last (List.filter (Launcher.ruleMatches P) rs)).
Qed.

(** C4, as stated, fails: for the rules [disallow; allow], both without OS
    condition, [shouldUseLibrary] answers [true] although the first rule is
    a disallow rule that matches, and [checkArgConditions] answers [false]
    on the same rules. *)
Lemma rule_evaluators_disagree_counterexample :
  let rules := [Launcher.plainRule "disallow"; Launcher.plainRule "allow"] in
  Launcher.ruleMatches Launcher.linuxHost (Launcher.plainRule "disallow") = true /\
  Launcher.shouldUseLibrary Launcher.linuxHost (Some rules) = true /\
  forallb Launcher.ruleAllows rules = false /\
  Utils.checkArgConditions Launcher.linuxHost (Some rules) = false /\
  Launcher.shouldUseLibrary Launcher.linuxHost (Some rules) <>
    Utils.checkArgConditions Launcher.linuxHost (Some rules).
Proof. cbv zeta. split_and!; try (vm_compute; reflexivity). vm_compute. discriminate. Qed.

(** C4 (amended): [checkArgConditions] is the conjunction, over the rules in
    order, of the outcome of each rule (its action is ["allow"], negated
    once for each OS name or version condition that does not hold, and
    false when the rule has [features]).  [shouldUseLibrary] is the action
    of the last rule whose OS conditions hold, and false when no rule's
    conditions hold.  Without a [rules] property both answer [true]. *)
Theorem rule_evaluators_semantics (P : Utils.Platform) (rs : list Utils.Rule) :
  Utils.checkArgConditions P (Some rs) = forallb (Utils.ruleApplies P) rs /\
  Launcher.shouldUseLibrary P (Some rs) =
    match last (List.filter (Launcher.ruleMatches P) rs) with
    | Some r => Launcher.ruleAllows r
    | None => false
    end /\
  Utils.checkArgConditions P None = true /\
  Launcher.shouldUseLibrary P None = true.
Proof.
  split_and!; [apply checkRules_forallb|apply rulesLoop_last|done|done].
Qed.

(** The usual shape of a library rule list: allowed everywhere but on
    macOS. *)
Example rules_allow_but_osx :
  let rules := [Launcher.plainRule "allow"; Launcher.osRule "disallow" "osx"] in
  Launcher.shouldUseLibrary Launcher.linuxHost (Some rules) = true /\
  Utils.checkArgConditions Launcher.linuxHost (Some rules) = true /\
  Launcher.shouldUseLibrary Launcher.linuxHost (Some []) = false /\
  Utils.checkArgConditions Launcher.linuxHost (Some []) = true.
Proof. cbv zeta. split_and!; vm_compute; reflexivity. Qed.

End RuleFacts.

(** ** Progress *)

Module ProgressFacts.
Import PrimFloat.

(** C10: [getProgress] has a value in every state; the percentage is 0
    when the total equals 0, and [Math.floor(completed / total * 100)], in
    the arithmetic of JavaScript numbers, when it does not. *)
Theorem getProgress_percentage (p : Launcher.Progress) :
  (PrimFloat.eqb (Launcher.total p) 0%float = true ->
     Launcher.percentage (Launcher.getProgress p) = 0%float) /\
  (PrimFloat.eqb (Launcher.total p) 0%float = false ->
     Launcher.percentage (Launcher.getProgress p) =
     Launcher.Math_floor
       (PrimFloat.mul (PrimFloat.div (Launcher.completed p) (Launcher.total p))
                      100%float)) /\
  Launcher.reportTotal (Launcher.getProgress p) = Launcher.total p /\
  Launcher.reportCompleted (Launcher.getProgress p) = Launcher.completed p /\
  Launcher.reportCurrent (Launcher.getProgress p) = Launcher.current p.
Proof.
  unfold Launcher.getProgress. simpl.
  split_and!; try done; by intros ->.
Qed.

Lemma getProgress_percentage_witness :
  Launcher.percentage
    (Launcher.getProgress
       {| Launcher.total := 0%float; Launcher.completed := 7%float; Launcher.current := EmptyString |})
  = 0%float /\
  Launcher.percentage
    (Launcher.getProgress
       {| Launcher.total := 8%float; Launcher.completed := 3%float; Launcher.current := EmptyString |})
  = 37%float.
Proof.
  split.
  - destruct (getProgress_percentage
                {| Launcher.total := 0%float; Launcher.completed := 7%float;
                   Launcher.current := EmptyString |}) as (Hzero & _).
    apply Hzero. vm_compute. reflexivity.
  - destruct (getProgress_percentage
                {| Launcher.total := 8%float; Launcher.completed := 3%float;
                   Launcher.current := EmptyString |}) as (_ & Hfloor & _).
    etransitivity; [apply Hfloor|]; vm_compute; reflexivity.
Defined.

(** The division and the product are rounded: 29 of 100 is reported as 28. *)
Example getProgress_rounding :
  Launcher.percentage
    (Launcher.getProgress
       {| Launcher.total := 100%float; Launcher.completed := 29%float; Launcher.current := EmptyString |})
  = 28%float.
Proof. vm_compute. reflexivity. Qed.

(** For counts up to 150 the reported percentage is the exact
    [floor (100 * completed / total)] or one less. *)
Example getProgress_close_to_exact :
  forallb
    (fun t =>
       forallb
         (fun c =>
            let reported :=
              Launcher.percentage
                (Launcher.getProgress
                   {| Launcher.total := Launcher.ofZ (Z.of_nat t);
                      Launcher.completed := Launcher.ofZ (Z.of_nat c);
                      Launcher.current := EmptyString |}) in
            let exact := (100 * Z.of_nat c / Z.of_nat t)%Z in
            PrimFloat.eqb reported (Launcher.ofZ exact)
            || PrimFloat.eqb reported (Launcher.ofZ (exact - 1)))
         (seq 0 (S t)))
    (seq 1 150) = true.
Proof. vm_compute. reflexivity. Qed.

Lemma assetConcurrency_bounds (n : nat) :
  10 <= Launcher.assetConcurrency n <= 50.
Proof. unfold Launcher.assetConcurrency. lia. Qed.

End ProgressFacts.

(** ** Single download *)

Module DownloadFacts.
Import Node NodeFacts Utils.

Lemma append_longer (s t : string) (c : ascii) : s ++ String c t <> s.
Proof.
  induction s as [|a s IH]; [discriminate|].
  rewrite append_cons. intros [= H]. by apply IH.
Qed.

Lemma verifyDownloaded_hash_failure env destination expected w d :
  verifyDownloaded env destination expected w = inl (HashVerificationFailed d) ->
  d = destination /\ leftCorrupt env destination expected w.
Proof.
  unfold verifyDownloaded. destruct expected as [h|]; [|done].
  destruct (Js.truthy h); [|done].
  destruct (verifyHash (sha1 env) (fs w) destination h) as [[|]|] eqn:E;
    intros [= <-].
  apply VerifyFacts.verifyHash_false in E as (bytes & Hb & Hne).
  split; [done|]. by exists bytes, h.
Qed.

Lemma alreadyValid_error env destination expected w e :
  alreadyValid env destination expected w = inl e ->
  e = HashUnreadable destination.
Proof.
  unfold alreadyValid. destruct expected as [h|]; [|done].
  destruct (Js.truthy h && existsSync (fs w) destination); [|done].
  by destruct (verifyHash (sha1 env) (fs w) destination h); intros [= <-].
Qed.

(** A hash failure that comes out of one attempt was raised by the call
    made for a redirect. *)
Lemma attempt_hash_failure env redirect url destination tempFile w w' d :
  attempt env redirect url destination tempFile w
    = (w', inl (HashVerificationFailed d)) ->
  exists location w0,
    redirect location w0 = (w', inl (HashVerificationFailed d)).
Proof.
  unfold attempt.
  destruct (writeBytes _ tempFile EmptyString) as [created|]; [|done].
  destruct (respond env (requests w) url) as [location|body|code| |]; try done.
  - destruct (redirect location _) as [w'' [e|v]] eqn:E; intros [= <- <-].
    eauto.
  - destruct (writeBytes created tempFile body) as [written|]; [|done].
    destruct (rename written tempFile destination); [done|].
    by destruct (copyFileSync written tempFile destination).
Qed.

Lemma attempts_hash_failure env redirect url destination tempFile expected :
  (forall location w0 w1 d,
     redirect location w0 = (w1, inl (HashVerificationFailed d)) ->
     d = destination /\ leftCorrupt env destination expected w1) ->
  forall left w w' d,
    attempts env redirect url destination tempFile expected left w
      = (w', inl (HashVerificationFailed d)) ->
    d = destination /\ leftCorrupt env destination expected w'.
Proof.
  intros Hredirect. induction left as [|left IH]; intros w w' d; simpl;
    destruct (attempt env redirect url destination tempFile w) as [w1 r] eqn:Ea;
    destruct r as [e|[]].
  - intros [= <- ->]. apply attempt_hash_failure in Ea as (l & w0 & Hr).
    by eapply Hredirect.
  - destruct (verifyDownloaded env destination expected w1) as [e|[]] eqn:Ev;
      intros [= <- ->]. by apply verifyDownloaded_hash_failure.
  - apply IH.
  - destruct (verifyDownloaded env destination expected w1) as [e|[]] eqn:Ev;
      [apply IH|done].
Qed.

(** utils.js: a call that ends with the hash failure leaves, at the
    destination, a file whose digest is not the expected one. *)
Lemma downloadFile_hash_failure env retries :
  forall url destination expected w w' d,
    downloadFile env retries url destination expected w
      = (w', inl (HashVerificationFailed d)) ->
    d = destination /\ leftCorrupt env destination expected w'.
Proof.
  induction retries as [|fewer IH]; intros url destination expected w w' d;
    simpl;
    destruct (alreadyValid env destination expected _) as [e|[|]] eqn:Ev;
    try done;
    try (apply alreadyValid_error in Ev as ->; done).
  apply attempts_hash_failure. intros location w0 w1 d'. apply IH.
Qed.

Lemma requestOnce_hash_failure env redirect url destination tempFile w w' d :
  Launcher.requestOnce env redirect url destination tempFile w
    = Some (w', inl (HashVerificationFailed d)) ->
  exists location w0,
    redirect location w0 = Some (w', inl (HashVerificationFailed d)).
Proof.
  unfold Launcher.requestOnce.
  destruct (writeBytes _ tempFile EmptyString) as [created|]; [|done].
  destruct (respond env (requests w) url) as [location|body|code| |]; try done.
  - destruct (redirect location _) as [[w'' [e|v]]|] eqn:E; intros [= <- <-].
    eauto.
  - destruct (writeBytes created tempFile body) as [written|]; [|done].
    by destruct (rename written tempFile destination).
Qed.

(** launcher.js: the same. *)
Lemma launcher_downloadFile_hash_failure env depth :
  forall url destination expected w w' d,
    Launcher.downloadFile env depth url destination expected w
      = Some (w', inl (HashVerificationFailed d)) ->
    d = destination /\ leftCorrupt env destination expected w'.
Proof.
  induction depth as [|depth IH]; intros url destination expected w w' d;
    simpl;
    destruct (alreadyValid env destination expected w) as [e|[|]] eqn:Ev;
    try done;
    try (apply alreadyValid_error in Ev as ->; done).
  destruct (Launcher.requestOnce env _ url destination _ w)
    as [[w1 [e|[]]]|] eqn:Er; [| |done].
  - intros [= <- ->].
    apply requestOnce_hash_failure in Er as (l & w0 & Hr). by eapply IH.
  - destruct (verifyDownloaded env destination expected w1) as [e|[]] eqn:Ec;
      intros [= <- ->]. by apply verifyDownloaded_hash_failure.
Qed.

(** *** A host that always sends a body with the wrong digest *)

Section WrongBody.

Variables (env : Env) (url destination tempFile h body : string).

Hypothesis truthy_h : Js.truthy h = true.
Hypothesis always_body : forall n, respond env n url = Success body.
Hypothesis wrong_digest :
  Js.toLowerCase (sha1 env body) <> Js.toLowerCase h.
Hypothesis temp_other : tempFile <> destination.

#[local] Abbreviation ready := (Utils.ready destination tempFile).
#[local] Abbreviation stored := (Utils.stored destination body).

Lemma stored_ready w n : ready w -> ready (stored w n).
Proof.
  intros (Hd & _ & Ht & Hfree). unfold Utils.ready, Utils.stored. simpl.
  split_and!; [done| |done|].
  - by rewrite lookup_insert_eq.
  - by rewrite lookup_insert_ne.
Qed.

Lemma stored_stored w n k : stored (stored w n) k = stored w (n + k).
Proof.
  unfold Utils.stored. simpl. rewrite insert_insert_eq. f_equal. lia.
Qed.

Lemma attempt_stores redirect w :
  ready w ->
  attempt env redirect url destination tempFile w = (stored w 1, inr tt).
Proof.
  intros (Hd & Hdir & Ht & Hfree). unfold attempt. simpl.
  rewrite always_body.
  rewrite (writeBytes_writable _ tempFile EmptyString) by (by rewrite ?Hfree).
  rewrite writeBytes_writable; simpl;
    [|done|by rewrite lookup_insert_eq].
  unfold rename, readBytes, unlink. simpl. rewrite lookup_insert_eq.
  rewrite insert_insert_eq, delete_insert_eq, (delete_id _ _ Hfree).
  rewrite writeBytes_writable by done. simpl.
  unfold withFs, Utils.stored. simpl. do 2 f_equal. lia.
Qed.

Lemma verify_stored w n :
  verifyDownloaded env destination (Some h) (stored w n)
  = inl (HashVerificationFailed destination).
Proof.
  unfold verifyDownloaded. rewrite truthy_h.
  destruct (verifyHash (sha1 env) (fs (stored w n)) destination h)
    as [[|]|] eqn:E; [| done |].
  - apply VerifyFacts.verifyHash_true_iff in E as (bytes & Hb & He).
    apply readBytes_Some in Hb. simpl in Hb.
    rewrite lookup_insert_eq in Hb. by injection Hb as <-.
  - unfold verifyHash, createReadStream, readBytes in E. simpl in E.
    by rewrite lookup_insert_eq in E.
Qed.

Lemma attempts_all_fail redirect : forall left w,
  ready w ->
  attempts env redirect url destination tempFile (Some h) left w
  = (stored w (S left), inl (HashVerificationFailed destination)).
Proof.
  induction left as [|left IH]; intros w Hready; cbn [attempts];
    rewrite (attempt_stores redirect w Hready); cbv beta iota zeta;
    rewrite verify_stored.
  - done.
  - rewrite IH by (by apply stored_ready). by rewrite stored_stored.
Qed.

Lemma alreadyValid_not_yet w :
  ready w ->
  (forall bytes, readBytes (fs w) destination = Some bytes ->
                 Js.toLowerCase (sha1 env bytes) <> Js.toLowerCase h) ->
  alreadyValid env destination (Some h) w = inr false.
Proof.
  intros (_ & Hdir & _) Hinvalid. unfold alreadyValid. rewrite truthy_h. simpl.
  destruct (existsSync (fs w) destination) eqn:Ee; [|done].
  destruct (verifyHash (sha1 env) (fs w) destination h) as [[|]|] eqn:E.
  - apply VerifyFacts.verifyHash_true_iff in E as (bytes & Hb & He).
    by destruct (Hinvalid bytes Hb).
  - done.
  - exfalso. apply existsSync_true in Ee as [entry He].
    unfold verifyHash, createReadStream, readBytes in E. rewrite He in E.
    destruct entry; [done|]. by apply Hdir.
Qed.

End WrongBody.




End DownloadFacts.

(** ** Batch download *)

Module PoolFacts.
Import Utils.

Lemma iter_processNext n : forall q started rs es,
  n <= length q ->
  Nat.iter n processNext
    {| queue := q; inProgress := started; results := rs; errors := es |}
  = {| queue := drop n q; inProgress := started ++ take n q;
       results := rs; errors := es |}.
Proof.
  induction n as [|n IH]; intros q started rs es Hn; simpl.
  - by rewrite drop_0, take_0, app_nil_r.
  - rewrite IH by lia. unfold processNext. simpl.
    destruct (lookup_lt_is_Some_2 q n) as [x Hx]; [lia|].
    rewrite (drop_S _ _ _ Hx), (take_S_r _ _ _ Hx). by rewrite app_assoc.
Qed.

Lemma start_shape files k :
  start files k =
  {| queue := drop (Nat.min k (length files)) files;
     inProgress := take (Nat.min k (length files)) files;
     results := []; errors := [] |}.
Proof. unfold start. rewrite iter_processNext by lia. done. Qed.

Lemma invariant_start files k : invariant files k (start files k).
Proof.
  rewrite start_shape. unfold invariant, settled. simpl.
  split_and!.
  - by rewrite take_drop.
  - rewrite length_take. lia.
  - intros Hq. rewrite length_take.
    destruct (decide (k <= length files)); [lia|].
    exfalso. apply Hq. apply drop_ge. lia.
Qed.

Lemma invariant_step files k p p' :
  invariant files k p -> step p p' -> invariant files k p'.
Proof.
  intros (Hperm & Hle & Hfull) Hstep.
  destruct Hstep as [p before file after outcome Hin].
  rewrite Hin in Hperm, Hle, Hfull. rewrite length_app in Hle, Hfull.
  simpl in Hle, Hfull. unfold settled in Hperm.
  unfold invariant, settle, settled, processNext.
  destruct outcome as [error|result]; simpl;
    destruct (queue p) as [|next rest] eqn:Eq; simpl;
    rewrite ?fmap_app, ?length_app; simpl.
  all: split_and!; try (intros ?; try done); try (specialize (Hfull ltac:(done)));
    try lia.
  all: rewrite <- Hperm; solve_Permutation.
Qed.

Lemma reachable_invariant files k p :
  reachable files k p -> invariant files k p.
Proof.
  induction 1 as [|p p' _ IH Hstep];
    [apply invariant_start|by eapply invariant_step].
Qed.

(** Every started download can settle, and a turn of the loop leaves fewer
    tasks to settle: a run ends after at most [length files] turns. *)
Lemma step_progress p :
  ~ completed p -> exists p', step p p'.
Proof.
  unfold completed. destruct (inProgress p) as [|file after] eqn:E; [done|].
  intros _. exists (settle p [] after file (inr Undefined)).
  by apply step_settle.
Qed.

Lemma step_pending p p' : step p p' -> pending p' < pending p.
Proof.
  intros [p0 before file after outcome Hin]. unfold pending, settle, processNext.
  rewrite Hin, length_app. simpl.
  destruct outcome; simpl; destruct (queue p0); simpl;
    rewrite ?length_app; simpl; lia.
Qed.

Lemma run_completes p : exists p', rtc step p p' /\ completed p'.
Proof.
  remember (pending p) as n eqn:Hn. revert p Hn.
  induction n as [n IH] using lt_wf_ind. intros p ->.
  destruct (inProgress p) as [|file after] eqn:E.
  - exists p. split; [apply rtc_refl|exact E].
  - destruct (step_progress p) as [p1 Hstep].
    { unfold completed. by rewrite E. }
    destruct (IH (pending p1) (step_pending _ _ Hstep) p1 eq_refl)
      as (p' & Hrun & Hdone).
    exists p'. split; [by eapply rtc_l|done].
Qed.

Lemma settleAt_step p choice outcome :
  inProgress p <> [] -> step p (settleAt p choice outcome).
Proof.
  intros Hne. unfold settleAt.
  assert (Hlt : choice mod length (inProgress p) < length (inProgress p)).
  { apply Nat.mod_upper_bound. by destruct (inProgress p). }
  destruct (lookup_lt_is_Some_2 _ _ Hlt) as [file Hfile]. rewrite Hfile.
  apply step_settle. symmetry. by apply take_drop_middle.
Qed.

Lemma settleAt_idle p choice outcome :
  completed p -> settleAt p choice outcome = p.
Proof. unfold completed, settleAt. by intros ->. Qed.

Lemma drive_idle oracle : forall p, completed p -> drive oracle p = p.
Proof.
  induction oracle as [|[c o] oracle IH]; intros p Hp; [done|].
  unfold drive in *. simpl. rewrite settleAt_idle by done. by apply IH.
Qed.

Lemma drive_reachable files k oracle : forall p,
  reachable files k p -> reachable files k (drive oracle p).
Proof.
  induction oracle as [|[c o] oracle IH]; intros p Hp; [done|].
  unfold drive in *. simpl. apply IH.
  destruct (inProgress p) as [|file after] eqn:E.
  - by rewrite settleAt_idle.
  - eapply reach_step; [exact Hp|]. apply settleAt_step. by rewrite E.
Qed.

(** An oracle with as many turns as there are tasks to settle runs the
    call to its end. *)
Lemma drive_completes oracle : forall p,
  pending p <= length oracle -> completed (drive oracle p).
Proof.
  induction oracle as [|[c o] oracle IH]; intros p Hp.
  - unfold completed, pending in *. simpl in *.
    destruct (inProgress p); [done|simpl in Hp; lia].
  - destruct (inProgress p) as [|file after] eqn:E.
    + by rewrite drive_idle.
    + unfold drive in *. simpl. apply IH.
      assert (Hstep : step p (settleAt p c o))
        by (apply settleAt_step; by rewrite E).
      apply step_pending in Hstep. simpl in Hp. lia.
Qed.

Lemma start_pending files k : pending (start files k) = length files.
Proof.
  rewrite start_shape. unfold pending. simpl.
  rewrite length_take, length_drop. lia.
Qed.




End PoolFacts.

(** ** Properties of strings *)

Module TextFacts.
Import NodeFacts JsString.

Lemma split_nonempty sep s : Js.split sep s <> [].
Proof.
  destruct s as [|c s]; simpl; [done|].
  destruct (Ascii.eqb c sep); [done|]. by destruct (Js.split sep s).
Qed.

Lemma split_app sep (a b : string) :
  Js.split sep (a ++ String sep b) =
  (Js.split sep a ++ Js.split sep b)%list.
Proof.
  induction a as [|c a IH].
  - simpl. by rewrite Ascii.eqb_refl.
  - rewrite append_cons. cbn [Js.split]. rewrite IH.
    destruct (Ascii.eqb c sep); [done|].
    destruct (Js.split sep a) as [|p ps] eqn:E; [|done].
    by destruct (split_nonempty sep a).
Qed.

Lemma split_without sep s : without sep s = true -> Js.split sep s = [s].
Proof.
  induction s as [|c s IH]; simpl; [done|].
  rewrite Ascii.eqb_sym. destruct (Ascii.eqb sep c); [done|]. simpl.
  intros H. by rewrite IH.
Qed.

(** The parts of a split, joined again, give the string back. *)
Lemma concat_split sep s :
  String.concat (String sep EmptyString) (Js.split sep s) = s.
Proof.
  induction s as [|c s IH]; [done|]. cbn [Js.split].
  destruct (Ascii.eqb_spec c sep) as [->|Hne].
  - pose proof (split_nonempty sep s) as Hs.
    destruct (Js.split sep s) as [|p ps]; [done|].
    cbn [String.concat]. cbn [String.concat] in IH. by rewrite IH.
  - destruct (Js.split sep s) as [|p ps] eqn:E.
    + by destruct (split_nonempty sep s).
    + cbn [String.concat] in IH |- *. destruct ps; rewrite <- IH; done.
Qed.

Lemma prefix_drop n s : Js.prefix n s ++ drop n s = s.
Proof.
  revert s. induction n as [|n IH]; intros [|c s]; try done.
  simpl. rewrite append_cons. by rewrite IH.
Qed.

Lemma drop_drop a b s : drop a (drop b s) = drop (b + a) s.
Proof.
  revert s. induction b as [|b IH]; intros s; [done|].
  destruct s as [|c s]; simpl; [by destruct a|]. apply IH.
Qed.

Lemma length_prefix n s :
  n <= String.length s -> String.length (Js.prefix n s) = n.
Proof.
  revert s. induction n as [|n IH]; intros [|c s]; simpl; try done; [lia|].
  intros H. rewrite IH; [done|lia].
Qed.

Lemma length_drop n s : String.length (drop n s) = String.length s - n.
Proof.
  revert s. induction n as [|n IH]; intros [|c s]; simpl; try done.
Qed.

Lemma length_append (a b : string) :
  String.length (a ++ b) = String.length a + String.length b.
Proof.
  induction a as [|c a IH]; [done|]. rewrite append_cons. simpl. by rewrite IH.
Qed.

Lemma without_app c (a b : string) :
  without c (a ++ b) = without c a && without c b.
Proof.
  induction a as [|x a IH]; [done|]. rewrite append_cons. simpl.
  rewrite IH. by rewrite andb_assoc.
Qed.

End TextFacts.

(** ** What a download guarantees *)

Module DownloadSoundness.
Import Node NodeFacts Utils Download.

Lemma verifyDownloaded_verified env destination h w :
  Js.truthy h = true ->
  verifyDownloaded env destination (Some h) w = inr tt ->
  verified env destination h w.
Proof.
  intros Ht. unfold verifyDownloaded. rewrite Ht.
  destruct (verifyHash (sha1 env) (fs w) destination h) as [[|]|] eqn:E; try done.
  intros _. by apply VerifyFacts.verifyHash_true_iff in E.
Qed.

Lemma alreadyValid_verified env destination h w :
  alreadyValid env destination (Some h) w = inr true ->
  verified env destination h w.
Proof.
  unfold alreadyValid.
  destruct (Js.truthy h && existsSync (fs w) destination); [|done].
  destruct (verifyHash (sha1 env) (fs w) destination h) as [[|]|] eqn:E; try done.
  intros _. by apply VerifyFacts.verifyHash_true_iff in E.
Qed.

Lemma verified_alreadyValid env destination h w :
  Js.truthy h = true ->
  verified env destination h w ->
  alreadyValid env destination (Some h) w = inr true.
Proof.
  intros Ht Hv. unfold alreadyValid. rewrite Ht. simpl.
  destruct Hv as (bytes & Hb & He).
  rewrite (readBytes_exists _ _ _ Hb).
  assert (verifyHash (sha1 env) (fs w) destination h = Some true) as ->; [|done].
  apply VerifyFacts.verifyHash_true_iff. by exists bytes.
Qed.

Lemma attempts_success env redirect url destination tempFile h :
  Js.truthy h = true ->
  forall left w w' v,
    attempts env redirect url destination tempFile (Some h) left w = (w', inr v) ->
    v = Downloaded destination /\ verified env destination h w'.
Proof.
  intros Ht. induction left as [|left IH]; intros w w' v; cbn [attempts];
    destruct (attempt env redirect url destination tempFile w) as [w1 r] eqn:Ea;
    destruct r as [e|[]]; cbv beta iota zeta.
  - done.
  - destruct (verifyDownloaded env destination (Some h) w1) as [e|[]] eqn:Ev;
      [done|]. intros [= <- <-]. split; [done|].
    by apply verifyDownloaded_verified.
  - apply IH.
  - destruct (verifyDownloaded env destination (Some h) w1) as [e|[]] eqn:Ev;
      [apply IH|]. intros [= <- <-]. split; [done|].
    by apply verifyDownloaded_verified.
Qed.

(** X1: when [downloadFile] of utils.js is given an expected hash and at
    least one attempt, and resolves, it resolves with [skipped] or
    [downloaded], and the destination then holds a file whose SHA-1 digest
    is the expected hash, up to the case of the letters. *)
Theorem download_success_is_verified env retries url destination h w w' v :
  0 < retries ->
  Js.truthy h = true ->
  downloadFile env retries url destination (Some h) w = (w', inr v) ->
  (v = Skipped destination \/ v = Downloaded destination) /\
  exists bytes, readBytes (fs w') destination = Some bytes /\
                Js.toLowerCase (sha1 env bytes) = Js.toLowerCase h.
Proof.
  intros Hpos Ht. destruct retries as [|fewer]; [lia|]. cbn [downloadFile].
  destruct (alreadyValid env destination (Some h) _) as [e|[|]] eqn:Ev; [done| |].
  - intros [= <- <-]. split; [by left|].
    by apply alreadyValid_verified in Ev.
  - intros Ha. apply attempts_success in Ha as [-> Hv]; [|done].
    split; [by right|done].
Qed.

Lemma download_success_is_verified_witness :
  let destination := "libraries/com/example/foo/1.0/foo-1.0.jar" in
  let r := downloadFile (steadyHost "jar") 3 "https://repo.example/foo-1.0.jar"
             destination (Some (Sha1.hex "jar")) emptyWorld in
  r.2 = inr (Downloaded destination) /\
  exists bytes, readBytes (fs r.1) destination = Some bytes /\
                Js.toLowerCase (Sha1.hex bytes) = Js.toLowerCase (Sha1.hex "jar").
Proof.
  cbv zeta.
  set (r := downloadFile (steadyHost "jar") 3 "https://repo.example/foo-1.0.jar"
              "libraries/com/example/foo/1.0/foo-1.0.jar"
              (Some (Sha1.hex "jar")) emptyWorld).
  assert (E : r = (r.1, inr (Downloaded "libraries/com/example/foo/1.0/foo-1.0.jar")))
    by (vm_compute; reflexivity).
  split; [by rewrite E|].
  refine (proj2 (download_success_is_verified (steadyHost "jar") 3 _ _ _ _ _ _
                   _ _ E)); [lia|vm_compute; reflexivity].
Defined.

Lemma launcher_download_success env depth url destination h w w' v :
  Js.truthy h = true ->
  Launcher.downloadFile env depth url destination (Some h) w = Some (w', inr v) ->
  (v = Skipped destination \/ v = Downloaded destination) /\
  verified env destination h w'.
Proof.
  intros Ht. destruct depth as [|depth]; cbn [Launcher.downloadFile];
    destruct (alreadyValid env destination (Some h) w) as [e|[|]] eqn:Ev;
    try done;
    try (intros [= <- <-]; split; [by left|by apply alreadyValid_verified]).
  destruct (Launcher.requestOnce env _ url destination _ w)
    as [[w1 [e|[]]]|] eqn:Er; [done| |done].
  destruct (verifyDownloaded env destination (Some h) w1) as [e|[]] eqn:Ec;
    [done|]. intros [= <- <-]. split; [by right|].
  by apply verifyDownloaded_verified.
Qed.

(** X2: when [downloadFile] of launcher.js is given an expected hash and
    resolves, the destination holds a file whose SHA-1 digest is the
    expected hash, up to the case of the letters. *)
Theorem launcher_download_success_is_verified
    env depth url destination h w w' v :
  Js.truthy h = true ->
  Launcher.downloadFile env depth url destination (Some h) w = Some (w', inr v) ->
  (v = Skipped destination \/ v = Downloaded destination) /\
  exists bytes, readBytes (fs w') destination = Some bytes /\
                Js.toLowerCase (sha1 env bytes) = Js.toLowerCase h.
Proof. apply launcher_download_success. Qed.

Lemma launcher_download_success_is_verified_witness :
  let destination := "versions/1.20.4/1.20.4.jar" in
  exists w',
    Launcher.downloadFile (steadyHost "jar") 1 "https://piston.example/client.jar"
      destination (Some (Sha1.hex "jar")) emptyWorld
    = Some (w', inr (Downloaded destination)) /\
    exists bytes, readBytes (fs w') destination = Some bytes /\
                  Js.toLowerCase (Sha1.hex bytes) = Js.toLowerCase (Sha1.hex "jar").
Proof.
  cbv zeta.
  destruct (Launcher.downloadFile (steadyHost "jar") 1
              "https://piston.example/client.jar" "versions/1.20.4/1.20.4.jar"
              (Some (Sha1.hex "jar")) emptyWorld) as [[w' r]|] eqn:E;
    [|vm_compute in E; discriminate].
  assert (Hr : r = inr (Downloaded "versions/1.20.4/1.20.4.jar")).
  { vm_compute in E. by injection E as _ <-. }
  subst r. exists w'. split; [done|].
  refine (proj2 (launcher_download_success_is_verified (steadyHost "jar") 1 _ _ _
                   _ _ _ _ E)).
  vm_compute; reflexivity.
Defined.

(** X3: after a call of [downloadFile] of utils.js that resolved for an
    expected hash, every further call for the same destination and hash is
    skipped: it makes no request and leaves the tree as it is, whatever the
    URL and the number of retries. *)
Theorem verified_download_is_skipped env retries url destination h w w' v :
  0 < retries ->
  Js.truthy h = true ->
  downloadFile env retries url destination (Some h) w = (w', inr v) ->
  forall retries' url',
    let again := downloadFile env retries' url' destination (Some h) w' in
    again.2 = inr (Skipped destination) /\
    fs again.1 = fs w' /\
    requests again.1 = requests w'.
Proof.
  intros Hpos Ht Hd retries' url' again.
  assert (Hv : verified env destination h w').
  { destruct retries as [|fewer]; [lia|]. cbn [downloadFile] in Hd.
    destruct (alreadyValid env destination (Some h) _) as [e|[|]] eqn:Ev;
      [done| |].
    - injection Hd as <- <-. by apply alreadyValid_verified in Ev.
    - by apply attempts_success in Hd as [_ Hv]. }
  subst again. destruct retries'; cbn [downloadFile];
    rewrite (verified_alreadyValid env destination h _ Ht) by exact Hv; done.
Qed.

Lemma verified_download_is_skipped_witness :
  let destination := "assets/objects/a9/a9993e36" in
  let first := downloadFile (steadyHost "abc") 3 "https://resources.example/a9"
                 destination (Some (Sha1.hex "abc")) emptyWorld in
  let again := downloadFile (steadyHost "abc") 0 "https://elsewhere.example/"
                 destination (Some (Sha1.hex "abc")) first.1 in
  again.2 = inr (Skipped destination) /\
  fs again.1 = fs first.1 /\
  requests again.1 = requests first.1.
Proof.
  cbv zeta.
  set (first := downloadFile (steadyHost "abc") 3 "https://resources.example/a9"
                  "assets/objects/a9/a9993e36" (Some (Sha1.hex "abc")) emptyWorld).
  assert (E : first = (first.1, inr (Downloaded "assets/objects/a9/a9993e36")))
    by (vm_compute; reflexivity).
  refine (verified_download_is_skipped (steadyHost "abc") 3 _ _ _ _ _ _ _ _ E
            0 "https://elsewhere.example/"); [lia|vm_compute; reflexivity].
Defined.

Lemma attempts_first env redirect url destination tempFile expected left w w1 :
  attempt env redirect url destination tempFile w = (w1, inr tt) ->
  verifyDownloaded env destination expected w1 = inr tt ->
  attempts env redirect url destination tempFile expected left w
  = (w1, inr (Downloaded destination)).
Proof. intros Ha Hv. destruct left; cbn [attempts]; by rewrite Ha, Hv. Qed.

Lemma fs_eta (t : Fs) : {| entries := entries t; readonly := readonly t |} = t.
Proof. by destruct t. Qed.

(** The temporary file is created and removed again. *)
Lemma unlink_created t p created :
  (p ∉ readonly t) -> entries t !! p = None ->
  writeBytes t p EmptyString = Some created ->
  unlink created p = t.
Proof.
  intros Hw Hfree Hc. apply writeBytes_Some in Hc as (-> & _ & _).
  unfold unlink. simpl. rewrite delete_insert_eq, (delete_id _ _ Hfree).
  apply fs_eta.
Qed.

Section AlwaysRedirect.

Variables (env : Env) (destination : string) (tree : Fs).

Hypothesis always_redirect : forall n u, exists l, respond env n u = Redirect l.
Hypothesis temp_free : forall k,
  let tempFile := destination ++ ".tmp-" ++ stamp env k in
  (tempFile ∉ readonly tree) /\ entries tree !! tempFile = None.

Lemma redirect_chain r : forall url requests calls,
  downloadFile env r url destination None
    {| fs := tree; requests := requests; calls := calls |}
  = ({| fs := tree; requests := requests + r; calls := calls + S r |},
     inr (match r with O => Undefined | S _ => Downloaded destination end)).
Proof.
  induction r as [|fewer IH]; intros url n c; cbn [downloadFile alreadyValid].
  - simpl. do 2 f_equal; lia.
  - apply attempts_first; [|done].
    unfold attempt. cbn [Utils.requests Utils.fs Utils.calls].
    destruct (always_redirect n url) as [l ->].
    destruct (temp_free c) as [Hw Hfree].
    rewrite (writeBytes_writable _ _ EmptyString) by (by rewrite ?Hfree).
    unfold withFs. cbn [Utils.requests Utils.fs Utils.calls].
    rewrite (unlink_created tree) by
      (try done; by apply writeBytes_writable; rewrite ?Hfree).
    rewrite IH. destruct fewer; do 2 f_equal; lia.
Qed.

End AlwaysRedirect.

Section RedirectLoop.

Variables (env : Env) (destination : string) (expected : option string)
  (tree : Fs).

Hypothesis always_redirect : forall n u, exists l, respond env n u = Redirect l.
Hypothesis temp_free :
  (destination ++ ".tmp" ∉ readonly tree) /\
  entries tree !! (destination ++ ".tmp") = None.
Hypothesis not_valid : forall n c,
  alreadyValid env destination expected
    {| fs := tree; requests := n; calls := c |} = inr false.

Lemma redirect_loop depth : forall url n c,
  Launcher.downloadFile env depth url destination expected
    {| fs := tree; requests := n; calls := c |} = None.
Proof.
  induction depth as [|depth IH]; intros url n c;
    cbn [Launcher.downloadFile]; rewrite not_valid; [done|].
  unfold Launcher.requestOnce. cbn [Utils.requests Utils.fs Utils.calls].
  destruct (always_redirect n url) as [l ->].
  destruct temp_free as [Hw Hfree].
  rewrite (writeBytes_writable _ _ EmptyString) by (by rewrite ?Hfree).
  unfold withFs. cbn [Utils.requests Utils.fs Utils.calls].
  rewrite (unlink_created tree) by
    (try done; by apply writeBytes_writable; rewrite ?Hfree).
  by rewrite IH.
Qed.

End RedirectLoop.

Lemma alreadyValid_tree env destination expected w n c :
  alreadyValid env destination expected {| fs := fs w; requests := n; calls := c |}
  = alreadyValid env destination expected w.
Proof. done. Qed.

Lemma world_eta (w : World) :
  {| fs := fs w; requests := requests w; calls := calls w |} = w.
Proof. by destruct w. Qed.



(** X5: [downloadFile] of launcher.js follows redirects without a limit:
    when every answer is a redirect and the destination does not hold a
    valid file, the call does not settle, however many redirects are
    followed. *)
Theorem launcher_follows_redirects_forever env destination expected w :
  (forall n u, exists l, respond env n u = Redirect l) ->
  (destination ++ ".tmp" ∉ readonly (fs w)) ->
  entries (fs w) !! (destination ++ ".tmp") = None ->
  alreadyValid env destination expected w = inr false ->
  forall depth url,
    Launcher.downloadFile env depth url destination expected w = None.
Proof.
  intros Hred Hw Hfree Hnot depth url.
  rewrite <- (world_eta w).
  apply (redirect_loop env destination expected (fs w)); [done|done|].
  intros n c. by rewrite alreadyValid_tree.
Qed.

Lemma launcher_follows_redirects_forever_witness :
  Launcher.downloadFile redirectingHost 40 "https://repo.example/foo-1.0.jar"
    "libraries/com/example/foo/1.0/foo-1.0.jar" (Some (Sha1.hex "jar"))
    emptyWorld = None.
Proof.
  apply (launcher_follows_redirects_forever redirectingHost
           "libraries/com/example/foo/1.0/foo-1.0.jar" (Some (Sha1.hex "jar"))
           emptyWorld).
  - intros n u. by eexists.
  - apply not_elem_of_empty.
  - apply lookup_empty.
  - reflexivity.
Defined.

End DownloadSoundness.

(** ** What a download leaves alone *)

Module FrameFacts.
Import Node NodeFacts Utils Download.

Lemma entries_unlink t p q :
  entries (unlink t p) !! q = if decide (q = p) then None else entries t !! q.
Proof.
  unfold unlink. simpl. destruct (decide (q = p)) as [->|Hne].
  - apply lookup_delete_eq.
  - by apply lookup_delete_ne.
Qed.

Lemma writeBytes_entries t p b t' :
  writeBytes t p b = Some t' ->
  readonly t' = readonly t /\
  forall q, entries t' !! q = if decide (q = p) then Some (File b) else entries t !! q.
Proof.
  intros (-> & _ & _)%writeBytes_Some. split; [done|]. intros q. simpl.
  destruct (decide (q = p)) as [->|Hne].
  - apply lookup_insert_eq.
  - by apply lookup_insert_ne.
Qed.

Lemma rename_entries t from to t' :
  rename t from to = Some t' ->
  readonly t' = readonly t /\
  forall q, q <> to ->
    entries t' !! q = if decide (q = from) then None else entries t !! q.
Proof.
  unfold rename. destruct (readBytes t from) as [bytes|]; [|done].
  destruct (writeBytes (unlink t from) to bytes) as [t1|] eqn:E; [|done].
  intros [= <-]. apply writeBytes_entries in E as [Hro He].
  split; [done|]. intros q Hq. rewrite He, decide_False by done.
  apply entries_unlink.
Qed.

Lemma copyFileSync_entries t src dest t' :
  copyFileSync t src dest = Some t' ->
  readonly t' = readonly t /\
  forall q, q <> dest -> entries t' !! q = entries t !! q.
Proof.
  unfold copyFileSync. destruct (readBytes t src) as [bytes|]; [|done].
  intros [Hro He]%writeBytes_entries. split; [done|].
  intros q Hq. by rewrite He, decide_False.
Qed.

Section Frame.

Variables (env : Env) (destination : string) (t0 : Fs).
Hypothesis temp_free : tempFree env destination t0.

#[local] Abbreviation frame := (Download.frame destination t0).

Lemma frame_unlink t k :
  frame t -> frame (unlink t (destination ++ ".tmp-" ++ stamp env k)).
Proof.
  intros [Hro He]. split; [done|]. intros q Hq. rewrite entries_unlink.
  destruct (decide _) as [->|]; [|by apply He].
  symmetry. apply temp_free.
Qed.

Lemma frame_unlink_written t k b t' :
  frame t -> writeBytes t (destination ++ ".tmp-" ++ stamp env k) b = Some t' ->
  frame (unlink t' (destination ++ ".tmp-" ++ stamp env k)).
Proof.
  intros [Hro He] [Hro' He']%writeBytes_entries. split; [by rewrite <- Hro|].
  intros q Hq. rewrite entries_unlink.
  destruct (decide _) as [->|Hne].
  - symmetry. apply temp_free.
  - rewrite He', decide_False by done. by apply He.
Qed.

Lemma attempt_frame redirect url k w :
  (forall l w1, frame (fs w1) -> frame (fs (redirect l w1).1)) ->
  frame (fs w) ->
  frame (fs (attempt env redirect url destination
               (destination ++ ".tmp-" ++ stamp env k) w).1).
Proof.
  intros Hredirect Hw. unfold attempt. cbn [Utils.fs Utils.requests].
  set (tempFile := destination ++ ".tmp-" ++ stamp env k).
  assert (Hother : tempFile <> destination) by apply DownloadFacts.append_longer.
  destruct (writeBytes (fs w) tempFile EmptyString) as [created|] eqn:Ec.
  2:{ simpl. by apply frame_unlink. }
  assert (Hclean : frame (unlink created tempFile))
    by (by eapply frame_unlink_written).
  destruct (respond env (requests w) url) as [location|body|code| |];
    try exact Hclean.
  - specialize (Hredirect location
      (withFs {| fs := fs w; requests := S (requests w); calls := calls w |}
              (unlink created tempFile)) Hclean).
    by destruct (redirect location _) as [w' r].
  - destruct (writeBytes created tempFile body) as [written|] eqn:Ew;
      [|exact Hclean].
    assert (Hwritten : frame (unlink written tempFile)).
    { destruct Hclean as [Hro He].
      apply writeBytes_entries in Ew as [Hro' He']. split; [by rewrite <- Hro|].
      intros q Hq. specialize (He q Hq). rewrite entries_unlink in He |- *.
      destruct (decide (q = tempFile)); [done|].
      by rewrite He', decide_False. }
    destruct (rename written tempFile destination) as [moved|] eqn:Em.
    + simpl. apply rename_entries in Em as [Hro He].
      destruct Hwritten as [Hro' He']. split; [by rewrite Hro|].
      intros q Hq. rewrite He by done. specialize (He' q Hq).
      by rewrite entries_unlink in He'.
    + destruct (copyFileSync written tempFile destination) as [copied|] eqn:Ecp;
        [|exact Hwritten].
      simpl. apply copyFileSync_entries in Ecp as [Hro He].
      destruct Hwritten as [Hro' He']. split; [simpl in *; congruence|].
      intros q Hq. specialize (He' q Hq). rewrite entries_unlink in He' |- *.
      destruct (decide (q = tempFile)); [done|]. by rewrite He.
Qed.

Lemma attempts_frame redirect url k expected :
  (forall l w1, frame (fs w1) -> frame (fs (redirect l w1).1)) ->
  forall left w,
    frame (fs w) ->
    frame (fs (attempts env redirect url destination
                 (destination ++ ".tmp-" ++ stamp env k) expected left w).1).
Proof.
  intros Hredirect. induction left as [|left IH]; intros w Hw; cbn [attempts];
    pose proof (attempt_frame redirect url k w Hredirect Hw) as Ha;
    destruct (attempt env redirect url destination _ w) as [w1 r];
    destruct r as [e|[]]; cbv beta iota zeta; try exact Ha.
  - by destruct (verifyDownloaded env destination expected w1).
  - by apply IH.
  - destruct (verifyDownloaded env destination expected w1); [by apply IH|done].
Qed.

Lemma downloadFile_frame retries : forall url expected w,
  frame (fs w) ->
  frame (fs (downloadFile env retries url destination expected w).1).
Proof.
  induction retries as [|fewer IH]; intros url expected w Hw;
    cbn [downloadFile];
    destruct (alreadyValid env destination expected _) as [e|[|]]; try done.
  apply attempts_frame; [|done]. intros l w1. apply IH.
Qed.

End Frame.



End FrameFacts.

(** ** Requests with retries and a fallback *)

Module HttpFacts.
Import Utils Http.

(** Attempts that are rejected one after the other. *)
Lemma getAttempts_failures env redirect fallback url : forall k left n,
  (forall i, i < k -> is_Some (rejection (respond env (n + i) url))) ->
  getAttempts env redirect fallback url (k + left) n
  = getAttempts env redirect fallback url left (n + k).
Proof.
  induction k as [|k IH]; intros left n Hfail.
  - by rewrite Nat.add_0_r.
  - cbn [Nat.add getAttempts].
    destruct (Hfail 0 ltac:(lia)) as [err Herr]. rewrite Nat.add_0_r in Herr.
    destruct (respond env n url) as [l|data|code| |]; try discriminate;
      cbv beta iota zeta;
      (rewrite IH; [f_equal; lia|];
       intros i Hi; replace (S n + i) with (n + S i) by lia;
       apply Hfail; lia).
Qed.

Lemma getAttempts_success env redirect fallback url left n data :
  respond env n url = Success data ->
  getAttempts env redirect fallback url left n = (S n, inr (Some data)).
Proof. intros H. destruct left; cbn [getAttempts]; by rewrite H. Qed.

Lemma getAttempts_last env redirect fallback url n err :
  rejection (respond env n url) = Some err ->
  getAttempts env redirect fallback url 0 n =
  match fallback with
  | Some call =>
      let '(n2, r2) := call (S n) in
      match r2 with
      | inr data => (n2, inr data)
      | inl _ => (n2, inl err)
      end
  | None => (S n, inl err)
  end.
Proof.
  intros H. cbn [getAttempts].
  destruct (respond env n url) as [l|data|code| |]; try discriminate;
    injection H as <-; done.
Qed.

Lemma getAttempts_redirect env redirect fallback url left n l m data :
  respond env n url = Redirect l ->
  redirect l (S n) = (m, inr data) ->
  getAttempts env redirect fallback url left n = (m, inr data).
Proof. intros H Hr. destruct left; cbn [getAttempts]; by rewrite H, Hr. Qed.

Lemma httpGetWith_always_redirect env fallback :
  (forall n u, exists l, respond env n u = Redirect l) ->
  forall r url n,
    httpGetWith env fallback r url n = (n + r, inr None).
Proof.
  intros Hred r. induction r as [|fewer IH]; intros url n;
    cbn [httpGetWith].
  - by rewrite Nat.add_0_r.
  - destruct (Hred n url) as [l Hl].
    apply (getAttempts_redirect _ _ _ _ _ _ l); [done|].
    rewrite IH. f_equal. lia.
Qed.

(** X7: [httpGet] resolves with the body of the first attempt that is
    answered with a 2xx status: the attempts rejected before it are retried,
    and no request is made after it. *)
Theorem httpGet_first_success env url fallbackUrl retries n k data :
  k < retries ->
  (forall i, i < k -> is_Some (rejection (respond env (n + i) url))) ->
  respond env (n + k) url = Success data ->
  httpGet env url fallbackUrl retries n = (n + S k, inr (Some data)).
Proof.
  intros Hk Hfail Hok. unfold httpGet. destruct retries as [|fewer]; [lia|].
  cbn [httpGetWith].
  match goal with
  | |- getAttempts _ ?r ?f _ _ _ = _ => generalize r f; intros red fbk
  end.
  replace fewer with (k + (fewer - k)) by lia.
  rewrite getAttempts_failures by done.
  rewrite (getAttempts_success _ _ _ _ _ _ data) by done.
  do 2 f_equal. lia.
Qed.

Lemma httpGet_first_success_witness :
  httpGet flakyHost "https://meta.example/v2/versions" None 3 0
  = (3, inr (Some "{}")).
Proof.
  apply (httpGet_first_success flakyHost "https://meta.example/v2/versions"
           None 3 0 2 "{}").
  - lia.
  - intros i Hi. destruct i as [|[|i]]; [by eexists|by eexists|lia].
  - reflexivity.
Defined.

(** X8: when every attempt on the primary URL is rejected, [httpGet] asks
    the fallback URL, with the same number of retries and no fallback of its
    own.  The answer of the fallback is the result; when the fallback is
    rejected too, the error thrown is the one of the last attempt on the
    primary URL, not the one of the fallback. *)
Theorem httpGet_fallback env url fallbackUrl retries n err :
  0 < retries ->
  Js.truthy fallbackUrl = true ->
  (forall i, i < retries -> is_Some (rejection (respond env (n + i) url))) ->
  rejection (respond env (n + (retries - 1)) url) = Some err ->
  httpGet env url (Some fallbackUrl) retries n =
  let '(n2, r2) := httpGet env fallbackUrl None retries (n + retries) in
  match r2 with
  | inr data => (n2, inr data)
  | inl _ => (n2, inl err)
  end.
Proof.
  intros Hpos Ht Hfail Hlast. unfold httpGet. rewrite Ht.
  destruct retries as [|fewer]; [lia|].
  cbn [httpGetWith option_map].
  match goal with
  | |- getAttempts _ ?r _ _ _ _ = _ => generalize r; intros red
  end.
  replace (S fewer - 1) with fewer in Hlast by lia.
  transitivity
    (getAttempts env red (Some (fun n0 => httpGetWith env None (S fewer) fallbackUrl n0))
       url 0 (n + fewer)).
  - rewrite <- getAttempts_failures by (intros i Hi; apply Hfail; lia).
    by rewrite Nat.add_0_r.
  - rewrite (getAttempts_last _ _ _ _ _ err) by done.
    replace (S (n + fewer)) with (n + S fewer) by lia. done.
Qed.

Lemma httpGet_fallback_witness :
  httpGet (mirroredHost "https://meta.example/loader")
    "https://meta.example/loader" (Some "https://mirror.example/loader") 3 0
  = (4, inr (Some "mirror")).
Proof.
  rewrite (httpGet_fallback (mirroredHost "https://meta.example/loader")
             "https://meta.example/loader" "https://mirror.example/loader"
             3 0 (StatusCode 503)).
  - reflexivity.
  - lia.
  - reflexivity.
  - intros i _. by eexists.
  - reflexivity.
Defined.

(** X9: when every answer is a redirect, [httpGet] makes [retries]
    requests, one for each call down to the one with no retries left, and
    then resolves with [undefined]: no error is thrown and the fallback URL
    is not asked. *)
Theorem httpGet_redirects_give_undefined env url fallbackUrl retries n :
  (forall n u, exists l, respond env n u = Redirect l) ->
  httpGet env url fallbackUrl retries n = (n + retries, inr None).
Proof. intros Hred. unfold httpGet. by apply httpGetWith_always_redirect. Qed.

Lemma httpGet_redirects_give_undefined_witness :
  httpGet Download.redirectingHost "https://meta.example/loader"
    (Some "https://mirror.example/loader") 3 0
  = (3, inr None).
Proof.
  apply (httpGet_redirects_give_undefined Download.redirectingHost
           "https://meta.example/loader" (Some "https://mirror.example/loader")
           3 0).
  intros n u. by eexists.
Defined.

End HttpFacts.

(** ** Libraries named by Maven coordinates *)

Module MavenFacts.
Import NodeFacts TextFacts JsString Maven.

Lemma split_replaceDots g :
  without "/" g = true -> Js.split "/" (replaceDots g) = Js.split "." g.
Proof.
  induction g as [|c g IH]; [done|]. cbn [without replaceDots Js.split].
  destruct (Ascii.eqb_spec c "/") as [->|Hslash]; [done|]. simpl.
  intros H. rewrite IH by done.
  destruct (Ascii.eqb_spec c ".") as [->|Hdot]; [done|].
  destruct (Ascii.eqb_spec c "/") as [|_]; [done|]. done.
Qed.

Lemma relativePath_split g a v :
  slashFree (g, a, v) ->
  Js.split "/" (relativePath (g, a, v)) =
  (Js.split "." g ++ [a; v; (a ++ "-" ++ v ++ ".jar")%string])%list.
Proof.
  intros (Hg & Ha & Hv). unfold relativePath.
  change ("/" ++ a ++ "/" ++ v ++ "/" ++ a ++ "-" ++ v ++ ".jar")
    with (String "/" (a ++ String "/" (v ++ String "/" (a ++ "-" ++ v ++ ".jar")))).
  rewrite !split_app, split_replaceDots by done.
  rewrite (split_without _ a), (split_without _ v) by done.
  rewrite (split_without _ (a ++ _)); [done|].
  rewrite !without_app, Ha, Hv. done.
Qed.

Lemma coordinates_more name extra c :
  coordinates name = Some c ->
  coordinates (name ++ String ":" extra) = Some c.
Proof.
  unfold coordinates. rewrite split_app.
  by destruct (Js.split ":" name) as [|g [|a [|v rest]]].
Qed.

(** X10: the path a library is stored under, as launcher.js derives it
    from the library's name, depends on the first three parts of the name
    only: two names get the same path exactly when they have the same
    group, artifact and version (none of them holding a slash), and a fourth
    part, such as a classifier, does not change the path. *)
Theorem library_path_identifies_coordinates
    (name1 name2 : string) (c1 c2 : string * string * string) :
  coordinates name1 = Some c1 ->
  coordinates name2 = Some c2 ->
  slashFree c1 -> slashFree c2 ->
  (libraryPath name1 = libraryPath name2 <-> c1 = c2) /\
  (forall extra, libraryPath (name1 ++ ":" ++ extra) = libraryPath name1).
Proof.
  intros H1 H2 S1 S2. split.
  - unfold libraryPath. rewrite H1, H2. simpl. split; [|by intros ->].
    intros [= Hp]. destruct c1 as [[g1 a1] v1], c2 as [[g2 a2] v2].
    apply (f_equal (Js.split "/")) in Hp.
    rewrite !relativePath_split in Hp by done.
    apply app_inj_2 in Hp as [Hg [= -> -> _]]; [|done].
    apply (f_equal (String.concat ".")) in Hg.
    rewrite !concat_split in Hg. by subst.
  - intros extra. unfold libraryPath.
    change (name1 ++ ":" ++ extra) with (name1 ++ String ":" extra).
    by rewrite (coordinates_more _ _ _ H1), H1.
Qed.

Lemma library_path_identifies_coordinates_witness :
  (libraryPath "org.ow2.asm:asm:9.6" = libraryPath "org.ow2.asm:asm-tree:9.6"
   <-> ("org.ow2.asm", "asm", "9.6") = ("org.ow2.asm", "asm-tree", "9.6")) /\
  (forall extra,
     libraryPath ("org.ow2.asm:asm:9.6" ++ ":" ++ extra)
     = libraryPath "org.ow2.asm:asm:9.6").
Proof.
  apply (library_path_identifies_coordinates
           "org.ow2.asm:asm:9.6" "org.ow2.asm:asm-tree:9.6"
           ("org.ow2.asm", "asm", "9.6") ("org.ow2.asm", "asm-tree", "9.6"));
    try reflexivity; repeat split.
Defined.

End MavenFacts.

(** ** The arguments of the game *)

Module GameFacts.
Import NodeFacts TextFacts JsString Game.

(** The digest is the one of RFC 1321. *)
Example md5_empty : Md5.hex EmptyString = "d41d8cd98f00b204e9800998ecf8427e".
Proof. vm_compute. reflexivity. Qed.

Example md5_abc : Md5.hex "abc" = "900150983cd24fb0d6963f7d28e17f72".
Proof. vm_compute. reflexivity. Qed.

Example md5_digits :
  Md5.hex "12345678901234567890123456789012345678901234567890123456789012345678901234567890"
  = "57edf4a22be3c955ac49da2e2107b67a".
Proof. vm_compute. reflexivity. Qed.

Lemma length_hexWord x : String.length (Md5.hexWord x) = 8.
Proof. reflexivity. Qed.

Lemma length_md5 s : String.length (Md5.hex s) = 32.
Proof.
  unfold Md5.hex.
  destruct (fold_left _ _ _) as [[[a b] c] d].
  by rewrite !length_append, !length_hexWord.
Qed.

(** X11: the offline UUID of a user name is its MD5 digest in hexadecimal,
    cut into groups of 8, 4, 4, 4 and 12 digits joined by hyphens: the
    digits of the digest, all of them and in their order, and nothing
    else. *)
Theorem generateUUID_layout (username : string) :
  exists p1 p2 p3 p4 p5,
    generateUUID Md5.hex username =
      p1 ++ "-" ++ p2 ++ "-" ++ p3 ++ "-" ++ p4 ++ "-" ++ p5 /\
    p1 ++ p2 ++ p3 ++ p4 ++ p5 = Md5.hex username /\
    String.length p1 = 8 /\ String.length p2 = 4 /\ String.length p3 = 4 /\
    String.length p4 = 4 /\ String.length p5 = 12.
Proof.
  pose proof (length_md5 username) as Hlen.
  unfold generateUUID, substring, substringFrom.
  set (h := Md5.hex username) in *.
  exists (Js.prefix 8 (drop 0 h)), (Js.prefix 4 (drop 8 h)),
    (Js.prefix 4 (drop 12 h)), (Js.prefix 4 (drop 16 h)), (drop 20 h).
  split; [done|]. split.
  - replace (drop 20 h) with (drop 4 (drop 16 h)) by (by rewrite drop_drop).
    rewrite prefix_drop.
    replace (drop 16 h) with (drop 4 (drop 12 h)) by (by rewrite drop_drop).
    rewrite prefix_drop.
    replace (drop 12 h) with (drop 4 (drop 8 h)) by (by rewrite drop_drop).
    rewrite prefix_drop.
    replace (drop 8 h) with (drop 8 (drop 0 h)) at 2 by done.
    by rewrite prefix_drop.
  - rewrite !length_prefix, !length_drop by (rewrite ?length_drop; lia).
    rewrite Hlen. done.
Qed.

Lemma startsWith_dollar p s :
  startsWith (String "$" p) s = true -> without "$" s = false.
Proof.
  destruct s as [|c s]; [done|]. cbn [startsWith without].
  intros [Hc _]%andb_true_iff. by apply Ascii.eqb_eq in Hc as <-.
Qed.

Lemma cut_plain p s :
  without "$" s = true -> cut (String "$" p) s = None.
Proof.
  induction s as [|c s IH]; [done|]. intros H.
  cbn [cut]. destruct (startsWith (String "$" p) (String c s)) eqn:E.
  - apply startsWith_dollar in E. congruence.
  - simpl in H. apply andb_true_iff in H as [_ H]. by rewrite IH.
Qed.

(** A pattern that starts with [$] does not occur in a text without [$]. *)
Lemma replace_plain p r s :
  without "$" s = true -> replace (String "$" p) r s = s.
Proof. intros H. unfold replace. by rewrite cut_plain. Qed.

Lemma replace_none p r s : cut p s = None -> replace p r s = s.
Proof. intros H. unfold replace. by rewrite H. Qed.

Lemma expand_plain matched before after r :
  without "$" r = true -> expand matched before after r = r.
Proof.
  induction r as [|c r IH]; [done|]. simpl. intros [Hc Hr]%andb_true_iff.
  destruct (Ascii.eqb_spec c "$") as [->|Hne]; [done|].
  rewrite IH by done.
  destruct c as [[] [] [] [] [] [] [] []]; try done;
    destruct r as [|[[] [] [] [] [] [] [] []] r]; done.
Qed.

Lemma startsWith_refl p s : startsWith p (p ++ s) = true.
Proof.
  induction p as [|c p IH]; [done|]. rewrite append_cons. simpl.
  by rewrite Ascii.eqb_refl.
Qed.

Lemma drop_length p s : drop (String.length p) (p ++ s) = s.
Proof. induction p as [|c p IH]; [done|]. by rewrite append_cons. Qed.

(** The pattern itself is replaced by a replacement without [$]. *)
Lemma replace_self p r :
  without "$" r = true -> replace p r p = r.
Proof.
  intros H. unfold replace.
  assert (cut p p = Some (EmptyString, EmptyString)) as ->.
  { destruct p as [|c p]; [done|]. cbn [cut].
    pose proof (startsWith_refl (String c p) EmptyString) as Hs.
    pose proof (drop_length (String c p) EmptyString) as Hd.
    rewrite append_nil_r in Hs, Hd. by rewrite Hs, Hd. }
  rewrite expand_plain by done. simpl. apply append_nil_r.
Qed.

Lemma foldl_replace_plain (l : list (string * string)) s :
  Forall (fun pr => startsWith "$" pr.1 = true) l ->
  without "$" s = true ->
  foldl (fun s pr => replace pr.1 pr.2 s) s l = s.
Proof.
  induction 1 as [|[p r] l Hp _ IH]; [done|]. intros Hs.
  cbn [foldl fst snd] in *.
  destruct p as [|c p]; [done|].
  cbn [startsWith] in Hp. rewrite andb_true_r in Hp.
  apply Ascii.eqb_eq in Hp as <-.
  rewrite replace_plain by done. by apply IH.
Qed.

(** One step of the chain, innermost call first. *)
Ltac replace_step :=
  match goal with
  | |- context [replace ?p ?r ?s] =>
      lazymatch s with
      | context [replace] => fail
      | _ => first [ rewrite (replace_self p r) by done
                   | rewrite (replace_plain _ r s) by done
                   | rewrite (replace_none p r s eq_refl) ]
      end
  end.

(** X12: [replaceGameArgPlaceholders] returns an argument that holds no
    dollar sign as it is, and turns an argument that is one of its twelve
    placeholders into the value of that placeholder, when the value holds
    no dollar sign itself. *)
Theorem placeholders_are_replaced (v : GameValues) :
  (forall arg, without "$" arg = true ->
               replaceGameArgPlaceholders v arg = arg) /\
  (forall placeholder value,
     (placeholder, value) ∈ substitutions v ->
     without "$" value = true ->
     replaceGameArgPlaceholders v placeholder = value).
Proof.
  split.
  - intros arg Harg. apply foldl_replace_plain; [|done].
    unfold substitutions. by repeat constructor.
  - intros p r Hin Hr. unfold substitutions in Hin.
    repeat (apply elem_of_cons in Hin as [[= -> ->]|Hin]);
      [..|by apply elem_of_nil in Hin];
      unfold replaceGameArgPlaceholders, substitutions; cbn [foldl fst snd];
      repeat replace_step; reflexivity.
Qed.

Lemma includes_true args x : includes args x = true <-> x ∈ args.
Proof.
  unfold includes. rewrite existsb_exists. split.
  - intros (y & Hy & ->%String.eqb_eq). by apply list_elem_of_In.
  - intros H. exists x. split; [by apply list_elem_of_In|apply String.eqb_refl].
Qed.

Lemma pushNew_elem args x : x ∈ pushNew args x.
Proof.
  unfold pushNew. destruct (includes args x) eqn:E.
  - by apply includes_true.
  - apply elem_of_app. right. by left.
Qed.

Lemma pushNew_mono args x y : y ∈ args -> y ∈ pushNew args x.
Proof.
  unfold pushNew. destruct (includes args x); [done|].
  intros H. apply elem_of_app. by left.
Qed.

Lemma pushNew_addedOnce fixed args x :
  addedOnce fixed args -> addedOnce fixed (pushNew args x).
Proof.
  intros (added & -> & Hnd & Hdis). unfold pushNew.
  destruct (includes (fixed ++ added) x) eqn:E; [by exists added|].
  assert (Hx : x ∉ (fixed ++ added)%list).
  { intros H%includes_true. congruence. }
  exists (added ++ [x])%list. split_and!.
  - by rewrite app_assoc.
  - apply NoDup_app. split_and!; [done| |apply NoDup_singleton].
    intros y Hy ->%list_elem_of_singleton. apply Hx, elem_of_app. by right.
  - intros y [Hy| ->%list_elem_of_singleton]%elem_of_app; [by apply Hdis|].
    intros H. apply Hx, elem_of_app. by left.
Qed.

Section JvmLoop.

Variables (P : Utils.Platform) (nativesDir classpath : string)
  (fixed : list string).

Lemma pushValues_spec args value args' :
  pushValues nativesDir classpath args value = Some args' ->
  (addedOnce fixed args -> addedOnce fixed args') /\
  (forall y, y ∈ args -> y ∈ args') /\
  (forall s, value = Text s ->
     forall c, c ∈ characters s -> replaceJvm nativesDir classpath c ∈ args').
Proof.
  destruct value as [vs|s|]; [| |done]; intros [= <-].
  - split_and!; [| |done].
    + revert args. induction vs as [|[t|] vs IH]; intros args H; simpl;
        [done|apply IH; by apply pushNew_addedOnce|by apply IH].
    + revert args. induction vs as [|[t|] vs IH]; intros args y H; simpl;
        [done|apply IH; by apply pushNew_mono|by apply IH].
  - assert (Hmono : forall l args y, y ∈ args ->
              y ∈ foldl (fun args c => pushNew args (replaceJvm nativesDir classpath c))
                    args l).
    { induction l as [|c l IH]; intros a y H; simpl; [done|].
      apply IH. by apply pushNew_mono. }
    split_and!.
    + generalize (characters s). intros l. revert args.
      induction l as [|c l IH]; intros args H; simpl; [done|].
      apply IH. by apply pushNew_addedOnce.
    + intros y. apply Hmono.
    + intros s' [= <-]. generalize (characters s). intros l. revert args.
      induction l as [|c l IH]; intros args x Hx; simpl.
      * by apply elem_of_nil in Hx.
      * apply elem_of_cons in Hx as [->|Hx]; [|by apply IH].
        apply Hmono, pushNew_elem.
Qed.

Lemma jvmLoop_spec jvm : forall args result,
  jvmLoop P nativesDir classpath jvm args = Some result ->
  (addedOnce fixed args -> addedOnce fixed result) /\
  (forall y, y ∈ args -> y ∈ result) /\
  (forall s, ArgString s ∈ jvm -> replaceJvm nativesDir classpath s ∈ result) /\
  (forall rules s c,
     ArgObject rules (Text s) ∈ jvm ->
     Utils.checkArgConditions P rules = true ->
     c ∈ characters s -> replaceJvm nativesDir classpath c ∈ result).
Proof.
  induction jvm as [|arg jvm IH]; intros args result; cbn [jvmLoop].
  - intros [= <-]. split_and!; [done|done| |].
    + by intros s H%elem_of_nil.
    + by intros rules s c H%elem_of_nil.
  - destruct arg as [s|rules value| |].
    + intros (Hadd & Hmono & Hstr & Htext)%IH. split_and!.
      * intros H. by apply Hadd, pushNew_addedOnce.
      * intros y H. by apply Hmono, pushNew_mono.
      * intros s' [[= ->]|H]%elem_of_cons; [|by apply Hstr].
        apply Hmono, pushNew_elem.
      * intros rules s' c [[=]|H]%elem_of_cons. by apply Htext.
    + destruct (Utils.checkArgConditions P rules) eqn:Ec.
      * destruct (pushValues nativesDir classpath args value) as [args'|] eqn:Ev;
          [|done].
        apply pushValues_spec in Ev as (Hadd' & Hmono' & Htext').
        intros (Hadd & Hmono & Hstr & Htext)%IH. split_and!.
        -- intros H. by apply Hadd, Hadd'.
        -- intros y H. by apply Hmono, Hmono'.
        -- intros s' [[=]|H]%elem_of_cons. by apply Hstr.
        -- intros rules' s' c [[= -> Hv]|H]%elem_of_cons Hr Hc;
             [|by eapply Htext].
           apply Hmono. by apply (Htext' s').
      * intros (Hadd & Hmono & Hstr & Htext)%IH. split_and!; [done|done| |].
        -- intros s' [[=]|H]%elem_of_cons. by apply Hstr.
        -- intros rules' s' c [[= -> _]|H]%elem_of_cons Hr Hc;
             [congruence|by eapply Htext].
    + done.
    + intros (Hadd & Hmono & Hstr & Htext)%IH. split_and!; [done|done| |].
      * intros s' [[=]|H]%elem_of_cons. by apply Hstr.
      * intros rules' s' c [[=]|H]%elem_of_cons. by apply Htext.
Qed.

End JvmLoop.

(** No pattern of [replaceJvm] fits into one character. *)
Lemma replaceJvm_character nativesDir classpath c :
  replaceJvm nativesDir classpath (String c EmptyString) = String c EmptyString.
Proof.
  unfold replaceJvm, replace.
  assert (Hcut : forall p q, cut (String "$" (String p q)) (String c EmptyString) = None).
  { intros p q. cbn [cut startsWith]. by destruct (Ascii.eqb "$" c). }
  by rewrite !Hcut.
Qed.

Lemma characters_one s c : c ∈ characters s -> exists a, c = String a EmptyString.
Proof.
  induction s as [|a s IH]; simpl; [by intros H%elem_of_nil|].
  intros [->|H]%elem_of_cons; [by exists a|by apply IH].
Qed.

(** X13: when [buildJvmArgs] resolves, its result starts with the fourteen
    fixed arguments, and what follows them repeats no argument and none of
    the fixed ones.  Every string of [arguments.jvm] is in the result, after
    its placeholders are replaced; and the [value] of an entry whose rules
    apply, when it is one string and not an array, is there character by
    character. *)
Theorem buildJvmArgs_appends_once (P : Utils.Platform)
    (MINECRAFT_DIR nativesDir classpath ramMin ramMax : string)
    (jvm : list JvmArg) (result : list string) :
  buildJvmArgs P MINECRAFT_DIR nativesDir classpath ramMin ramMax (Some jvm)
    = Some result ->
  addedOnce (fixedJvmArgs MINECRAFT_DIR nativesDir classpath ramMin ramMax)
            result /\
  (forall s, ArgString s ∈ jvm -> replaceJvm nativesDir classpath s ∈ result) /\
  (forall rules s c,
     ArgObject rules (Text s) ∈ jvm ->
     Utils.checkArgConditions P rules = true ->
     c ∈ characters s -> c ∈ result).
Proof.
  unfold buildJvmArgs.
  intros (Hadd & _ & Hstr & Htext)%(jvmLoop_spec _ _ _
     (fixedJvmArgs MINECRAFT_DIR nativesDir classpath ramMin ramMax)).
  split_and!; [|done|].
  - apply Hadd. exists []. split_and!; [by rewrite app_nil_r|constructor|].
    by intros x H%elem_of_nil.
  - intros rules s c Hin Hr Hc.
    destruct (characters_one _ _ Hc) as [a ->].
    rewrite <- (replaceJvm_character nativesDir classpath a). by eapply Htext.
Qed.

Lemma buildJvmArgs_appends_once_witness :
  let fixed := fixedJvmArgs ".minecraft" "versions/1.20.4/natives"
                 "libraries/a.jar:versions/1.20.4/1.20.4.jar" "1G" "2G" in
  buildJvmArgs Launcher.linuxHost ".minecraft" "versions/1.20.4/natives"
    "libraries/a.jar:versions/1.20.4/1.20.4.jar" "1G" "2G" (Some sampleJvm)
  = Some (fixed ++ ["-"; "X"; "s"; "1"; "M"])%list /\
  addedOnce fixed (fixed ++ ["-"; "X"; "s"; "1"; "M"])%list.
Proof.
  cbv zeta.
  assert (E : buildJvmArgs Launcher.linuxHost ".minecraft"
                "versions/1.20.4/natives"
                "libraries/a.jar:versions/1.20.4/1.20.4.jar" "1G" "2G"
                (Some sampleJvm)
              = Some (fixedJvmArgs ".minecraft" "versions/1.20.4/natives"
                        "libraries/a.jar:versions/1.20.4/1.20.4.jar" "1G" "2G"
                      ++ ["-"; "X"; "s"; "1"; "M"])%list)
    by (vm_compute; reflexivity).
  split; [exact E|].
  exact (proj1 (buildJvmArgs_appends_once _ _ _ _ _ _ _ _ E)).
Defined.

End GameFacts.

(** ** The asset verifier's copies and counts *)

Module VerifierFacts.
Import Node NodeFacts AssetVerifier Verifier.

Lemma onlyAdds_refl st : onlyAdds st st.
Proof. by split_and!. Qed.

Lemma onlyAdds_trans a b c : onlyAdds a b -> onlyAdds b c -> onlyAdds a c.
Proof.
  intros (Hr1 & He1 & Hs1) (Hr2 & He2 & Hs2). split_and!.
  - congruence.
  - intros p Hp. rewrite He2, He1; [done|done|]. by rewrite He1.
  - lia.
Qed.

Lemma copyIfMissing_onlyAdds st src dest :
  onlyAdds st (copyIfMissing st src dest).
Proof.
  destruct st as [fs count]. unfold copyIfMissing.
  destruct (existsSync fs src); simpl; [|apply onlyAdds_refl].
  destruct (existsSync fs dest) eqn:Ed; simpl; [apply onlyAdds_refl|].
  destruct (copyFileSync fs src dest) as [fs'|] eqn:Ec; [|apply onlyAdds_refl].
  assert (Hfree : entries fs !! dest = None).
  { apply eq_None_not_Some. intros H%existsSync_true. congruence. }
  unfold copyFileSync in Ec. destruct (readBytes fs src) as [bytes|]; [|done].
  apply writeBytes_Some in Ec as (-> & _ & _). split_and!; simpl.
  - done.
  - intros p Hp. apply lookup_insert_ne. intros <-. rewrite Hfree in Hp.
    by destruct Hp.
  - rewrite map_size_insert_None by done. lia.
Qed.

Lemma foldl_onlyAdds {A} (step : Fs * nat -> A -> Fs * nat) l :
  (forall st a, onlyAdds st (step st a)) ->
  forall st, onlyAdds st (foldl step st l).
Proof.
  intros Hstep. induction l as [|a l IH]; intros st; simpl.
  - apply onlyAdds_refl.
  - eapply onlyAdds_trans; [apply Hstep|apply IH].
Qed.

Lemma linkSound_onlyAdds M O st entry : onlyAdds st (linkSound M O st entry).
Proof.
  unfold linkSound. destruct entry as [assetName assetInfo].
  destruct (isSound assetName); [|apply onlyAdds_refl].
  destruct O; [apply copyIfMissing_onlyAdds|apply onlyAdds_refl].
Qed.

Lemma copyMissingAsset_onlyAdds A V st entry :
  onlyAdds st (Utils.copyMissingAsset A V st entry).
Proof.
  destruct st as [fs count], entry as [assetPath assetInfo].
  apply (copyIfMissing_onlyAdds (fs, count)).
Qed.



(** X16: [createVirtualAssetsForSounds] copies no file and returns 0,
    whatever the asset index and the tree: each iteration for a sound reads
    the block's constant [virtualDir] before its declaration, and the
    exception ends the iteration. *)
Theorem createVirtualAssetsForSounds_copies_nothing (MINECRAFT_DIR : string)
    (ASSETS_OBJECTS_DIR : option string) (fs : Fs) (assetIndex : AssetIndex) :
  createVirtualAssetsForSounds MINECRAFT_DIR ASSETS_OBJECTS_DIR fs assetIndex
  = (fs, 0).
Proof.
  unfold createVirtualAssetsForSounds. generalize 0.
  induction (objects assetIndex) as [|[assetPath assetInfo] l IH]; intros n;
    [done|].
  cbn [foldl]. unfold createVirtualSound at 2.
  destruct (isSound assetPath); [|apply IH].
  destruct ASSETS_OBJECTS_DIR; apply IH.
Qed.

(** *** [verifyAllAssets] *)

Lemma downloadFile_requests answer url destination retries fs n fs1 n1 r :
  downloadFile answer url destination retries fs n = Some (fs1, n1, r) ->
  n1 = S n.
Proof.
  unfold downloadFile.
  destruct (writeBytes fs destination EmptyString) as [created|];
    [|by intros [= _ <- _]].
  destruct (answer n url) as [code body| |]; [| |done].
  - destruct (negb (code =? 200)%nat); [by intros [= _ <- _]|].
    by destruct (writeBytes created destination body); intros [= _ <- _].
  - by intros [= _ <- _].
Qed.

(** Every missing asset is requested once, and counted at most once. *)
Lemma repairMissingAssets_spec sha1 answer ASSETS_DIR l :
  forall fs n repaired fs1 n1 repaired1,
    repairMissingAssets sha1 answer ASSETS_DIR l fs n repaired
      = Some (fs1, n1, repaired1) ->
    n1 = n + length l /\ repaired <= repaired1 <= repaired + length l.
Proof.
  induction l as [|asset l IH]; intros fs n repaired fs1 n1 repaired1;
    cbn [repairMissingAssets].
  - intros [= _ <- <-]. simpl. lia.
  - destruct (downloadFile answer _ _ 3 fs n) as [[[fs' n'] r]|] eqn:Ed; [|done].
    apply downloadFile_requests in Ed as ->.
    destruct r as [e|[]].
    + intros H%IH. simpl. lia.
    + destruct (verifyAsset sha1 fs' _ _); intros H%IH; simpl; lia.
Qed.

Lemma verifyOne_counts sha1 ASSETS_DIR fs l : forall c,
  let c' := foldl (verifyOne sha1 ASSETS_DIR fs) c l in
  valid c' = valid c + countOf sha1 ASSETS_DIR fs isValid l /\
  invalid c' = invalid c + countOf sha1 ASSETS_DIR fs isInvalid l /\
  missing c' = missing c + countOf sha1 ASSETS_DIR fs isMissing l /\
  length (missingAssets c') =
    length (missingAssets c) + countOf sha1 ASSETS_DIR fs isMissing l.
Proof.
  unfold countOf. induction l as [|entry l IH]; intros c; cbn [foldl].
  - simpl. lia.
  - destruct (IH (verifyOne sha1 ASSETS_DIR fs c entry)) as (Hv & Hi & Hm & Hl).
    cbv zeta. rewrite Hv, Hi, Hm, Hl. unfold verifyOne. cbn [List.filter].
    destruct (check sha1 ASSETS_DIR fs entry); simpl;
      rewrite ?length_app; simpl; lia.
Qed.

Lemma countOf_total sha1 ASSETS_DIR fs l :
  countOf sha1 ASSETS_DIR fs isValid l + countOf sha1 ASSETS_DIR fs isInvalid l
  + countOf sha1 ASSETS_DIR fs isMissing l = length l.
Proof.
  unfold countOf. induction l as [|entry l IH]; [done|]. cbn [List.filter].
  destruct (check sha1 ASSETS_DIR fs entry); simpl in *; lia.
Qed.



End VerifierFacts.

(** ** The order of the downloads *)

Module QueueFacts.
Import Utils PoolFacts.

Lemma drop_next {A} (l : list A) n x rest :
  drop n l = x :: rest -> drop (S n) l = rest.
Proof.
  revert n. induction l as [|a l IH]; intros [|n]; simpl; try done.
  - by intros [= _ ->].
  - apply IH.
Qed.

Lemma queue_suffix files k p :
  reachable files k p -> exists n, queue p = drop n files.
Proof.
  induction 1 as [|p p' _ [n Hn] Hstep].
  - rewrite start_shape. simpl. eauto.
  - destruct Hstep as [p before file after outcome Hin].
    unfold settle, processNext.
    destruct outcome; simpl; destruct (queue p) as [|next rest] eqn:Eq;
      simpl; try (by exists n); exists (S n); symmetry;
      by eapply drop_next.
Qed.

(** X18: [downloadFilesParallel] starts the downloads in the order of its
    list: in every state of a run, the queue is what is left of the list
    after its first [n] files, and these [n] files are the ones whose
    download was started, settled or not. *)
Theorem downloads_start_in_order (files : list Task) (k : nat) (p : Pool) :
  reachable files k p ->
  exists n,
    n <= length files /\
    queue p = drop n files /\
    settled p ++ inProgress p ≡ₚ take n files.
Proof.
  intros Hreach.
  destruct (queue_suffix _ _ _ Hreach) as [n Hn].
  destruct (reachable_invariant _ _ _ Hreach) as (Hperm & _ & _).
  destruct (decide (n <= length files)) as [Hle|Hgt].
  - exists n. split_and!; [done|done|].
    rewrite Hn, app_assoc in Hperm.
    rewrite <- (take_drop n files) in Hperm at 2.
    by apply Permutation_app_inv_r in Hperm.
  - exists (length files). split_and!; [done| |].
    + rewrite Hn, !drop_ge; [done|lia|lia].
    + rewrite Hn, drop_ge, app_nil_r in Hperm by lia.
      by rewrite firstn_all.
Qed.

Lemma downloads_start_in_order_witness :
  let files := [sampleTask "a"; sampleTask "b"; sampleTask "c"; sampleTask "d"] in
  let p := drive [(1, inr (Downloaded "assets/objects/b"))] (start files 2) in
  exists n,
    n <= 4 /\
    queue p = drop n files /\
    settled p ++ inProgress p ≡ₚ take n files.
Proof.
  cbv zeta.
  apply (downloads_start_in_order
           [sampleTask "a"; sampleTask "b"; sampleTask "c"; sampleTask "d"] 2).
  apply drive_reachable. constructor.
Defined.

End QueueFacts.

(** ** The descriptors after processing *)

Module ProcessFacts.
Import Node NodeFacts TextFacts AssetVerifier AssetVerifierFacts.

(** The two descriptor files are different files. *)
Lemma descriptor_paths_differ VERSIONS_DIR mv fv :
  minecraftJsonPathOf VERSIONS_DIR mv <> fabricJsonPathOf VERSIONS_DIR mv fv.
Proof.
  unfold minecraftJsonPathOf, fabricJsonPathOf, Js.pathJoin.
  cbn [String.concat]. intros H%(f_equal String.length).
  rewrite !length_append in H. simpl in H. lia.
Qed.

(** Detection reads the libraries only. *)
Lemma identify_libraries a a' b b' :
  librariesOf a = librariesOf a' -> librariesOf b = librariesOf b' ->
  identifyLibraryConflicts a b = identifyLibraryConflicts a' b'.
Proof. unfold identifyLibraryConflicts. by intros -> ->. Qed.

Lemma fixAssetIndex_libraries a b :
  librariesOf (fixAssetIndex a b).1 = librariesOf a /\
  librariesOf (fixAssetIndex a b).2 = librariesOf b.
Proof.
  unfold fixAssetIndex. by destruct (assetIndex a), (assetIndex b).
Qed.

(** X19: when [processVersionFiles] reports success, the two descriptor
    files it leaves, read again, are free of conflicts: no library of the
    loader's descriptor has the group and artifact of a library of the
    game's descriptor under another name.  [JSON.parse] is taken to read
    back the two documents that [JSON.stringify] wrote, and the files to be
    read as they were written. *)
Theorem processed_descriptors_have_no_conflict (u : Utf8) (J : Json)
    (VERSIONS_DIR : string) (fs fs' : Fs) (modified modified' : Backups)
    (minecraftVersion fabricVersion : string) (conflicts : nat) :
  (forall text, decode u (encode u text) = text) ->
  (forall minecraftJson0 fabricJson0,
     loadJson u J fs (minecraftJsonPathOf VERSIONS_DIR minecraftVersion)
       = Some minecraftJson0 ->
     loadJson u J fs (fabricJsonPathOf VERSIONS_DIR minecraftVersion fabricVersion)
       = Some fabricJson0 ->
     let '(minecraftJson, fabricJson) := fixAssetIndex minecraftJson0 fabricJson0 in
     let '(minecraftJson', fabricJson') :=
       resolveLibraryConflicts minecraftJson fabricJson
         (identifyLibraryConflicts minecraftJson fabricJson) in
     parse J (stringify J minecraftJson') = Some minecraftJson' /\
     parse J (stringify J fabricJson') = Some fabricJson') ->
  processVersionFiles u J VERSIONS_DIR fs modified minecraftVersion fabricVersion
    = (fs', modified', Processed conflicts) ->
  exists minecraftJson fabricJson,
    loadJson u J fs' (minecraftJsonPathOf VERSIONS_DIR minecraftVersion)
      = Some minecraftJson /\
    loadJson u J fs' (fabricJsonPathOf VERSIONS_DIR minecraftVersion fabricVersion)
      = Some fabricJson /\
    identifyLibraryConflicts minecraftJson fabricJson = [].
Proof.
  intros Hu HJ. unfold processVersionFiles.
  pose proof (descriptor_paths_differ VERSIONS_DIR minecraftVersion fabricVersion)
    as Hne.
  set (pm := minecraftJsonPathOf VERSIONS_DIR minecraftVersion) in *.
  set (pf := fabricJsonPathOf VERSIONS_DIR minecraftVersion fabricVersion) in *.
  destruct (negb (existsSync fs pm)); [done|].
  destruct (negb (existsSync fs pf)); [done|].
  destruct (loadJson u J fs pm) as [mj0|] eqn:Em; [|done].
  destruct (loadJson u J fs pf) as [fj0|] eqn:Ef; [|done].
  specialize (HJ mj0 fj0 eq_refl eq_refl).
  destruct (fixAssetIndex_libraries mj0 fj0) as [Hlm Hlf].
  destruct (fixAssetIndex mj0 fj0) as [mj fj]. simpl in Hlm, Hlf.
  destruct (0 <? length (identifyLibraryConflicts mj fj))%nat eqn:Ec.
  - unfold resolveLibraryConflicts, writeFileSync in *.
    destruct HJ as [HJm HJf].
    destruct (writeBytes fs pm _) as [fs1|] eqn:E1; [|done].
    destruct (writeBytes fs1 pf _) as [fs2|] eqn:E2; [|done].
    intros [= <- _ _].
    apply writeBytes_Some in E1 as (-> & _ & _).
    apply writeBytes_Some in E2 as (-> & _ & _).
    exists (foldl dropConflict mj (identifyLibraryConflicts mj fj)), fj.
    unfold loadJson, readFileSync, readBytes. simpl.
    rewrite lookup_insert_ne, !lookup_insert_eq by done. simpl.
    rewrite !Hu, HJm, HJf. split_and!; [done|done|].
    apply identify_after_resolve.
  - intros [= <- _ _]. exists mj0, fj0. split_and!; [done|done|].
    rewrite (identify_libraries mj0 mj fj0 fj) by done.
    apply Nat.ltb_ge in Ec.
    destruct (identifyLibraryConflicts mj fj); [done|simpl in Ec; lia].
Qed.

Lemma processed_descriptors_have_no_conflict_witness :
  let r := processVersionFiles asciiText sampleJson "versions" Launcher.sampleTree []
             "1.20.4" "0.15.0" in
  r.2 = Processed 1 /\
  exists minecraftJson fabricJson,
    loadJson asciiText sampleJson r.1.1 (minecraftJsonPathOf "versions" "1.20.4")
      = Some minecraftJson /\
    loadJson asciiText sampleJson r.1.1
      (fabricJsonPathOf "versions" "1.20.4" "0.15.0") = Some fabricJson /\
    identifyLibraryConflicts minecraftJson fabricJson = [].
Proof.
  cbv zeta.
  set (r := processVersionFiles asciiText sampleJson "versions" Launcher.sampleTree []
              "1.20.4" "0.15.0").
  assert (E : r = (r.1.1, r.1.2, Processed 1)) by (vm_compute; reflexivity).
  split; [by rewrite E|].
  refine (processed_descriptors_have_no_conflict asciiText sampleJson "versions"
            Launcher.sampleTree _ [] _ "1.20.4" "0.15.0" 1 _ _ E); [done|].
  intros minecraftJson0 fabricJson0 Hm Hf.
  vm_compute in Hm, Hf. injection Hm as <-. injection Hf as <-.
  vm_compute. split; reflexivity.
Defined.

End ProcessFacts.

(** ** Rules and batches *)

Module ShapeFacts.
Import Utils.

(** X20: on the rule lists that the descriptors use, the evaluator of the
    arguments and the evaluator of the libraries agree: a single [allow]
    without a condition applies everywhere, a single [allow] for one
    operating system applies on that system only, and an [allow] followed by
    a [disallow] for one operating system applies everywhere but there. *)
Theorem rule_evaluators_agree_on_usual_rules (P : Platform) (osName : string) :
  Js.truthy osName = true ->
  let here := String.eqb osName (getNativeOS P) in
  let allow := Launcher.plainRule "allow" in
  let allowOn := Launcher.osRule "allow" osName in
  let disallowOn := Launcher.osRule "disallow" osName in
  (checkArgConditions P (Some [allow]) = true /\
   Launcher.shouldUseLibrary P (Some [allow]) = true) /\
  (checkArgConditions P (Some [allowOn]) = here /\
   Launcher.shouldUseLibrary P (Some [allowOn]) = here) /\
  (checkArgConditions P (Some [allow; disallowOn]) = negb here /\
   Launcher.shouldUseLibrary P (Some [allow; disallowOn]) = negb here).
Proof.
  intros Ht here allow allowOn disallowOn.
  unfold checkArgConditions, Launcher.shouldUseLibrary, checkRules,
    Launcher.rulesLoop, ruleApplies, osNameDiffers, osVersionDiffers.
  subst here allow allowOn disallowOn. simpl. rewrite Ht. simpl.
  by destruct (String.eqb osName (getNativeOS P)).
Qed.

Lemma rule_evaluators_agree_on_usual_rules_witness :
  checkArgConditions Launcher.linuxHost
    (Some [Launcher.plainRule "allow"; Launcher.osRule "disallow" "osx"]) = true /\
  Launcher.shouldUseLibrary Launcher.linuxHost
    (Some [Launcher.plainRule "allow"; Launcher.osRule "disallow" "osx"]) = true.
Proof.
  destruct (rule_evaluators_agree_on_usual_rules Launcher.linuxHost "osx" eq_refl)
    as (_ & _ & Hc & Hl).
  split; [exact Hc|exact Hl].
Defined.

End ShapeFacts.

Module AssetBatchFacts.
Import Utils PoolFacts.

(** X21: the batch of [downloadAssets] runs with a concurrency between 10
    and 50, whatever the number of assets to download, so at most 50
    downloads are ever pending; and once each started download has settled,
    the call returns with every asset of the queue counted once, as a
    success or as a failure. *)
Theorem asset_batch_accounts_for_every_asset
    (files : list Task) (oracle : list (nat * Outcome)) :
  length files <= length oracle ->
  let concurrency := Launcher.assetConcurrency (length files) in
  10 <= concurrency <= 50 /\
  (forall p, reachable files concurrency p -> length (inProgress p) <= 50) /\
  exists s,
    downloadFilesParallel oracle files concurrency = Some s /\
    total s = length files /\
    successful s + failed s = length files.
Proof.
  intros Hlen concurrency.
  assert (Hk : 10 <= concurrency <= 50).
  { subst concurrency. unfold Launcher.assetConcurrency. lia. }
  split; [done|]. split.
  - intros p (_ & Hle & _)%reachable_invariant. lia.
  - unfold downloadFilesParallel.
    pose proof (drive_completes oracle (start files concurrency)) as Hdone.
    rewrite start_pending in Hdone. specialize (Hdone Hlen).
    pose proof (drive_reachable files concurrency oracle _
                  (reach_start files concurrency)) as Hreach.
    apply reachable_invariant in Hreach as (Hperm & _ & Hfull).
    unfold completed in Hdone. rewrite Hdone in Hperm, Hfull |- *.
    eexists. split; [reflexivity|]. split; [done|].
    assert (Hq : queue (drive oracle (start files concurrency)) = []).
    { destruct (queue _) as [|x q] eqn:E; [done|].
      specialize (Hfull ltac:(done)). simpl in Hfull. lia. }
    rewrite Hq in Hperm. simpl in Hperm. rewrite app_nil_r in Hperm.
    apply Permutation_length in Hperm. unfold settled in Hperm.
    rewrite length_app, !length_fmap in Hperm. done.
Qed.

Lemma asset_batch_accounts_for_every_asset_witness :
  let files := [sampleTask "aa"; sampleTask "bb"; sampleTask "cc"] in
  let oracle := [(0, inr (Downloaded "assets/objects/aa"));
                 (1, inl (HttpStatus 404));
                 (0, inr (Skipped "assets/objects/bb"))] in
  exists s,
    downloadFilesParallel oracle files (Launcher.assetConcurrency 3) = Some s /\
    total s = 3 /\
    successful s + failed s = 3.
Proof.
  cbv zeta.
  refine (proj2 (proj2 (asset_batch_accounts_for_every_asset
            [sampleTask "aa"; sampleTask "bb"; sampleTask "cc"]
            [(0, inr (Downloaded "assets/objects/aa"));
             (1, inl (HttpStatus 404));
             (0, inr (Skipped "assets/objects/bb"))] _))).
  simpl. lia.
Defined.

End AssetBatchFacts.

(** ** The acquisition of the game files *)

Module AcquisitionFacts.
Import Node NodeFacts AssetVerifier Acquisition Download DownloadSoundness.

(** X22: [loadFabricJson] stores the answer of the Fabric endpoint in its
    cache file before it parses it.  So when the answer is no JSON, the
    call throws, and every later call throws too, without a request: it
    reads the cached text.  A well-formed answer is returned, and returned
    again from the cache. *)
Theorem loadFabricJson_caches_the_answer (env : Utils.Env) (u : Utf8) (J : Json)
    (VERSIONS_DIR minecraftVersion fabricVersion : string) (fs : Fs) (n n1 : nat)
    (fabricJson : string) :
  let jsonPath := fabricJsonPathOf VERSIONS_DIR minecraftVersion fabricVersion in
  let url := FABRIC_META_URL ++ "/loader/" ++ minecraftVersion ++ "/"
               ++ fabricVersion ++ "/profile/json" in
  let fallbackUrl := FABRIC_META_URL_FALLBACK ++ "/loader/" ++ minecraftVersion
                       ++ "/" ++ fabricVersion ++ "/profile/json" in
  existsSync fs jsonPath = false ->
  (jsonPath ∉ readonly fs) ->
  decode u (encode u fabricJson) = fabricJson ->
  Http.httpGet env url (Some fallbackUrl) 3 n = (n1, inr (Some fabricJson)) ->
  let first := loadFabricJson env u J VERSIONS_DIR minecraftVersion
                 fabricVersion fs n in
  let answer :=
    match parse J fabricJson with
    | Some d => inr d
    | None => inl ParseFailed
    end in
  first.2 = answer /\
  first.1.2 = n1 /\
  readFileSync u first.1.1 jsonPath = Some fabricJson /\
  forall env' n',
    loadFabricJson env' u J VERSIONS_DIR minecraftVersion fabricVersion
      first.1.1 n'
    = (first.1.1, n', answer).
Proof.
  intros jsonPath url fallbackUrl Hnew Hrw Hu Hget first answer.
  assert (Hfree : entries fs !! jsonPath = None).
  { apply eq_None_not_Some. intros H%existsSync_true. congruence. }
  assert (Hfirst : first =
            ({| entries := <[jsonPath := File (encode u fabricJson)]> (entries fs);
                readonly := readonly fs |}, n1, answer)).
  { subst first. unfold loadFabricJson. fold jsonPath url fallbackUrl.
    rewrite Hnew, Hget. unfold writeFileSync.
    rewrite writeBytes_writable by (by rewrite ?Hfree).
    subst answer. by destruct (parse J fabricJson). }
  rewrite Hfirst. simpl.
  assert (Hread : readFileSync u
            {| entries := <[jsonPath := File (encode u fabricJson)]> (entries fs);
               readonly := readonly fs |} jsonPath = Some fabricJson).
  { unfold readFileSync, readBytes. simpl. rewrite lookup_insert_eq. simpl.
    by rewrite Hu. }
  split_and!; [done|done|done|].
  intros env' n'. unfold loadFabricJson. fold jsonPath.
  assert (existsSync
            {| entries := <[jsonPath := File (encode u fabricJson)]> (entries fs);
               readonly := readonly fs |} jsonPath = true) as ->.
  { apply existsSync_true. simpl. rewrite lookup_insert_eq. by eexists. }
  rewrite Hread. subst answer. by destruct (parse J fabricJson).
Qed.

Lemma loadFabricJson_caches_the_answer_witness :
  let first := loadFabricJson brokenHost asciiText strictJson "versions"
                 "1.20.4" "0.15.0" (Utils.fs Utils.emptyWorld) 0 in
  first.2 = inl ParseFailed /\
  first.1.2 = 1 /\
  readFileSync asciiText first.1.1
    (fabricJsonPathOf "versions" "1.20.4" "0.15.0")
    = Some "<html>Bad gateway</html>" /\
  forall env' n',
    loadFabricJson env' asciiText strictJson "versions" "1.20.4" "0.15.0"
      first.1.1 n'
    = (first.1.1, n', inl ParseFailed).
Proof.
  cbv zeta.
  apply (loadFabricJson_caches_the_answer brokenHost asciiText strictJson
           "versions" "1.20.4" "0.15.0" (Utils.fs Utils.emptyWorld) 0 1
           "<html>Bad gateway</html>").
  - reflexivity.
  - apply not_elem_of_empty.
  - reflexivity.
  - reflexivity.
Defined.



(** *** The progress counter *)

Lemma requestOnceCounting_erase env redirect redirect' url destination tempFile w :
  (forall l w0, redirect l w0 = (fun r => r.1) <$> redirect' l w0) ->
  Launcher.requestOnce env redirect url destination tempFile w
  = (fun r => r.1) <$> requestOnceCounting env redirect' url destination tempFile w.
Proof.
  intros Hr. unfold Launcher.requestOnce, requestOnceCounting.
  destruct (writeBytes _ tempFile EmptyString) as [created|]; [|done].
  destruct (Utils.respond env (Utils.requests w) url) as [l|body|code| |];
    try done.
  - rewrite Hr. by destruct (redirect' l _) as [[[w' [e|v]] k]|].
  - destruct (writeBytes created tempFile body) as [written|]; [|done].
    by destruct (rename written tempFile destination).
Qed.

(** Without its counter, [downloadFileCounting] is [downloadFile]. *)
Lemma downloadFileCounting_erase env depth : forall url destination expected w,
  Launcher.downloadFile env depth url destination expected w
  = (fun r => r.1) <$> downloadFileCounting env depth url destination expected w.
Proof.
  induction depth as [|depth IH]; intros url destination expected w;
    cbn [Launcher.downloadFile downloadFileCounting];
    destruct (Utils.alreadyValid env destination expected w) as [e|[|]];
    try done.
  rewrite (requestOnceCounting_erase env _
             (fun location => downloadFileCounting env depth location
                                destination expected)) by (intros; apply IH).
  destruct (requestOnceCounting env _ url destination _ w)
    as [[[w1 [e|[]]] k]|]; try done.
  simpl. by destruct (Utils.verifyDownloaded env destination expected w1).
Qed.

(** The counter moves at most once in a call, however many redirects are
    followed, and it moves in every call that resolves. *)
Lemma downloadFileCounting_once env depth :
  forall url destination expected w w' r k,
    downloadFileCounting env depth url destination expected w = Some (w', r, k) ->
    k <= 1 /\ (forall v, r = inr v -> k = 1).
Proof.
  induction depth as [|depth IH]; intros url destination expected w w' r k;
    cbn [downloadFileCounting];
    destruct (Utils.alreadyValid env destination expected w) as [e|[|]];
    try done; try (intros [= <- <- <-]; split; [lia|done]).
  unfold requestOnceCounting.
  destruct (writeBytes _ (destination ++ ".tmp") EmptyString) as [created|].
  2:{ intros [= <- <- <-]. split; [lia|done]. }
  destruct (Utils.respond env (Utils.requests w) url) as [l|body|code| |];
    try done; try (intros [= <- <- <-]; split; [lia|done]).
  - destruct (downloadFileCounting env depth l destination expected _)
      as [[[w1 [e|v]] k1]|] eqn:Ed; [| |done].
    + intros [= <- <- <-]. apply IH in Ed as [Hk _]. by split.
    + apply IH in Ed as [Hk Hv]. specialize (Hv v eq_refl).
      by destruct (Utils.verifyDownloaded env destination expected w1);
        intros [= <- <- <-].
  - destruct (writeBytes created _ body) as [written|];
      [|intros [= <- <- <-]; split; [lia|done]].
    destruct (rename written _ destination);
      [|intros [= <- <- <-]; split; [lia|done]].
    by destruct (Utils.verifyDownloaded env destination expected _);
      intros [= <- <- <-].
Qed.

(** X24: [downloadMinecraftLibraryArtifact] counts a library that it
    fetches twice: [downloadProgress.completed] grows by one in
    [downloadFile] and by one more after it, so by 2, while a library that
    is skipped, already downloaded or found in place grows it by 1.  In
    every call that returns, the counter grows by 1 or 2. *)
Theorem fetched_library_is_counted_twice (env : Utils.Env) (depth : nat)
    (LIBRARIES_DIR : string) (library : LibraryEntry) (s s' : Session)
    (outcome : LibraryOutcome) :
  downloadMinecraftLibraryArtifact env depth LIBRARIES_DIR library s
    = Some (s', outcome) ->
  completed s + 1 <= completed s' <= completed s + 2 /\
  (outcome = Fetched -> completed s' = completed s + 2) /\
  (outcome <> Fetched -> outcome <> Failed -> completed s' = completed s + 1).
Proof.
  unfold downloadMinecraftLibraryArtifact.
  destruct (artifact library) as [a|];
    [|intros [= <- <-]; simpl; split_and!; (done || lia)].
  destruct (truthyOption (artifactUrl a)) as [url|];
    [|intros [= <- <-]; simpl; split_and!; (done || lia)].
  destruct (libPathOf library a) as [libPath|];
    [|intros [= <- <-]; simpl; split_and!; (done || lia)].
  destruct (bool_decide _);
    [intros [= <- <-]; simpl; split_and!; (done || lia)|].
  match goal with
  | |- match ?c with _ => _ end = _ -> _ => destruct c as [[|]|]
  end; try (intros [= <- <-]; simpl; split_and!; (done || lia)).
  destruct (downloadFileCounting env depth url _ (artifactSha1 a) (world s))
    as [[[w' [e|v]] k]|] eqn:Ed; [| |done].
  - apply downloadFileCounting_once in Ed as [Hk _].
    intros [= <- <-]. simpl. split_and!; (done || lia).
  - apply downloadFileCounting_once in Ed as [Hk Hv].
    specialize (Hv v eq_refl). subst k.
    intros [= <- <-]. simpl. split_and!; (done || lia).
Qed.

Lemma fetched_library_is_counted_twice_witness :
  exists s',
    downloadMinecraftLibraryArtifact (Utils.steadyHost "jar") 1 "libraries"
      sampleLibrary freshSession = Some (s', Fetched) /\
    completed s' = 2.
Proof.
  destruct (downloadMinecraftLibraryArtifact (Utils.steadyHost "jar") 1
              "libraries" sampleLibrary freshSession) as [[s' o]|] eqn:E;
    [|vm_compute in E; discriminate].
  assert (Ho : o = Fetched).
  { pose proof E as E'. vm_compute in E'. by injection E' as _ <-. }
  subst o. exists s'. split; [done|].
  destruct (fetched_library_is_counted_twice _ _ _ _ _ _ _ E) as (_ & H & _).
  exact (H eq_refl).
Defined.

End AcquisitionFacts.

(** ** The comparison of versions *)

Module UpdateFacts.
Import TextFacts UpdateChecker.
Import PrimFloat.

Lemma SFcompare_antisym f1 f2 :
  SpecFloat.SFcompare f2 f1 = option_map CompOpp (SpecFloat.SFcompare f1 f2).
Proof.
  destruct f1 as [s1|s1| |s1 m1 e1], f2 as [s2|s2| |s2 m2 e2]; simpl; try done;
    try (by destruct s1); try (by destruct s2); try (by destruct s1, s2).
  destruct s1, s2; simpl; try done; f_equal;
    rewrite (Z.compare_antisym e1 e2);
    destruct (e1 ?= e2)%Z; simpl; try done;
    rewrite (Pos.compare_cont_antisym m1 m2 Eq); done.
Qed.

Lemma ltb_asym x y :
  PrimFloat.ltb x y = true -> PrimFloat.ltb y x = false.
Proof.
  rewrite !FloatAxioms.ltb_spec. unfold SpecFloat.SFltb.
  rewrite (SFcompare_antisym (FloatOps.Prim2SF x)).
  by destruct (SpecFloat.SFcompare _ _) as [[]|].
Qed.

Lemma ltb_irrefl x : PrimFloat.ltb x x = false.
Proof.
  destruct (PrimFloat.ltb x x) eqn:E; [|done].
  pose proof (ltb_asym _ _ E). congruence.
Qed.

Lemma compareFrom_asym a b : forall steps i,
  compareFrom a b i steps = true -> compareFrom b a i steps = false.
Proof.
  induction steps as [|steps IH]; intros i; [done|]. cbn [compareFrom].
  destruct (PrimFloat.ltb (part b i) (part a i)) eqn:E1.
  - intros _. by rewrite (ltb_asym _ _ E1).
  - destruct (PrimFloat.ltb (part a i) (part b i)) eqn:E2; [done|]. apply IH.
Qed.

(** Arrays with the same parts at every index are not newer than one
    another. *)
Lemma compareFrom_same a b : forall steps i,
  (forall j, part a j = part b j) -> compareFrom a b i steps = false.
Proof.
  induction steps as [|steps IH]; intros i Hsame; [done|]. cbn [compareFrom].
  rewrite Hsame, ltb_irrefl. by apply IH.
Qed.

Lemma part_snoc parts x i :
  orZero x = 0%float -> part (parts ++ [x]) i = part parts i.
Proof.
  intros Hx. unfold part.
  destruct (decide (i < length parts)) as [Hlt|Hge].
  - by rewrite lookup_app_l.
  - rewrite lookup_app_r, (lookup_ge_None_2 parts) by lia.
    by destruct (i - length parts) as [|[|k]].
Qed.

(** The parts are compared as numbers, not as text. *)
Example isNewerVersion_numeric :
  isNewerVersion decimalNumber "1.10.0" "1.9" = true /\
  isNewerVersion decimalNumber "1.9" "1.10.0" = false.
Proof. split; vm_compute; reflexivity. Qed.

(** X25: [isNewerVersion] is a strict comparison: no version is newer than
    itself, and of two versions at most one is newer than the other,
    whatever [Number] makes of their parts.  A trailing [.0] does not make
    a version newer or older. *)
Theorem isNewerVersion_is_strict (Number : string -> PrimFloat.float)
    (a b : string) :
  isNewerVersion Number a a = false /\
  (isNewerVersion Number a b = true -> isNewerVersion Number b a = false) /\
  (Number "0" = 0%float ->
   isNewerVersion Number (a ++ ".0") a = false /\
   isNewerVersion Number a (a ++ ".0") = false).
Proof.
  unfold isNewerVersion. split_and!.
  - by apply compareFrom_same.
  - rewrite (Nat.max_comm (length (List.map Number (Js.split "." b)))).
    apply compareFrom_asym.
  - intros Hzero.
    change (a ++ ".0") with (a ++ String "." "0").
    rewrite split_app. change (Js.split "." "0") with ["0"].
    rewrite map_app. cbn [List.map].
    assert (Hx : orZero (Number "0") = 0%float) by (by rewrite Hzero).
    split; apply compareFrom_same; intros j;
      by rewrite (part_snoc _ _ _ Hx).
Qed.

End UpdateFacts.
